(** * kraft / kwat: grid construction, kernel-density orchestration, drop_until

    A shallow embedding of

      - [kraft/make_vector_grid.py]                              (Grid Builder),
      - [kraft/estimate_element_x_dimension_kernel_density.py]   (Density Evaluator),
      - [kwat/dataframe/drop_until.py],
      - [ccal/support.py]: [get_unique_in_order], [drop_nan_columns],

    together with the parts of numpy these functions call ([ndarray.min],
    [ndarray.max], [linspace], [ndarray.clip], [isnan], the in-place [&=]
    and the boolean index).

    Python numbers are kept behind a small interface, [Number], so that
    the very same code runs on two carriers:

      - [Binary64] : IEEE-754 binary64 numbers, with rounding, NaN and the
                     infinities: the numbers of a float64 array.  The
                     statements about the grids and about the floor clamp
                     are proved on this carrier, or on every carrier.
      - [Exact]    : rationals [Q]; arithmetic without rounding.  It shows
                     what the formulas denote before rounding, and serves
                     for runs where rounding plays no part.

    Python exceptions are values of an error monad, [result]. *)

From Stdlib Require Import List ZArith QArith Floats Bool Lia Lqa.
Import ListNotations.

Set Implicit Arguments.

(* ================================================================== *)
(** ** Python: exceptions, sequence indexing, generator expressions    *)
(* ================================================================== *)

Module Py.

Inductive exn : Type :=
| ValueError     (* raised by numpy: empty reduction, negative [num] *)
| IndexError     (* raised by [seq[i]] when [i] is out of range      *)
| LibraryError.  (* anything a collaborator outside this code raises *)

Inductive result (A : Type) : Type :=
| Ok (a : A)
| Raise (e : exn).

Arguments Ok {A} a.
Arguments Raise {A} e.

Definition bind {A B : Type} (m : result A) (k : A -> result B) : result B :=
  match m with
  | Ok a => k a
  | Raise e => Raise e
  end.

Definition raises {A : Type} (m : result A) : Prop := exists e, m = Raise e.

(** [seq[i]] for a non-negative [i]. *)
Definition getitem {A : Type} (l : list A) (i : nat) : result A :=
  match nth_error l i with
  | Some a => Ok a
  | None => Raise IndexError
  end.

(** [tuple(f(i) for i in items)]: elements are produced left to right and
    the first exception ends the construction. *)
Fixpoint for_each {A B : Type} (f : A -> result B) (items : list A) : result (list B) :=
  match items with
  | [] => Ok []
  | i :: rest =>
      bind (f i) (fun b => bind (for_each f rest) (fun bs => Ok (b :: bs)))
  end.

(** [range(n)] *)
Definition range (n : nat) : list nat := seq 0 n.

End Py.

Import Py.

Notation "x <- m ;; k" := (bind m (fun x => k))
  (at level 61, m at next level, right associativity).

(* ================================================================== *)
(** ** Numbers                                                          *)
(* ================================================================== *)

(** What the code asks of a Python/numpy number. *)
Class Number (T : Type) : Type := {
  of_int : Z -> T;          (* int -> float conversion           *)
  add : T -> T -> T;
  sub : T -> T -> T;
  mul : T -> T -> T;
  div : T -> T -> T;
  eqb : T -> T -> bool;     (* ==                                *)
  leb : T -> T -> bool;     (* <=                                *)
  isnan : T -> bool         (* numpy.isnan                       *)
}.

(** Exact rationals: no rounding, no overflow and no NaN.  An
    idealisation: the code computes in the dtype of its arrays, so what is
    said of the code is said on [Binary64] or on every carrier. *)
#[export] Instance Exact : Number Q := {
  of_int := inject_Z;
  add := Qplus;
  sub := Qminus;
  mul := Qmult;
  div := Qdiv;
  eqb := Qeq_bool;
  leb := Qle_bool;
  isnan := fun _ => false
}.

(** [float(z)] for a Python int within 63 bits. *)
Definition float_of_int (z : Z) : float :=
  match z with
  | Z0 => PrimFloat.zero
  | Zpos _ => PrimFloat.of_uint63 (Uint63.of_Z z)
  | Zneg p => PrimFloat.opp (PrimFloat.of_uint63 (Uint63.of_Z (Zpos p)))
  end.

(** IEEE-754 binary64. *)
#[export] Instance Binary64 : Number float := {
  of_int := float_of_int;
  add := PrimFloat.add;
  sub := PrimFloat.sub;
  mul := PrimFloat.mul;
  div := PrimFloat.div;
  eqb := PrimFloat.eqb;
  leb := PrimFloat.leb;
  isnan := PrimFloat.is_nan
}.

(* ================================================================== *)
(** ** numpy                                                            *)
(* ================================================================== *)

Section Numpy.

Context {T : Type} `{Number T}.

(** [a < b], from the interface: [a <= b] and not [a == b]. *)
Definition strictly_below (a b : T) : bool := leb a b && negb (eqb a b).

(** One step of [vector.min()] and of [vector.max()]: the running value
    [a] is kept when it is NaN or strictly beyond the next element [b];
    otherwise [b] is taken.  So NaN propagates, and on a tie, which only
    [0.0] against [-0.0] can tell apart, the later element is kept. *)
Definition min_step (a b : T) : T :=
  if strictly_below a b || isnan a then a else b.

Definition max_step (a b : T) : T :=
  if strictly_below b a || isnan a then a else b.

(** [vector.min()] and [vector.max()]: a reduction from the first element;
    numpy raises [ValueError] on an empty array. *)
Definition ndarray_min (vector : list T) : result T :=
  match vector with
  | [] => Raise ValueError
  | x :: rest => Ok (fold_left min_step rest x)
  end.

Definition ndarray_max (vector : list T) : result T :=
  match vector with
  | [] => Raise ValueError
  | x :: rest => Ok (fold_left max_step rest x)
  end.

(** [numpy.maximum(a, b)], element by element: [a] is kept when [a >= b]
    or when it is NaN. *)
Definition maximum (a b : T) : T := if leb b a || isnan a then a else b.

(** [array.clip(min=m)] is [numpy.maximum(array, m)], element by element. *)
Definition clip (m : T) (array : list T) : list T :=
  map (fun x => maximum x m) array.

(** [numpy.arange(0, num)] *)
Definition arange (num : Z) : list Z := map Z.of_nat (seq 0 (Z.to_nat num)).

(** [y[-1] = stop] on a non-empty array. *)
Definition set_last (y : list T) (stop : T) : list T := removelast y ++ [stop].

(** [numpy.linspace(start, stop, num=num)], [endpoint=True]:
<<
    if num < 0: raise ValueError
    div = num - 1
    y = arange(0, num); delta = stop - start
    if div > 0:
        step = delta / div
        if step == 0: y = (y / div) * delta
        else:         y = y * step
    else:
        y = y * delta
    y += start
    if num > 1: y[-1] = stop
>> *)
Definition linspace (start stop : T) (num : Z) : result (list T) :=
  if (num <? 0)%Z then Raise ValueError
  else
    let div_ := (num - 1)%Z in
    let y := map of_int (arange num) in
    let delta := sub stop start in
    let y :=
      if (0 <? div_)%Z then
        let step := div delta (of_int div_) in
        if eqb step (of_int 0)
        then map (fun v => mul (div v (of_int div_)) delta) y
        else map (fun v => mul v step) y
      else map (fun v => mul v delta) y in
    let y := map (fun v => add v start) y in
    Ok (if (1 <? num)%Z then set_last y stop else y).

End Numpy.

(* ================================================================== *)
(** ** kraft.make_vector_grid                                           *)
(* ================================================================== *)

Section MakeVectorGrid.

Context {T : Type} `{Number T}.

(** An optional bound: the caller's override, else the reduction [f] of
    the vector ([if grid_min is None: grid_min = vector.min()]). *)
Definition or_else (override : option T) (f : list T -> result T)
  (vector : list T) : result T :=
  match override with
  | Some v => Ok v
  | None => f vector
  end.

Definition make_vector_grid (vector : list T) (grid_min grid_max : option T)
  (fraction_grid_extension : T) (n_grid : Z) : result (list T) :=
  grid_min <- or_else grid_min ndarray_min vector ;;
  grid_max <- or_else grid_max ndarray_max vector ;;
  let grid_range := sub grid_max grid_min in
  let grid_extension := mul grid_range fraction_grid_extension in
  linspace (sub grid_min grid_extension) (add grid_max grid_extension) n_grid.

End MakeVectorGrid.

(* ================================================================== *)
(** ** Sample Matrix and Mesh Assembler                                 *)
(* ================================================================== *)

(** A 2-D numpy array: [shape[1]] is kept beside the rows, so that an
    array with no row still has a column count. *)
Record ndarray2 (T : Type) : Type := {
  n_col : nat;
  rows : list (list T)
}.

Definition n_row {T : Type} (a : ndarray2 T) : nat := length (rows a).

Definition well_shaped {T : Type} (a : ndarray2 T) : Prop :=
  Forall (fun r => length r = n_col a) (rows a).

(** [a[:, i]] *)
Definition column {T : Type} (i : nat) (a : ndarray2 T) : list T :=
  flat_map (fun r => match nth_error r i with Some x => [x] | None => [] end)
           (rows a).

(** Modelled from the spec: [make_mesh_grid_point_x_dimension], the Mesh
    Assembler, whose file is not among the sources.  The spec asks for the
    full Cartesian product of the Dimension Grids as a flat sequence of
    d-tuples in a fixed order; the order taken here is the row-major one
    (the first dimension varies slowest). *)
Fixpoint make_mesh_grid_point_x_dimension {A : Type}
  (dimension_grids : list (list A)) : list (list A) :=
  match dimension_grids with
  | [] => [[]]
  | grid :: rest =>
      flat_map (fun x => map (cons x) (make_mesh_grid_point_x_dimension rest))
               grid
  end.

(* ================================================================== *)
(** ** kraft.estimate_element_x_dimension_kernel_density                *)
(* ================================================================== *)

(** [if x is None: x = (default,) * n_dimension] *)
Definition or_tuple_of {A : Type} (supplied : option (list A)) (default : A)
  (n_dimension : nat) : list A :=
  match supplied with
  | None => repeat default n_dimension
  | Some l => l
  end.

Section Estimate.

Context {T : Type} `{Number T}.

(** Constants and collaborators imported by the module; none of them is
    defined in the files at hand, so they are parameters of the model. *)
Variable ALMOST_ZERO : T.
Variable DIMENSION_FRACTION_GRID_EXTENSION : T.
Variable DIMENSION_N_GRID : Z.
Variable compute_vector_bandwidth : list T -> result T.
(** [FFTKDE(bw=bw).fit(x).evaluate(grid_points)] *)
Variable FFTKDE : list T -> ndarray2 T -> list (list T) -> result (list T).
Variable plot_mesh_grid : list (list T) -> list T -> result unit.

(** The arguments follow the source, [dimension_names] apart: it is only
    handed to [plot_mesh_grid], whose effect is outside the model and whose
    only trace here is that it may raise. *)
Definition estimate_element_x_dimension_kernel_density
  (element_x_dimension : ndarray2 T)
  (dimension_bandwidths : option (list T))
  (dimension_bandwidth_factors : option (list T))
  (dimension_grid_mins : option (list (option T)))
  (dimension_grid_maxs : option (list (option T)))
  (dimension_fraction_grid_extensions : option (list T))
  (dimension_n_grids : option (list Z))
  (plot : bool)
  : result (list (list T) * list T) :=
  let n_dimension := n_col element_x_dimension in
  dimension_bandwidths <-
    match dimension_bandwidths with
    | None =>
        for_each
          (fun i => compute_vector_bandwidth (column i element_x_dimension))
          (range n_dimension)
    | Some bandwidths => Ok bandwidths
    end ;;
  dimension_bandwidths <-
    match dimension_bandwidth_factors with
    | Some factors =>
        for_each
          (fun i =>
             b <- getitem dimension_bandwidths i ;;
             f <- getitem factors i ;;
             Ok (mul b f))
          (range n_dimension)
    | None => Ok dimension_bandwidths
    end ;;
  let dimension_grid_mins :=
    or_tuple_of dimension_grid_mins None n_dimension in
  let dimension_grid_maxs :=
    or_tuple_of dimension_grid_maxs None n_dimension in
  let dimension_fraction_grid_extensions :=
    or_tuple_of dimension_fraction_grid_extensions
                DIMENSION_FRACTION_GRID_EXTENSION n_dimension in
  let dimension_n_grids :=
    or_tuple_of dimension_n_grids DIMENSION_N_GRID n_dimension in
  dimension_grids <-
    for_each
      (fun i =>
         grid_min <- getitem dimension_grid_mins i ;;
         grid_max <- getitem dimension_grid_maxs i ;;
         fraction <- getitem dimension_fraction_grid_extensions i ;;
         n_grid <- getitem dimension_n_grids i ;;
         make_vector_grid (column i element_x_dimension)
                          grid_min grid_max fraction n_grid)
      (range n_dimension) ;;
  let mesh_grid_point_x_dimension :=
    make_mesh_grid_point_x_dimension dimension_grids in
  raw <- FFTKDE dimension_bandwidths element_x_dimension
                mesh_grid_point_x_dimension ;;
  let mesh_grid_point_kernel_density := clip ALMOST_ZERO raw in
  _ <- (if plot
        then plot_mesh_grid mesh_grid_point_x_dimension
                            mesh_grid_point_kernel_density
        else Ok tt) ;;
  Ok (mesh_grid_point_x_dimension, mesh_grid_point_kernel_density).

(** The two loops of the estimator on their own, for the statements:
    the bandwidths handed to the kernel evaluator (lines 26-38) and the
    Dimension Grids (the generator of lines 59-68). *)
Definition resolved_bandwidths (element_x_dimension : ndarray2 T)
  (dimension_bandwidths dimension_bandwidth_factors : option (list T))
  : result (list T) :=
  let n_dimension := n_col element_x_dimension in
  dimension_bandwidths <-
    match dimension_bandwidths with
    | None =>
        for_each
          (fun i => compute_vector_bandwidth (column i element_x_dimension))
          (range n_dimension)
    | Some bandwidths => Ok bandwidths
    end ;;
  match dimension_bandwidth_factors with
  | Some factors =>
      for_each
        (fun i =>
           b <- getitem dimension_bandwidths i ;;
           f <- getitem factors i ;;
           Ok (mul b f))
        (range n_dimension)
  | None => Ok dimension_bandwidths
  end.

Definition dimension_grid (element_x_dimension : ndarray2 T)
  (dimension_grid_mins dimension_grid_maxs : list (option T))
  (dimension_fraction_grid_extensions : list T) (dimension_n_grids : list Z)
  (i : nat) : result (list T) :=
  grid_min <- getitem dimension_grid_mins i ;;
  grid_max <- getitem dimension_grid_maxs i ;;
  fraction <- getitem dimension_fraction_grid_extensions i ;;
  n_grid <- getitem dimension_n_grids i ;;
  make_vector_grid (column i element_x_dimension)
                   grid_min grid_max fraction n_grid.

Definition resolved_grids (element_x_dimension : ndarray2 T)
  (dimension_grid_mins dimension_grid_maxs : option (list (option T)))
  (dimension_fraction_grid_extensions : option (list T))
  (dimension_n_grids : option (list Z)) : result (list (list T)) :=
  let n_dimension := n_col element_x_dimension in
  for_each
    (dimension_grid element_x_dimension
       (or_tuple_of dimension_grid_mins None n_dimension)
       (or_tuple_of dimension_grid_maxs None n_dimension)
       (or_tuple_of dimension_fraction_grid_extensions
                    DIMENSION_FRACTION_GRID_EXTENSION n_dimension)
       (or_tuple_of dimension_n_grids DIMENSION_N_GRID n_dimension))
    (range n_dimension).

End Estimate.

(* ================================================================== *)
(** ** kwat.dataframe.drop_until                                        *)
(* ================================================================== *)

Section DropUntil.

Variable dataframe : Type.
Variable shape : dataframe -> nat * nat.
(** [drop(da, ax, **ke)], the keyword arguments being the same at every
    call; its file is not among the sources. *)
Variable drop : dataframe -> Z -> dataframe.

Definition shape_eqb (sh1 sh2 : nat * nat) : bool :=
  Nat.eqb (fst sh1) (fst sh2) && Nat.eqb (snd sh1) (snd sh2).

(** [if ax == 0: ax = 1  elif ax == 1: ax = 0] *)
Definition flip_axis (ax : Z) : Z :=
  if (ax =? 0)%Z then 1%Z else if (ax =? 1)%Z then 0%Z else ax.

(** The [while True] loop; [fuel] bounds the number of iterations, each
    of which calls [drop] once. *)
Fixpoint drop_until_loop (fuel : nat) (da : dataframe) (sh1 : nat * nat)
  (ax : Z) (re : bool) : option dataframe :=
  match fuel with
  | O => None
  | S fuel' =>
      let da := drop da ax in
      let sh2 := shape da in
      if re && shape_eqb sh1 sh2 then Some da
      else drop_until_loop fuel' da sh2 (flip_axis ax) true
  end.

(** [if ax is None: ax = int(sh1[0] < sh1[1])] *)
Definition first_axis (sh1 : nat * nat) (ax : option Z) : Z :=
  match ax with
  | None => if Nat.ltb (fst sh1) (snd sh1) then 1%Z else 0%Z
  | Some ax => ax
  end.

Definition drop_until (fuel : nat) (da : dataframe) (ax : option Z)
  : option dataframe :=
  let sh1 := shape da in
  let ax := first_axis sh1 ax in
  drop_until_loop fuel da sh1 ax false.

(** The dataframe and the axis after [k] calls of [drop], when nothing
    stops the loop. *)
Fixpoint after_drops (k : nat) (da : dataframe) (ax : Z) : dataframe * Z :=
  match k with
  | O => (da, ax)
  | S k' => after_drops k' (drop da ax) (flip_axis ax)
  end.

Definition frame_after (k : nat) (da : dataframe) (ax : option Z) : dataframe :=
  fst (after_drops k da (first_axis (shape da) ax)).

End DropUntil.

(* ================================================================== *)
(** ** Reference values used by the statements                          *)
(* ================================================================== *)

(** The [i]-th of [num] evenly spaced samples of [[start, stop]]:
    [start + i * (stop - start) / (num - 1)]. *)
Definition sample (start stop : Q) (num : Z) (i : nat) : Q :=
  (start + inject_Z (Z.of_nat i) * ((stop - start) / inject_Z (num - 1)))%Q.

(** The [i]-th entry [linspace] computes before it overwrites the last
    one, on the exact carrier. *)
Definition entry (start stop : Q) (num : Z) (i : nat) : Q :=
  (let v := inject_Z (Z.of_nat i) in
   let delta := stop - start in
   (if (0 <? num - 1)%Z then
      let step := delta / inject_Z (num - 1) in
      if Qeq_bool step (inject_Z 0) then (v / inject_Z (num - 1)) * delta
      else v * step
    else v * delta) + start)%Q.

(** The [i]-th value [linspace] computes before it overwrites the last
    one, on any carrier: [i * step + start] with the one
    [step = (stop - start) / (num - 1)], each operation being the
    carrier's ([(i / (num - 1)) * (stop - start) + start] when the step
    compares equal to zero, [i * (stop - start) + start] when
    [num - 1] is not positive). *)
Definition linspace_point {T : Type} `{Number T} (start stop : T) (num : Z)
  (i : nat) : T :=
  let v := of_int (Z.of_nat i) in
  let div_ := (num - 1)%Z in
  let delta := sub stop start in
  add (if (0 <? div_)%Z then
         let step := div delta (of_int div_) in
         if eqb step (of_int 0) then mul (div v (of_int div_)) delta
         else mul v step
       else mul v delta)
      start.

(** A zero or a finite binary64 number: neither NaN nor an infinity. *)
Definition SF_is_finite (x : spec_float) : bool :=
  match x with
  | S754_zero _ | S754_finite _ _ _ => true
  | _ => false
  end.

(** Two binary64 numbers that are the same datum, or two zeros (which
    only their sign can tell apart). *)
Definition same_number (x c : float) : Prop :=
  Prim2SF x = Prim2SF c
  \/ exists s s', Prim2SF x = S754_zero s /\ Prim2SF c = S754_zero s'.

(** The number of points of a mesh over grids of the given lengths. *)
Definition product (sizes : list nat) : nat := fold_right Nat.mul 1%nat sizes.

(** How many index combinations of the grids spell out [point]: the
    product, over the dimensions, of the number of times the coordinate
    occurs in that dimension's grid (0 when the arities differ). *)
Fixpoint occurrences {A : Type} (dec : forall x y : A, {x = y} + {x <> y})
  (point : list A) (dimension_grids : list (list A)) : nat :=
  match point, dimension_grids with
  | [], [] => 1
  | x :: point', grid :: rest =>
      count_occ dec grid x * occurrences dec point' rest
  | _, _ => 0
  end.

(** A supplied per-dimension sequence that has fewer than [d] entries. *)
Definition shorter {A : Type} (d : nat) (supplied : option (list A)) : Prop :=
  match supplied with
  | Some l => (length l < d)%nat
  | None => False
  end.

(** A supplied per-dimension sequence cut after its first [d] entries. *)
Definition truncated {A : Type} (d : nat) (supplied : option (list A))
  : option (list A) :=
  option_map (firstn d) supplied.

(** Stand-ins for the collaborators, used to run the estimator. *)
Definition constant_bandwidth {T : Type} (b : T) : list T -> result T :=
  fun _ => Ok b.

Definition constant_kernel {T : Type} (v : T)
  : list T -> ndarray2 T -> list (list T) -> result (list T) :=
  fun _ _ mesh => Ok (map (fun _ => v) mesh).

Definition fixed_kernel {T : Type} (raw : list T)
  : list T -> ndarray2 T -> list (list T) -> result (list T) :=
  fun _ _ _ => Ok raw.

(** A kernel evaluator that answers with the bandwidths it was given;
    used to see what reaches it. *)
Definition echo_kernel {T : Type}
  : list T -> ndarray2 T -> list (list T) -> result (list T) :=
  fun bw _ _ => Ok bw.

(** A kernel evaluator that refuses its input. *)
Definition failing_kernel {T : Type} (e : exn)
  : list T -> ndarray2 T -> list (list T) -> result (list T) :=
  fun _ _ _ => Raise e.

Definition no_plot {T : Type} : list (list T) -> list T -> result unit :=
  fun _ _ => Ok tt.

(** [numpy.finfo(float).eps] *)
Definition float_eps : float := 0x1p-52%float.

(** The Python literal [0.1] as a binary64 number. *)
Definition float_tenth : float := (1 / 10)%float.

(** The binary64 number next above 1, [1 + 2^-52]. *)
Definition float_above_one : float := (1 + float_eps)%float.

(** A dataframe reduced to its shape, and a [drop] that removes the last
    row (axis 0) or the last column (any other axis) until three rows and
    two columns are left; used to run [drop_until]. *)
Definition shave (sh : nat * nat) (ax : Z) : nat * nat :=
  if (ax =? 0)%Z
  then (if Nat.ltb 3 (fst sh) then (Nat.pred (fst sh), snd sh) else sh)
  else (if Nat.ltb 2 (snd sh) then (fst sh, Nat.pred (snd sh)) else sh).



(* ================================================================== *)
(** ** ccal.support                                                     *)
(* ================================================================== *)

Section GetUniqueInOrder.

Context {A : Type}.
(** [x not in unique_in_order] compares with [==]. *)
Variable eq_dec : forall x y : A, {x = y} + {x <> y}.

(** The body of the [for] loop:
<<
    if x not in unique_in_order:
        unique_in_order.append(x)
>> *)
Definition append_if_new (unique_in_order : list A) (x : A) : list A :=
  if in_dec eq_dec x unique_in_order
  then unique_in_order
  else unique_in_order ++ [x].

Definition get_unique_in_order (iterable : list A) : list A :=
  fold_left append_if_new iterable [].

End GetUniqueInOrder.

Section DropNanColumns.

Context {T : Type} `{Number T}.

(** [~np.isnan(v)] *)
Definition not_nan (v : list T) : list bool := map (fun x => negb (isnan x)) v.

(** [not_nan_filter &= mask], in place: the mask must have the length of
    the filter, or length one (numpy then broadcasts it); numpy raises
    [ValueError] otherwise. *)
Definition iand (not_nan_filter mask : list bool) : result (list bool) :=
  if Nat.eqb (length mask) (length not_nan_filter)
  then Ok (map (fun p => fst p && snd p) (combine not_nan_filter mask))
  else
    match mask with
    | [m] => Ok (map (fun b => b && m) not_nan_filter)
    | _ => Raise ValueError
    end.

(** [v[mask]] for a boolean mask: the entries of [v] where the mask is
    [True].  numpy checks the length of the mask against the length of
    [v] only when the mask is not empty, and raises [IndexError] when they
    differ; an empty mask selects nothing from a vector of any length. *)
Definition boolean_index (v : list T) (mask : list bool) : result (list T) :=
  match mask with
  | [] => Ok []
  | _ :: _ =>
      if Nat.eqb (length v) (length mask)
      then Ok (map fst (filter snd (combine v mask)))
      else Raise IndexError
  end.

(** [for v in vectors: not_nan_filter &= ~np.isnan(v)] *)
Fixpoint filter_all (vectors : list (list T)) (not_nan_filter : list bool)
  : result (list bool) :=
  match vectors with
  | [] => Ok not_nan_filter
  | v :: rest =>
      not_nan_filter <- iand not_nan_filter (not_nan v) ;;
      filter_all rest not_nan_filter
  end.

Definition drop_nan_columns (vectors : list (list T)) : result (list (list T)) :=
  first <- getitem vectors 0 ;;
  let not_nan_filter := repeat true (length first) in
  not_nan_filter <- filter_all vectors not_nan_filter ;;
  for_each (fun v => boolean_index v not_nan_filter) vectors.

End DropNanColumns.


(* ################################################################## *)
(** * Properties                                                        *)
(* ################################################################## *)

(* ================================================================== *)
(** ** The error monad                                                  *)
(* ================================================================== *)

Lemma bind_ok {A B : Type} (m : result A) (k : A -> result B) (b : B) :
  bind m k = Ok b -> exists a, m = Ok a /\ k a = Ok b.
Proof. destruct m as [a|e]; simpl; [eauto | discriminate]. Qed.

Lemma bind_raises_l {A B : Type} (m : result A) (k : A -> result B) :
  raises m -> raises (bind m k).
Proof. intros [e ->]. now exists e. Qed.

Lemma bind_raises_r {A B : Type} (m : result A) (k : A -> result B) :
  (forall a, m = Ok a -> raises (k a)) -> raises (bind m k).
Proof.
  intro Hk. destruct m as [a|e]; simpl; [now apply Hk | now exists e].
Qed.

Lemma raises_not_ok {A : Type} (m : result A) (a : A) :
  raises m -> m <> Ok a.
Proof. intros [e ->]. discriminate. Qed.

Section Runtime.

Context {A B : Type}.

Lemma for_each_length (f : A -> result B) (items : list A) (out : list B) :
  for_each f items = Ok out -> length out = length items.
Proof.
  revert out; induction items as [|i rest IH]; simpl; intros out E.
  - now inversion E.
  - destruct (f i) as [b|e]; simpl in E; [|discriminate].
    destruct (for_each f rest) as [bs|e]; simpl in E; [|discriminate].
    inversion E; subst; simpl. now rewrite (IH bs eq_refl).
Qed.

Lemma for_each_ext (f g : A -> result B) (items : list A) :
  (forall i, In i items -> f i = g i) -> for_each f items = for_each g items.
Proof.
  induction items as [|i rest IH]; simpl; intro E; [reflexivity|].
  rewrite (E i) by now left. rewrite IH by (intros; apply E; now right).
  reflexivity.
Qed.

Lemma for_each_raises (f : A -> result B) (items : list A) (i : A) :
  In i items -> raises (f i) -> raises (for_each f items).
Proof.
  induction items as [|j rest IH]; cbn [for_each In]; intros Hin Hr;
    [contradiction|].
  destruct Hin as [->|Hin].
  - now apply bind_raises_l.
  - apply bind_raises_r; intros b _. apply bind_raises_l. now apply IH.
Qed.

Lemma for_each_ok (f : A -> result B) (items : list A) :
  (forall i, In i items -> exists b, f i = Ok b) ->
  exists out, for_each f items = Ok out.
Proof.
  induction items as [|i rest IH]; simpl; intro Hf; [now eexists|].
  destruct (Hf i) as [b Eb]; [now left|]. rewrite Eb; simpl.
  destruct IH as [bs Ebs]; [intros; apply Hf; now right|].
  rewrite Ebs; simpl. now eexists.
Qed.

Lemma for_each_nth (f : A -> result B) (items : list A) (out : list B)
  (k : nat) (i : A) :
  for_each f items = Ok out -> nth_error items k = Some i ->
  exists b, f i = Ok b /\ nth_error out k = Some b.
Proof.
  revert out k; induction items as [|j rest IH]; simpl; intros out k E Hk.
  - destruct k; discriminate.
  - destruct (f j) as [b|e] eqn:Ej; simpl in E; [|discriminate].
    destruct (for_each f rest) as [bs|e]; simpl in E; [|discriminate].
    inversion E; subst. destruct k as [|k]; simpl in *.
    + inversion Hk; subst. eauto.
    + now apply IH.
Qed.

End Runtime.

Lemma for_each_raise_source {A B : Type} (f : A -> result B)
  (items : list A) (e : exn) :
  for_each f items = Raise e -> exists i, In i items /\ f i = Raise e.
Proof.
  induction items as [|i rest IH]; simpl; intro E; [discriminate|].
  destruct (f i) as [b|e'] eqn:Ei; simpl in E.
  - destruct (for_each f rest) as [bs|e'']; simpl in E; [discriminate|].
    inversion E; subst. destruct (IH eq_refl) as (j & Hj & Ej).
    exists j. split; [now right | exact Ej].
  - inversion E; subst. exists i. split; [now left | exact Ei].
Qed.

Lemma getitem_ok {A : Type} (l : list A) (i : nat) :
  (i < length l)%nat -> exists a, getitem l i = Ok a /\ nth_error l i = Some a.
Proof.
  intro Hi. unfold getitem. destruct (nth_error l i) as [a|] eqn:E; [eauto|].
  apply nth_error_None in E. lia.
Qed.

Lemma getitem_raises {A : Type} (l : list A) (i : nat) :
  (length l <= i)%nat -> raises (getitem l i).
Proof.
  intro Hi. unfold getitem. apply nth_error_None in Hi. rewrite Hi.
  now exists IndexError.
Qed.

Lemma getitem_firstn {A : Type} (l : list A) (d i : nat) :
  (i < d)%nat -> getitem (firstn d l) i = getitem l i.
Proof.
  intro Hi. unfold getitem. rewrite nth_error_firstn.
  destruct (Nat.ltb_spec i d); [reflexivity | lia].
Qed.

Lemma getitem_repeat {A : Type} (a : A) (d i : nat) :
  (i < d)%nat -> getitem (repeat a d) i = Ok a.
Proof.
  intro Hi. unfold getitem. now rewrite nth_error_repeat.
Qed.

Lemma in_range (i n : nat) : In i (range n) <-> (i < n)%nat.
Proof. unfold range. rewrite in_seq. lia. Qed.

(* ================================================================== *)
(** ** The shape of a grid, on any carrier                              *)
(* ================================================================== *)

Section AnyCarrier.

Context {T : Type} `{Number T}.

(** On every carrier, rounding or not: [linspace] returns [num] samples
    and, with two samples or more, the last one is [stop] itself. *)
Lemma linspace_shape (start stop : T) (num : Z) (y : list T) (d : T) :
  linspace start stop num = Ok y ->
  (0 <= num)%Z /\ length y = Z.to_nat num
  /\ ((1 < num)%Z -> last y d = stop).
Proof.
  unfold linspace. destruct (Z.ltb_spec num 0) as [|Hn]; [discriminate|].
  intro E. inversion E as [Ey]. clear E. split; [exact Hn|].
  set (body := map (fun v => add v start) _).
  assert (L : length body = Z.to_nat num).
  { unfold body, arange.
    destruct (0 <? num - 1)%Z; [destruct (eqb _ _)|];
      now rewrite !length_map, length_seq. }
  destruct (Z.ltb_spec 1 num) as [H1|H1].
  - unfold set_last. split.
    + rewrite length_app, removelast_firstn_len, length_firstn, L. simpl. lia.
    + intros _. apply last_last.
  - split; [exact L | lia].
Qed.

Lemma linspace_returns (start stop : T) (num : Z) :
  (exists y, linspace start stop num = Ok y) <-> (0 <= num)%Z.
Proof.
  unfold linspace. destruct (Z.ltb_spec num 0) as [N|N]; split.
  - intros (y & E). discriminate.
  - lia.
  - intros _. exact N.
  - intros _. eauto.
Qed.

Lemma linspace_raises (start stop : T) (num : Z) (e : exn) :
  linspace start stop num = Raise e -> e = ValueError.
Proof.
  unfold linspace. destruct (num <? 0)%Z; intro E; now inversion E.
Qed.

Lemma make_vector_grid_shape (vector : list T) (grid_min grid_max : option T)
  (fraction : T) (n_grid : Z) (grid : list T) :
  make_vector_grid vector grid_min grid_max fraction n_grid = Ok grid ->
  (0 <= n_grid)%Z /\ length grid = Z.to_nat n_grid.
Proof.
  unfold make_vector_grid. intro E.
  apply bind_ok in E. destruct E as (lo & _ & E).
  apply bind_ok in E. destruct E as (hi & _ & E).
  destruct (linspace_shape _ _ _ lo E) as (Hn & L & _). now split.
Qed.

End AnyCarrier.

Section GridPoints.

Context {T : Type} `{Number T}.

Lemma nth_map_seq_any (h : nat -> T) (n i : nat) (d : T) :
  (i < n)%nat -> nth i (map h (seq 0 n)) d = h i.
Proof.
  intro Hi.
  rewrite (nth_indep _ d (h 0%nat)) by now rewrite length_map, length_seq.
  rewrite map_nth, seq_nth by assumption. reflexivity.
Qed.

(** [linspace] spelled out point by point. *)
Lemma linspace_points (start stop : T) (num : Z) :
  (0 <= num)%Z ->
  linspace start stop num
  = Ok (let y := map (linspace_point start stop num) (seq 0 (Z.to_nat num)) in
        if (1 <? num)%Z then set_last y stop else y).
Proof.
  intro Hn. unfold linspace.
  destruct (Z.ltb_spec num 0) as [Hneg|_]; [lia|].
  f_equal. cbv zeta.
  assert (E : map (fun v : T => add v start)
     (if (0 <? num - 1)%Z
      then
       if eqb (div (sub stop start) (of_int (num - 1))) (of_int 0)
       then
        map (fun v : T => mul (div v (of_int (num - 1))) (sub stop start))
          (map of_int (arange num))
       else
        map (fun v : T => mul v (div (sub stop start) (of_int (num - 1))))
          (map of_int (arange num))
      else map (fun v : T => mul v (sub stop start)) (map of_int (arange num)))
     = map (linspace_point start stop num) (seq 0 (Z.to_nat num))).
  { unfold linspace_point, arange.
    destruct (0 <? num - 1)%Z; [destruct (eqb _ _)|];
      rewrite !map_map; reflexivity. }
  now rewrite E.
Qed.

(** With two points or more: every point but the last is the computed
    [linspace_point], and the last one is [stop] itself. *)
Lemma linspace_two_or_more (start stop : T) (num : Z) :
  (2 <= num)%Z ->
  exists y,
    linspace start stop num = Ok y
    /\ length y = Z.to_nat num
    /\ (forall i d, (i < Z.to_nat num - 1)%nat ->
          nth i y d = linspace_point start stop num i)
    /\ (forall d, nth (Z.to_nat num - 1) y d = stop).
Proof.
  intro Hn. rewrite linspace_points by lia. cbv zeta.
  destruct (Z.ltb_spec 1 num) as [_|]; [|lia].
  destruct (Z.to_nat num) as [|m] eqn:Em; [lia|].
  assert (S : set_last (map (linspace_point start stop num) (seq 0 (S m))) stop
              = map (linspace_point start stop num) (seq 0 m) ++ [stop]).
  { unfold set_last. rewrite seq_S, map_app. simpl. now rewrite removelast_last. }
  rewrite S. eexists. split; [reflexivity|].
  replace (Datatypes.S m - 1)%nat with m by lia.
  split; [|split].
  - rewrite length_app, length_map, length_seq. simpl. lia.
  - intros i d Hi. rewrite app_nth1 by (rewrite length_map, length_seq; lia).
    now apply nth_map_seq_any.
  - intro d. rewrite app_nth2; rewrite length_map, length_seq; [|lia].
    now rewrite Nat.sub_diag.
Qed.

(** Once both bounds are resolved, the call is [linspace] between the two
    extended bounds. *)
Lemma make_vector_grid_resolved (vector : list T) (grid_min grid_max : option T)
  (fraction : T) (n_grid : Z) (lo hi : T) :
  or_else grid_min ndarray_min vector = Ok lo ->
  or_else grid_max ndarray_max vector = Ok hi ->
  make_vector_grid vector grid_min grid_max fraction n_grid
  = linspace (sub lo (mul (sub hi lo) fraction))
             (add hi (mul (sub hi lo) fraction)) n_grid.
Proof.
  intros Hlo Hhi. unfold make_vector_grid. rewrite Hlo, Hhi. reflexivity.
Qed.

(** Whatever makes the Grid Builder fail, the exception is a
    [ValueError]. *)
Lemma make_vector_grid_raises (vector : list T) (grid_min grid_max : option T)
  (fraction : T) (n_grid : Z) (e : exn) :
  make_vector_grid vector grid_min grid_max fraction n_grid = Raise e ->
  e = ValueError.
Proof.
  unfold make_vector_grid, linspace.
  destruct grid_min as [a|], grid_max as [b|], vector as [|x rest];
    cbn [or_else ndarray_min ndarray_max bind];
    try (intro E; now inversion E);
    destruct (n_grid <? 0)%Z; intro E; now inversion E.
Qed.

(** C5 (as amended).  On every carrier, binary64 included: a returned
    Dimension Grid has exactly [n_grid] points.  With two points or more
    the last one is the upper end [stop = hi + extension], and every other
    point is [i * step + start] as the carrier computes it, for the one
    value [step = (stop - start) / (n_grid - 1)] and
    [start = lo - extension] (when the computed step compares equal to
    zero, numpy takes [(i / (n_grid - 1)) * (stop - start) + start]
    instead).  So the points follow one step, and their spacing is that
    step up to the rounding of the carrier. *)
Theorem make_vector_grid_points_follow_one_step
  (vector : list T) (grid_min grid_max : option T) (fraction : T)
  (n_grid : Z) (lo hi : T) (grid : list T) (default : T) :
  or_else grid_min ndarray_min vector = Ok lo ->
  or_else grid_max ndarray_max vector = Ok hi ->
  make_vector_grid vector grid_min grid_max fraction n_grid = Ok grid ->
  let extension := mul (sub hi lo) fraction in
  let start := sub lo extension in
  let stop := add hi extension in
  let step := div (sub stop start) (of_int (n_grid - 1)) in
  (0 <= n_grid)%Z
  /\ length grid = Z.to_nat n_grid
  /\ ((2 <= n_grid)%Z ->
      nth (Z.to_nat n_grid - 1) grid default = stop
      /\ forall i, (i < Z.to_nat n_grid - 1)%nat ->
           nth i grid default
           = if eqb step (of_int 0)
             then add (mul (div (of_int (Z.of_nat i)) (of_int (n_grid - 1)))
                           (sub stop start))
                      start
             else add (mul (of_int (Z.of_nat i)) step) start).
Proof.
  intros Elo Ehi E extension start stop step.
  destruct (make_vector_grid_shape _ _ _ _ _ E) as [Hn L].
  split; [exact Hn|]. split; [exact L|]. intro H2.
  rewrite (@make_vector_grid_resolved vector grid_min grid_max fraction n_grid
             lo hi Elo Ehi) in E.
  fold extension in E. fold start in E. fold stop in E.
  destruct (linspace_two_or_more start stop H2) as (y & Ey & _ & Hp & Hlast).
  assert (y = grid) by congruence. subst y.
  split; [apply Hlast|]. intros i Hi. rewrite (Hp i default Hi).
  unfold linspace_point. fold step.
  destruct (Z.ltb_spec 0 (n_grid - 1)); [|lia].
  now destruct (eqb step (of_int 0)).
Qed.

End GridPoints.

(** The spec's run on binary64: five points, the first four being
    [i * 3 + -1]. *)
Lemma make_vector_grid_points_follow_one_step_witness :
  length [-1; 2; 5; 8; 11]%float = 5%nat
  /\ nth 4 [-1; 2; 5; 8; 11]%float nan = 11%float
  /\ forall i, (i < 4)%nat ->
       nth i [-1; 2; 5; 8; 11]%float nan
       = (of_int (Z.of_nat i) * 3 + -1)%float.
Proof.
  destruct (@make_vector_grid_points_follow_one_step float Binary64
              [0; 3; 10]%float None None float_tenth 5 0%float 10%float
              [-1; 2; 5; 8; 11]%float nan
              eq_refl eq_refl ltac:(vm_compute; reflexivity))
    as (_ & L & H).
  destruct (H ltac:(lia)) as (Hlast & Hi).
  split; [exact L|]. split; [exact Hlast|].
  intros i Hlt. exact (Hi i ltac:(simpl; lia)).
Defined.

(* ================================================================== *)
(** ** numpy.linspace in exact arithmetic                               *)
(* ================================================================== *)

Section ExactLinspace.

Local Open Scope Q_scope.

Lemma inject_Z_nonzero (z : Z) : z <> 0%Z -> ~ inject_Z z == 0.
Proof. intros Hz E. unfold Qeq in E. simpl in E. lia. Qed.

Lemma nth_map_seq (h : nat -> Q) (n i : nat) (d : Q) :
  (i < n)%nat -> nth i (map h (seq 0 n)) d = h i.
Proof.
  intro Hi.
  rewrite (nth_indep _ d (h 0%nat)) by now rewrite length_map, length_seq.
  rewrite map_nth, seq_nth by assumption. reflexivity.
Qed.

Lemma set_last_map_seq (h : nat -> Q) (m : nat) (stop : Q) :
  set_last (map h (seq 0 (S m))) stop = map h (seq 0 m) ++ [stop].
Proof.
  unfold set_last. rewrite seq_S, map_app. simpl.
  now rewrite removelast_last.
Qed.

Lemma linspace_entries (start stop : Q) (num : Z) :
  (0 <= num)%Z ->
  linspace start stop num
  = Ok (let y := map (entry start stop num) (seq 0 (Z.to_nat num)) in
        if (1 <? num)%Z then set_last y stop else y).
Proof.
  intro Hn. unfold linspace.
  destruct (Z.ltb_spec num 0) as [Hneg|_]; [lia|].
  f_equal. cbv zeta.
  assert (E : map (fun v : Q => add v start)
     (if (0 <? num - 1)%Z
      then
       if eqb (div (sub stop start) (of_int (num - 1))) (of_int 0)
       then
        map (fun v : Q => mul (div v (of_int (num - 1))) (sub stop start))
          (map of_int (arange num))
       else
        map (fun v : Q => mul v (div (sub stop start) (of_int (num - 1))))
          (map of_int (arange num))
      else map (fun v : Q => mul v (sub stop start)) (map of_int (arange num)))
     = map (entry start stop num) (seq 0 (Z.to_nat num))).
  { unfold entry, arange. cbn [add sub mul div eqb of_int Exact].
    destruct (0 <? num - 1)%Z; [destruct (Qeq_bool _ _)|];
      rewrite !map_map; reflexivity. }
  now rewrite E.
Qed.

Lemma entry_sample (start stop : Q) (num : Z) (i : nat) :
  (2 <= num)%Z -> entry start stop num i == sample start stop num i.
Proof.
  intro Hn. unfold entry, sample.
  destruct (Z.ltb_spec 0 (num - 1)) as [_|]; [|exfalso; lia].
  pose proof (@inject_Z_nonzero (num - 1)%Z) as Hd.
  cbv zeta. destruct (Qeq_bool _ _); field; apply Hd; lia.
Qed.

Lemma stop_sample (start stop : Q) (num : Z) :
  (2 <= num)%Z -> stop == sample start stop num (Z.to_nat (num - 1)).
Proof.
  intro Hn. unfold sample. rewrite Z2Nat.id by lia.
  field. apply inject_Z_nonzero. lia.
Qed.

(** With two points or more: [num] samples, the [i]-th of which is
    [start + i * (stop - start) / (num - 1)]. *)
Lemma linspace_exact (start stop : Q) (num : Z) :
  (2 <= num)%Z ->
  exists y, linspace start stop num = Ok y
    /\ length y = Z.to_nat num
    /\ forall i, (i < Z.to_nat num)%nat -> nth i y 0 == sample start stop num i.
Proof.
  intro Hn. rewrite linspace_entries by lia. cbv zeta.
  destruct (Z.ltb_spec 1 num) as [_|]; [|lia].
  destruct (Z.to_nat num) as [|m] eqn:Em; [lia|].
  rewrite set_last_map_seq.
  eexists; split; [reflexivity|]. split.
  - rewrite length_app, length_map, length_seq. simpl. lia.
  - intros i Hi. destruct (Nat.eq_dec i m) as [->|Hne].
    + rewrite app_nth2; rewrite length_map, length_seq; [|lia].
      rewrite Nat.sub_diag. simpl.
      replace m with (Z.to_nat (num - 1)) by lia. now apply stop_sample.
    + rewrite app_nth1 by (rewrite length_map, length_seq; lia).
      rewrite nth_map_seq by lia. now apply entry_sample.
Qed.

(** With one point: the start alone. *)
Lemma linspace_single (start stop : Q) :
  exists p, linspace start stop 1 = Ok [p] /\ p == start.
Proof.
  rewrite linspace_entries by lia. simpl. eexists; split; [reflexivity|].
  unfold entry. simpl. ring.
Qed.

Lemma linspace_empty (start stop : Q) : linspace start stop 0 = Ok [].
Proof. reflexivity. Qed.

Lemma linspace_negative (start stop : Q) (num : Z) :
  (num < 0)%Z -> linspace start stop num = Raise ValueError.
Proof.
  intro Hn. unfold linspace. destruct (Z.ltb_spec num 0); [reflexivity|lia].
Qed.

(** Two samples differ by the number of steps between them. *)
Lemma sample_diff (start stop : Q) (num : Z) (i j : nat) :
  (2 <= num)%Z ->
  sample start stop num j - sample start stop num i
  == (inject_Z (Z.of_nat j) - inject_Z (Z.of_nat i))
     * ((stop - start) / inject_Z (num - 1)).
Proof.
  intro Hn. unfold sample. field. apply inject_Z_nonzero. lia.
Qed.

Lemma step_sign (delta : Q) (num : Z) :
  (2 <= num)%Z -> 0 < delta -> 0 < delta / inject_Z (num - 1).
Proof.
  intros Hn Hd. apply Qlt_shift_div_l.
  - change 0 with (inject_Z 0). rewrite <- Zlt_Qlt. lia.
  - now rewrite Qmult_0_l.
Qed.

Lemma index_gap (i j : nat) :
  (i < j)%nat -> 0 < inject_Z (Z.of_nat j) - inject_Z (Z.of_nat i).
Proof.
  intro Hij. assert (Hlt : inject_Z (Z.of_nat i) < inject_Z (Z.of_nat j)).
  { rewrite <- Zlt_Qlt. lia. }
  revert Hlt. generalize (inject_Z (Z.of_nat i)) (inject_Z (Z.of_nat j)).
  intros a b Hlt. lra.
Qed.

Lemma sample_increasing (start stop : Q) (num : Z) (i j : nat) :
  (2 <= num)%Z -> start < stop -> (i < j)%nat ->
  sample start stop num i < sample start stop num j.
Proof.
  intros Hn Hlt Hij.
  pose proof (sample_diff start stop i j Hn) as E.
  pose proof (@step_sign (stop - start) num Hn) as Hs.
  pose proof (index_gap Hij) as Hg.
  assert (P : 0 < (inject_Z (Z.of_nat j) - inject_Z (Z.of_nat i))
              * ((stop - start) / inject_Z (num - 1))).
  { apply Qmult_lt_0_compat; [assumption | apply Hs; lra]. }
  rewrite <- E in P. clear - P.
  revert P. generalize (sample start stop num i) (sample start stop num j).
  intros a b P. lra.
Qed.

Lemma sample_decreasing (start stop : Q) (num : Z) (i j : nat) :
  (2 <= num)%Z -> stop < start -> (i < j)%nat ->
  sample start stop num j < sample start stop num i.
Proof.
  intros Hn Hlt Hij.
  pose proof (sample_diff start stop i j Hn) as E.
  pose proof (@step_sign (start - stop) num Hn) as Hs.
  pose proof (index_gap Hij) as Hg.
  assert (P : 0 < (inject_Z (Z.of_nat j) - inject_Z (Z.of_nat i))
              * ((start - stop) / inject_Z (num - 1))).
  { apply Qmult_lt_0_compat; [assumption | apply Hs; lra]. }
  assert (F : (inject_Z (Z.of_nat j) - inject_Z (Z.of_nat i))
            * ((start - stop) / inject_Z (num - 1))
          == - ((inject_Z (Z.of_nat j) - inject_Z (Z.of_nat i))
                 * ((stop - start) / inject_Z (num - 1)))).
  { field. apply inject_Z_nonzero. lia. }
  rewrite F, <- E in P. clear - P.
  revert P. generalize (sample start stop num i) (sample start stop num j).
  intros a b P. lra.
Qed.

End ExactLinspace.

(* ================================================================== *)
(** ** kraft.make_vector_grid in exact arithmetic                       *)
(* ================================================================== *)

(** What the formulas of the Grid Builder denote when nothing is rounded:
    the lemmas of this section are about the rational carrier, where the
    grid is evenly spaced and ordered like its ends.  The binary64 grids
    the code returns follow the same formulas up to rounding; they are the
    subject of the sections on binary64 below. *)

Section ExactGrid.

Local Open Scope Q_scope.

Lemma Qle_bool_false (a b : Q) : Qle_bool a b = false -> b < a.
Proof.
  intro E. apply Qnot_le_lt. intro Hle.
  apply Qle_bool_iff in Hle. congruence.
Qed.

Lemma min_step_exact (a b : Q) :
  (min_step a b = a \/ min_step a b = b)
  /\ min_step a b <= a /\ min_step a b <= b.
Proof.
  unfold min_step, strictly_below. cbn [leb eqb isnan Exact].
  rewrite orb_false_r.
  destruct (Qle_bool a b) eqn:E; cbn [andb].
  - apply Qle_bool_iff in E. destruct (Qeq_bool a b) eqn:Q; cbn [negb].
    + apply Qeq_bool_iff in Q. repeat split; [now right | lra | lra].
    + repeat split; [now left | lra | lra].
  - apply Qle_bool_false in E. repeat split; [now right | lra | lra].
Qed.

Lemma max_step_exact (a b : Q) :
  (max_step a b = a \/ max_step a b = b)
  /\ a <= max_step a b /\ b <= max_step a b.
Proof.
  unfold max_step, strictly_below. cbn [leb eqb isnan Exact].
  rewrite orb_false_r.
  destruct (Qle_bool b a) eqn:E; cbn [andb].
  - apply Qle_bool_iff in E. destruct (Qeq_bool b a) eqn:Q; cbn [negb].
    + apply Qeq_bool_iff in Q. repeat split; [now right | lra | lra].
    + repeat split; [now left | lra | lra].
  - apply Qle_bool_false in E. repeat split; [now right | lra | lra].
Qed.

Lemma fold_min_step_exact (rest : list Q) (x : Q) :
  In (fold_left min_step rest x) (x :: rest)
  /\ forall y, In y (x :: rest) -> fold_left min_step rest x <= y.
Proof.
  revert x. induction rest as [|r rest IH]; intro x; simpl.
  - split; [now left|]. intros y [<-|[]]. lra.
  - destruct (IH (min_step x r)) as [Hin Hle].
    destruct (min_step_exact x r) as [Hc [Hx Hr]]. split.
    + destruct Hin as [E|Hin]; [|now right; right].
      rewrite <- E. destruct Hc as [->| ->]; [now left | now right; left].
    + intros y [<-|[<-|Hy]].
      * apply Qle_trans with (min_step x r); [apply Hle; now left | exact Hx].
      * apply Qle_trans with (min_step x r); [apply Hle; now left | exact Hr].
      * apply Hle. now right.
Qed.

Lemma fold_max_step_exact (rest : list Q) (x : Q) :
  In (fold_left max_step rest x) (x :: rest)
  /\ forall y, In y (x :: rest) -> y <= fold_left max_step rest x.
Proof.
  revert x. induction rest as [|r rest IH]; intro x; simpl.
  - split; [now left|]. intros y [<-|[]]. lra.
  - destruct (IH (max_step x r)) as [Hin Hle].
    destruct (max_step_exact x r) as [Hc [Hx Hr]]. split.
    + destruct Hin as [E|Hin]; [|now right; right].
      rewrite <- E. destruct Hc as [->| ->]; [now left | now right; left].
    + intros y [<-|[<-|Hy]].
      * apply Qle_trans with (max_step x r); [exact Hx | apply Hle; now left].
      * apply Qle_trans with (max_step x r); [exact Hr | apply Hle; now left].
      * apply Hle. now right.
Qed.

(** [vector.min()] is an element of the vector below all the others. *)
Lemma ndarray_min_exact (vector : list Q) (lo : Q) :
  ndarray_min vector = Ok lo ->
  In lo vector /\ forall x, In x vector -> lo <= x.
Proof.
  destruct vector as [|x rest]; simpl; intro E; [discriminate|].
  inversion E; subst. apply fold_min_step_exact.
Qed.

Lemma ndarray_max_exact (vector : list Q) (hi : Q) :
  ndarray_max vector = Ok hi ->
  In hi vector /\ forall x, In x vector -> x <= hi.
Proof.
  destruct vector as [|x rest]; simpl; intro E; [discriminate|].
  inversion E; subst. apply fold_max_step_exact.
Qed.

(** The call reduces to [linspace] between the two extended bounds. *)
Lemma make_vector_grid_linspace (vector : list Q) (grid_min grid_max : option Q)
  (fraction : Q) (n_grid : Z) (lo hi : Q) :
  or_else grid_min ndarray_min vector = Ok lo ->
  or_else grid_max ndarray_max vector = Ok hi ->
  make_vector_grid vector grid_min grid_max fraction n_grid
  = linspace (lo - (hi - lo) * fraction) (hi + (hi - lo) * fraction) n_grid.
Proof.
  intros Hlo Hhi. unfold make_vector_grid. rewrite Hlo, Hhi. reflexivity.
Qed.

Lemma span (lo hi fraction : Q) :
  (hi + (hi - lo) * fraction) - (lo - (hi - lo) * fraction)
  == (hi - lo) * (1 + 2 * fraction).
Proof. ring. Qed.


(** In exact arithmetic, with a resolved lower bound [lo] and upper
    bound [hi] (the caller's override, else the least and the greatest
    element of a non-empty vector) and a resolution of two points or more,
    [make_vector_grid] returns exactly [n_grid] points; the first one is
    [lo - extension], the last one [hi + extension], where
    [extension = (hi - lo) * fraction]; the [i]-th point is
    [start + i * (stop - start) / (n_grid - 1)], and any two neighbours
    are [(stop - start) / (n_grid - 1)] apart. *)
Lemma exact_grid_is_evenly_spaced
  (vector : list Q) (grid_min grid_max : option Q) (fraction : Q)
  (n_grid : Z) (lo hi : Q) :
  or_else grid_min ndarray_min vector = Ok lo ->
  or_else grid_max ndarray_max vector = Ok hi ->
  (2 <= n_grid)%Z ->
  let extension := (hi - lo) * fraction in
  let start := lo - extension in
  let stop := hi + extension in
  (match grid_min with
   | Some v => lo = v
   | None => In lo vector /\ forall x, In x vector -> lo <= x
   end)
  /\ (match grid_max with
      | Some v => hi = v
      | None => In hi vector /\ forall x, In x vector -> x <= hi
      end)
  /\ exists grid,
       make_vector_grid vector grid_min grid_max fraction n_grid = Ok grid
       /\ length grid = Z.to_nat n_grid
       /\ nth 0 grid 0 == start
       /\ nth (Z.to_nat n_grid - 1) grid 0 == stop
       /\ (forall i, (i < Z.to_nat n_grid)%nat ->
             nth i grid 0 == sample start stop n_grid i)
       /\ (forall i, (S i < Z.to_nat n_grid)%nat ->
             nth (S i) grid 0 - nth i grid 0
             == (stop - start) / inject_Z (n_grid - 1)).
Proof.
  intros Hlo Hhi Hn extension start stop. split; [|split].
  - destruct grid_min as [v|]; simpl in Hlo.
    + now inversion Hlo.
    + now apply ndarray_min_exact.
  - destruct grid_max as [v|]; simpl in Hhi.
    + now inversion Hhi.
    + now apply ndarray_max_exact.
  - rewrite (make_vector_grid_linspace _ _ _ _ _ Hlo Hhi).
    fold extension; fold start; fold stop.
    destruct (linspace_exact start stop Hn) as (grid & E & Hlen & Hnth).
    exists grid. split; [exact E|]. split; [exact Hlen|].
    split; [|split; [|split]].
    + rewrite Hnth by lia. unfold sample. simpl. ring.
    + rewrite Hnth by lia.
      replace (Z.to_nat n_grid - 1)%nat with (Z.to_nat (n_grid - 1)) by lia.
      symmetry. now apply stop_sample.
    + exact Hnth.
    + intros i Hi. rewrite !Hnth by lia.
      rewrite (sample_diff start stop i (S i) Hn).
      rewrite Nat2Z.inj_succ. unfold Z.succ. rewrite inject_Z_plus.
      field. apply inject_Z_nonzero. lia.
Qed.

(** In exact arithmetic, when the resolved lower bound is strictly below
    the upper bound, the fraction is above -1/2 and the resolution is two
    points or more, the grid has [n_grid] points, is strictly increasing,
    and neighbours are [((hi + ext) - (lo - ext)) / (n_grid - 1)] apart. *)
Lemma exact_grid_is_strictly_increasing
  (vector : list Q) (grid_min grid_max : option Q) (fraction : Q)
  (n_grid : Z) (lo hi : Q) :
  or_else grid_min ndarray_min vector = Ok lo ->
  or_else grid_max ndarray_max vector = Ok hi ->
  lo < hi ->
  - (1 # 2) < fraction ->
  (2 <= n_grid)%Z ->
  let extension := (hi - lo) * fraction in
  exists grid,
    make_vector_grid vector grid_min grid_max fraction n_grid = Ok grid
    /\ length grid = Z.to_nat n_grid
    /\ (forall i j, (i < j < Z.to_nat n_grid)%nat ->
          nth i grid 0 < nth j grid 0)
    /\ (forall i, (S i < Z.to_nat n_grid)%nat ->
          nth (S i) grid 0 - nth i grid 0
          == ((hi + extension) - (lo - extension)) / inject_Z (n_grid - 1))
    /\ 0 < ((hi + extension) - (lo - extension)) / inject_Z (n_grid - 1).
Proof.
  intros Hlo Hhi Hlt Hf Hn extension.
  rewrite (make_vector_grid_linspace _ _ _ _ _ Hlo Hhi). fold extension.
  set (start := lo - extension). set (stop := hi + extension).
  assert (Hspan : start < stop).
  { assert (P : 0 < (hi - lo) * (1 + 2 * fraction))
      by (apply Qmult_lt_0_compat; lra).
    rewrite <- span in P. fold extension in P. fold start in P; fold stop in P.
    lra. }
  destruct (linspace_exact start stop Hn) as (grid & E & Hlen & Hnth).
  exists grid. split; [exact E|]. split; [exact Hlen|].
  split; [|split].
  - intros i j Hij. rewrite !Hnth by lia. apply sample_increasing; [lia|exact Hspan|lia].
  - intros i Hi. rewrite !Hnth by lia.
    rewrite (sample_diff start stop i (S i) Hn).
    rewrite Nat2Z.inj_succ. unfold Z.succ. rewrite inject_Z_plus.
    field. apply inject_Z_nonzero. lia.
  - apply step_sign; [exact Hn | lra].
Qed.

(** In exact arithmetic, with overrides [grid_min > grid_max], a
    fraction above -1/2 and a resolution [n_grid >= 0], the call returns
    [n_grid] points that are strictly decreasing; the extension is negative
    for a positive fraction, and the grid runs from [grid_min - extension]
    down to [grid_max + extension]. *)
Lemma exact_grid_is_strictly_decreasing
  (vector : list Q) (grid_min grid_max fraction : Q) (n_grid : Z) :
  grid_max < grid_min ->
  - (1 # 2) < fraction ->
  (0 <= n_grid)%Z ->
  let extension := (grid_max - grid_min) * fraction in
  exists grid,
    make_vector_grid vector (Some grid_min) (Some grid_max) fraction n_grid
    = Ok grid
    /\ length grid = Z.to_nat n_grid
    /\ (0 < fraction -> extension < 0)
    /\ (forall i j, (i < j < Z.to_nat n_grid)%nat ->
          nth j grid 0 < nth i grid 0)
    /\ ((1 <= n_grid)%Z -> nth 0 grid 0 == grid_min - extension)
    /\ ((2 <= n_grid)%Z ->
          nth (Z.to_nat n_grid - 1) grid 0 == grid_max + extension).
Proof.
  intros Hlt Hf Hn extension.
  rewrite (@make_vector_grid_linspace vector (Some grid_min) (Some grid_max)
             fraction n_grid grid_min grid_max eq_refl eq_refl).
  fold extension.
  set (start := grid_min - extension). set (stop := grid_max + extension).
  assert (Hext : 0 < fraction -> extension < 0).
  { intro Hpos.
    assert (P : 0 < (grid_min - grid_max) * fraction)
      by (apply Qmult_lt_0_compat; lra).
    assert (F : extension == - ((grid_min - grid_max) * fraction))
      by (unfold extension; ring).
    rewrite F. lra. }
  assert (Hspan : stop < start).
  { assert (P : 0 < (grid_min - grid_max) * (1 + 2 * fraction))
      by (apply Qmult_lt_0_compat; lra).
    assert (F : start - stop == (grid_min - grid_max) * (1 + 2 * fraction))
      by (unfold start, stop, extension; ring).
    rewrite <- F in P. lra. }
  destruct (Z.eq_dec n_grid 0) as [->|Hn0];
    [|destruct (Z.eq_dec n_grid 1) as [->|Hn1]].
  - exists []. split; [apply linspace_empty|]. split; [reflexivity|].
    split; [exact Hext|]. split; [simpl; intros; lia|]. split; intro; lia.
  - destruct (linspace_single start stop) as (p & E & Hp).
    exists [p]. split; [exact E|]. split; [reflexivity|].
    split; [exact Hext|]. split; [simpl; intros; lia|].
    split; [intros _; exact Hp | intro; lia].
  - assert (Hn2 : (2 <= n_grid)%Z) by lia.
    destruct (linspace_exact start stop Hn2) as (grid & E & Hlen & Hnth).
    exists grid. split; [exact E|]. split; [exact Hlen|].
    split; [exact Hext|]. split; [|split].
    + intros i j Hij. rewrite !Hnth by lia.
      apply sample_decreasing; [lia|exact Hspan|lia].
    + intros _. rewrite Hnth by lia. unfold sample. simpl. ring.
    + intros _. rewrite Hnth by lia.
      replace (Z.to_nat n_grid - 1)%nat with (Z.to_nat (n_grid - 1)) by lia.
      symmetry. now apply stop_sample.
Qed.

(** In exact arithmetic, with [n_grid = 1] the grid is the single point
    [lo - extension]; when the range [hi - lo] is not zero and the
    fraction is not -1/2 (which makes the two extended bounds meet), that
    point is not the upper end [hi + extension]. *)
Lemma exact_grid_of_one_point
  (vector : list Q) (grid_min grid_max : option Q) (fraction lo hi : Q) :
  or_else grid_min ndarray_min vector = Ok lo ->
  or_else grid_max ndarray_max vector = Ok hi ->
  ~ hi - lo == 0 ->
  ~ fraction == - (1 # 2) ->
  let extension := (hi - lo) * fraction in
  exists p,
    make_vector_grid vector grid_min grid_max fraction 1 = Ok [p]
    /\ p == lo - extension
    /\ ~ p == hi + extension.
Proof.
  intros Hlo Hhi Hrange Hf extension.
  rewrite (make_vector_grid_linspace _ _ _ _ _ Hlo Hhi). fold extension.
  destruct (linspace_single (lo - extension) (hi + extension)) as (p & E & Hp).
  exists p. split; [exact E|]. split; [exact Hp|].
  intro Hq. rewrite Hp in Hq.
  assert (Z : (hi - lo) * (1 + 2 * fraction) == 0).
  { rewrite <- span. fold extension. rewrite <- Hq. ring. }
  apply Qmult_integral in Z. destruct Z as [Z|Z]; [now apply Hrange|].
  apply Hf. lra.
Qed.

(** The spec's run, value by value, on both carriers. *)
Example make_vector_grid_run_exact :
  exists grid,
    make_vector_grid (T:=Q) [0; 3; 10] None None (1 # 10) 5 = Ok grid
    /\ Forall2 Qeq grid [-1; 2; 5; 8; 11].
Proof.
  eexists. split; [reflexivity|].
  repeat constructor.
Qed.

Example make_vector_grid_run_binary64 :
  make_vector_grid (T:=float) [0; 3; 10]%float None None float_tenth 5
  = Ok [-1; 2; 5; 8; 11]%float.
Proof. vm_compute. reflexivity. Qed.

(** Rounding: on binary64 the gaps between neighbours of
    [linspace(0, 1, 11)] are not all the same number; equal spacing is a
    fact of exact arithmetic. *)
Example linspace_binary64_gaps_are_rounded :
  exists g0 g1 g2 g3 rest,
    linspace (T:=float) 0%float 1%float 11 = Ok (g0 :: g1 :: g2 :: g3 :: rest)
    /\ PrimFloat.eqb (g1 - g0)%float (g3 - g2)%float = false.
Proof.
  do 5 eexists. split; [vm_compute; reflexivity|]. vm_compute. reflexivity.
Qed.

End ExactGrid.

(* ================================================================== *)
(** ** Mesh Assembler                                                   *)
(* ================================================================== *)

Section Mesh.

Local Open Scope nat_scope.

Context {A : Type}.
Variable dec : forall x y : A, {x = y} + {x <> y}.

Let points_dec := list_eq_dec dec.

Lemma mesh_length (dimension_grids : list (list A)) :
  length (make_mesh_grid_point_x_dimension dimension_grids)
  = product (map (@length A) dimension_grids).
Proof.
  induction dimension_grids as [|grid rest IH]; [reflexivity|].
  cbn [make_mesh_grid_point_x_dimension map product fold_right].
  fold (product (map (@length A) rest)). rewrite <- IH.
  induction grid as [|x grid IHg]; [reflexivity|].
  cbn [flat_map length]. rewrite length_app, length_map, IHg. lia.
Qed.

Lemma mesh_in (dimension_grids : list (list A)) (point : list A) :
  In point (make_mesh_grid_point_x_dimension dimension_grids)
  <-> Forall2 (@In A) point dimension_grids.
Proof.
  revert point. induction dimension_grids as [|grid rest IH]; intro point.
  - simpl. split.
    + intros [<-|[]]. constructor.
    + intro F. inversion F. now left.
  - cbn [make_mesh_grid_point_x_dimension]. rewrite in_flat_map. split.
    + intros (x & Hx & Hp). apply in_map_iff in Hp.
      destruct Hp as (tail & <- & Ht). constructor; [exact Hx|].
      now apply IH.
    + intro F. inversion F as [|x g tail gs Hx Ht]; subst.
      exists x. split; [exact Hx|]. apply in_map. now apply IH.
Qed.

Lemma count_prefix_all (x : A) (mesh : list (list A)) (point : list A) :
  count_occ points_dec (map (cons x) mesh) point
  = match point with
    | [] => 0
    | y :: tail => if dec x y then count_occ points_dec mesh tail else 0
    end.
Proof.
  induction mesh as [|q mesh IH]; simpl.
  - destruct point as [|y tail]; [reflexivity | now destruct (dec x y)].
  - destruct (points_dec (x :: q) point) as [E|N].
    + subst point. rewrite IH.
      destruct (dec x x) as [Exx|N]; [|congruence].
      destruct (points_dec q q) as [Eqq|N]; [reflexivity|congruence].
    + rewrite IH. destruct point as [|y tail]; [reflexivity|].
      destruct (dec x y) as [->|Nxy]; [|reflexivity].
      destruct (points_dec q tail) as [->|Nq]; [congruence|reflexivity].
Qed.

Lemma mesh_count (dimension_grids : list (list A)) (point : list A) :
  count_occ points_dec (make_mesh_grid_point_x_dimension dimension_grids) point
  = occurrences dec point dimension_grids.
Proof.
  revert point. induction dimension_grids as [|grid rest IH]; intro point.
  - simpl. destruct point as [|y tail].
    + now destruct (points_dec [] []).
    + now destruct (points_dec [] (y :: tail)).
  - cbn [make_mesh_grid_point_x_dimension].
    induction grid as [|x grid IHg].
    + simpl. now destruct point.
    + cbn [flat_map]. rewrite count_occ_app, IHg, count_prefix_all.
      destruct point as [|y tail]; [reflexivity|].
      cbn [occurrences count_occ]. rewrite IH.
      destruct (dec x y) as [->|N]; lia.
Qed.

Lemma occurrences_at_most_once (dimension_grids : list (list A))
  (point : list A) :
  Forall (@NoDup A) dimension_grids ->
  occurrences dec point dimension_grids <= 1.
Proof.
  intro F. revert point. induction F as [|grid rest Hg _ IH]; intro point.
  - destruct point; simpl; lia.
  - destruct point as [|y tail]; simpl; [lia|].
    pose proof (proj1 (NoDup_count_occ dec grid) Hg y).
    pose proof (IH tail). nia.
Qed.

(** C3.  For one Dimension Grid or more, the Mesh Grid has as many points
    as the product of the grid lengths; its points are exactly the tuples
    that take their [k]-th coordinate from the [k]-th grid, each of arity
    [d]; a tuple occurs once per combination of grid positions that spells
    it (so exactly once when no grid repeats a value); and the enumeration
    is a function of the grids alone. *)
Theorem mesh_is_cartesian_product (dimension_grids : list (list A)) :
  dimension_grids <> [] ->
  let mesh := make_mesh_grid_point_x_dimension dimension_grids in
  length mesh = product (map (@length A) dimension_grids)
  /\ (forall point, In point mesh <-> Forall2 (@In A) point dimension_grids)
  /\ (forall point, In point mesh -> length point = length dimension_grids)
  /\ (forall point,
        count_occ (list_eq_dec dec) mesh point
        = occurrences dec point dimension_grids)
  /\ (Forall (@NoDup A) dimension_grids -> NoDup mesh)
  /\ (forall again,
        again = dimension_grids ->
        make_mesh_grid_point_x_dimension again = mesh).
Proof.
  intros _ mesh. subst mesh.
  split; [apply mesh_length|].
  split; [intro point; apply mesh_in|].
  split.
  { intros point Hin. apply mesh_in in Hin.
    induction Hin; simpl; congruence. }
  split; [intro point; apply mesh_count|].
  split.
  - intro F. apply (NoDup_count_occ (list_eq_dec dec)). intro point.
    fold points_dec. rewrite mesh_count. now apply occurrences_at_most_once.
  - now intros again ->.
Qed.

End Mesh.

(** The spec's run: grids of 3 and 4 values give 12 points, all of them
    different. *)
Lemma mesh_is_cartesian_product_witness :
  let mesh := make_mesh_grid_point_x_dimension
                [[1; 2; 3]; [10; 20; 30; 40]]%nat in
  length mesh = 12%nat /\ NoDup mesh /\ In [2; 30]%nat mesh.
Proof.
  destruct (@mesh_is_cartesian_product nat Nat.eq_dec
              [[1; 2; 3]; [10; 20; 30; 40]]%nat ltac:(discriminate))
    as (L & I & _ & _ & N & _).
  split; [exact L|]. split.
  - apply N.
    repeat (constructor; [repeat (constructor;
                                    [simpl; intuition discriminate|]);
                          constructor|]).
    constructor.
  - apply I.
    constructor; [simpl; tauto|]. constructor; [simpl; tauto|]. constructor.
Defined.

Example mesh_run :
  make_mesh_grid_point_x_dimension [[1; 2]; [10; 20; 30]]%nat
  = [[1; 10]; [1; 20]; [1; 30]; [2; 10]; [2; 20]; [2; 30]]%nat.
Proof. reflexivity. Qed.

(* ================================================================== *)
(** ** kwat.dataframe.drop_until                                        *)
(* ================================================================== *)

Section DropUntilFacts.

Local Open Scope nat_scope.

Variable dataframe : Type.
Variable shape : dataframe -> nat * nat.
Variable drop : dataframe -> Z -> dataframe.

(** What is assumed of [drop]: it never adds a row or a column. *)
Hypothesis drop_shrinks :
  forall da ax,
    fst (shape (drop da ax)) <= fst (shape da)
    /\ snd (shape (drop da ax)) <= snd (shape da).

Let size (da : dataframe) : nat := fst (shape da) + snd (shape da).

Lemma shape_eqb_eq (sh1 sh2 : nat * nat) :
  shape_eqb sh1 sh2 = true <-> sh1 = sh2.
Proof.
  unfold shape_eqb. destruct sh1 as [r1 c1], sh2 as [r2 c2]; simpl.
  rewrite andb_true_iff, !Nat.eqb_eq. split; [intros [-> ->] | intro E; inversion E]; auto.
Qed.

Lemma after_drops_succ (k : nat) (da : dataframe) (ax : Z) :
  after_drops drop (S k) da ax = after_drops drop k (drop da ax) (flip_axis ax).
Proof. reflexivity. Qed.

(** The loop once [re] is set: it stops at the first call that leaves the
    shape as it was, after [size da + 1] calls at most. *)
Lemma loop_stops (n : nat) :
  forall (da : dataframe) (ax : Z),
    size da <= n ->
    exists k,
      1 <= k <= n + 1
      /\ (forall fuel, k <= fuel ->
            drop_until_loop shape drop fuel da (shape da) ax true
            = Some (fst (after_drops drop k da ax)))
      /\ (forall fuel, fuel < k ->
            drop_until_loop shape drop fuel da (shape da) ax true = None)
      /\ shape (fst (after_drops drop k da ax))
         = shape (fst (after_drops drop (k - 1) da ax))
      /\ (forall j, 1 <= j < k ->
            shape (fst (after_drops drop j da ax))
            <> shape (fst (after_drops drop (j - 1) da ax))).
Proof.
  induction n as [|n IH]; intros da ax Hsize;
    destruct (shape_eqb (shape da) (shape (drop da ax))) eqn:E.
  1, 3: exists 1; apply shape_eqb_eq in E; split; [lia|];
    split; [intros [|fuel] Hf; [lia|]; simpl;
            rewrite (proj2 (shape_eqb_eq _ _) E); reflexivity|];
    split; [intros [|fuel] Hf; [reflexivity|lia]|];
    split; [simpl; congruence | intros j Hj; lia].
  - exfalso. assert (N : shape da <> shape (drop da ax)).
    { intro F. apply shape_eqb_eq in F. congruence. }
    apply N. destruct (drop_shrinks da ax) as [Hr Hc]. unfold size in Hsize.
    destruct (shape da) as [r c], (shape (drop da ax)) as [r' c'].
    simpl in *. f_equal; lia.
  - assert (N : shape da <> shape (drop da ax)).
    { intro F. apply shape_eqb_eq in F. congruence. }
    assert (Hless : size (drop da ax) <= n).
    { destruct (drop_shrinks da ax) as [Hr Hc]. unfold size in *.
      destruct (shape da) as [r c], (shape (drop da ax)) as [r' c'].
      simpl in *.
      destruct (Nat.eq_dec r r') as [->|]; [|lia].
      destruct (Nat.eq_dec c c') as [->|]; [congruence|lia]. }
    destruct (IH (drop da ax) (flip_axis ax) Hless)
      as (k & Hk & Hsome & Hnone & Hstop & Hfirst).
    exists (S k). split; [lia|]. split; [|split; [|split]].
    + intros [|fuel] Hf; [lia|]. simpl. rewrite E. simpl.
      apply Hsome. lia.
    + intros [|fuel] Hf; [reflexivity|]. simpl. rewrite E. simpl.
      apply Hnone. lia.
    + rewrite after_drops_succ, Hstop.
      replace (S k - 1) with (S (k - 1)) by lia. reflexivity.
    + intros j Hj. destruct (Nat.eq_dec j 1) as [->|Hj1].
      * simpl. congruence.
      * replace j with (S (j - 1)) at 1 by lia.
        replace (j - 1) with (S (j - 1 - 1)) at 2 by lia.
        rewrite !after_drops_succ.
        replace (j - 1 - 1) with ((j - 1) - 1) by lia.
        apply Hfirst. lia.
Qed.

(** C10.  When [drop] never adds a row or a column, [drop_until] returns
    for every dataframe and axis: there is a number [k >= 2] of [drop]
    calls (at most rows + columns + 2) such that the loop, given room for
    [k] iterations or more, returns the dataframe after [k] calls, and has
    not returned before the [k]-th; the [k]-th call left the shape
    unchanged, and no call from the second to the [(k-1)]-th did. *)
Theorem drop_until_terminates (da : dataframe) (ax : option Z) :
  exists k,
    2 <= k <= fst (shape da) + snd (shape da) + 2
    /\ (forall fuel, k <= fuel ->
          drop_until shape drop fuel da ax
          = Some (frame_after shape drop k da ax))
    /\ (forall fuel, fuel < k -> drop_until shape drop fuel da ax = None)
    /\ shape (frame_after shape drop k da ax)
       = shape (frame_after shape drop (k - 1) da ax)
    /\ (forall j, 2 <= j < k ->
          shape (frame_after shape drop j da ax)
          <> shape (frame_after shape drop (j - 1) da ax)).
Proof.
  unfold drop_until, frame_after.
  set (ax0 := first_axis (shape da) ax).
  assert (Hless : size (drop da ax0) <= size da).
  { destruct (drop_shrinks da ax0). unfold size. lia. }
  destruct (loop_stops (drop da ax0) (flip_axis ax0) Hless)
    as (k & Hk & Hsome & Hnone & Hstop & Hfirst).
  exists (S k). fold (size da). split; [lia|]. split; [|split; [|split]].
  - intros [|fuel] Hf; [lia|]. simpl. apply Hsome. lia.
  - intros [|fuel] Hf; [reflexivity|]. simpl. apply Hnone. lia.
  - rewrite after_drops_succ, Hstop.
    replace (S k - 1) with (S (k - 1)) by lia. reflexivity.
  - intros j Hj.
    replace j with (S (j - 1)) at 1 by lia.
    replace (j - 1) with (S (j - 1 - 1)) at 2 by lia.
    rewrite !after_drops_succ.
    replace (j - 1 - 1) with ((j - 1) - 1) by lia.
    apply Hfirst. lia.
Qed.

End DropUntilFacts.

Lemma shave_shrinks (sh : nat * nat) (ax : Z) :
  (fst (shave sh ax) <= fst sh /\ snd (shave sh ax) <= snd sh)%nat.
Proof.
  unfold shave. destruct (ax =? 0)%Z.
  - destruct (Nat.ltb 3 (fst sh)); simpl; lia.
  - destruct (Nat.ltb 2 (snd sh)); simpl; lia.
Qed.

Lemma drop_until_terminates_witness :
  exists k,
    (2 <= k <= 5 + 4 + 2)%nat
    /\ drop_until (fun sh => sh) shave 11 (5, 4)%nat None
       = Some (frame_after (fun sh => sh) shave k (5, 4)%nat None).
Proof.
  destruct (@drop_until_terminates (nat * nat) (fun sh => sh) shave
              shave_shrinks (5, 4)%nat None)
    as (k & Hk & Hsome & _).
  exists k. split; [exact Hk|]. apply Hsome. simpl in Hk. lia.
Defined.

Example drop_until_run :
  drop_until (fun sh => sh) shave 11 (5, 4)%nat None = Some (3, 2)%nat
  /\ drop_until (fun sh => sh) shave 4 (5, 4)%nat None = None
  /\ drop_until (fun sh => sh) shave 5 (5, 4)%nat None = Some (3, 2)%nat.
Proof. repeat split; reflexivity. Qed.

(* ================================================================== *)
(** ** The Density Evaluator, on any carrier                            *)
(* ================================================================== *)

Lemma getitem_or_tuple_truncated {A : Type} (supplied : option (list A))
  (default : A) (d i : nat) :
  (i < d)%nat ->
  getitem (or_tuple_of (truncated d supplied) default d) i
  = getitem (or_tuple_of supplied default d) i.
Proof.
  intro Hi. destruct supplied as [l|]; simpl; [|reflexivity].
  now apply getitem_firstn.
Qed.

Lemma getitem_or_tuple_short {A : Type} (supplied : option (list A))
  (default : A) (d : nat) :
  shorter d supplied ->
  exists i, (i < d)%nat /\ raises (getitem (or_tuple_of supplied default d) i).
Proof.
  destruct supplied as [l|]; simpl; [|contradiction].
  intro Hl. exists (length l). split; [exact Hl|]. now apply getitem_raises.
Qed.

Section EstimateFacts.

Context {T : Type} `{Number T}.

Variable ALMOST_ZERO : T.
Variable DIMENSION_FRACTION_GRID_EXTENSION : T.
Variable DIMENSION_N_GRID : Z.
Variable compute_vector_bandwidth : list T -> result T.
Variable FFTKDE : list T -> ndarray2 T -> list (list T) -> result (list T).
Variable plot_mesh_grid : list (list T) -> list T -> result unit.

Let estimate :=
  estimate_element_x_dimension_kernel_density
    ALMOST_ZERO DIMENSION_FRACTION_GRID_EXTENSION DIMENSION_N_GRID
    compute_vector_bandwidth FFTKDE plot_mesh_grid.

Let bandwidths_of := resolved_bandwidths compute_vector_bandwidth.

Let grids_of :=
  resolved_grids DIMENSION_FRACTION_GRID_EXTENSION DIMENSION_N_GRID.

(** The estimator is its two loops, then the kernel evaluator, the clamp
    and the optional plot. *)
Lemma estimate_stages (X : ndarray2 T) (bandwidths factors : option (list T))
  (mins maxs : option (list (option T))) (fractions : option (list T))
  (n_grids : option (list Z)) (plot : bool) :
  estimate X bandwidths factors mins maxs fractions n_grids plot
  = (bw <- bandwidths_of X bandwidths factors ;;
     grids <- grids_of X mins maxs fractions n_grids ;;
     raw <- FFTKDE bw X (make_mesh_grid_point_x_dimension grids) ;;
     _ <- (if plot
           then plot_mesh_grid (make_mesh_grid_point_x_dimension grids)
                               (clip ALMOST_ZERO raw)
           else Ok tt) ;;
     Ok (make_mesh_grid_point_x_dimension grids, clip ALMOST_ZERO raw)).
Proof.
  unfold estimate, estimate_element_x_dimension_kernel_density,
    bandwidths_of, resolved_bandwidths, grids_of, resolved_grids.
  destruct (match bandwidths with
            | Some b => Ok b
            | None => _
            end) as [bw|e]; reflexivity.
Qed.

(** What a returned pair is made of. *)
Lemma estimate_returns (X : ndarray2 T) (bandwidths factors : option (list T))
  (mins maxs : option (list (option T))) (fractions : option (list T))
  (n_grids : option (list Z)) (plot : bool)
  (mesh : list (list T)) (density : list T) :
  estimate X bandwidths factors mins maxs fractions n_grids plot
  = Ok (mesh, density) ->
  exists bw grids raw,
    bandwidths_of X bandwidths factors = Ok bw
    /\ grids_of X mins maxs fractions n_grids = Ok grids
    /\ mesh = make_mesh_grid_point_x_dimension grids
    /\ FFTKDE bw X mesh = Ok raw
    /\ density = clip ALMOST_ZERO raw.
Proof.
  rewrite estimate_stages. intro E.
  apply bind_ok in E. destruct E as (bw & Ebw & E).
  apply bind_ok in E. destruct E as (grids & Eg & E).
  apply bind_ok in E. destruct E as (raw & Eraw & E).
  apply bind_ok in E. destruct E as (u & _ & E).
  inversion E; subst. exists bw, grids, raw. repeat split; assumption.
Qed.

(** Only the first [d] entries of each sequence are read. *)
Lemma grids_of_truncated (X : ndarray2 T)
  (mins maxs : option (list (option T))) (fractions : option (list T))
  (n_grids : option (list Z)) :
  let d := n_col X in
  grids_of X (truncated d mins) (truncated d maxs) (truncated d fractions)
           (truncated d n_grids)
  = grids_of X mins maxs fractions n_grids.
Proof.
  intro d. unfold grids_of, resolved_grids. fold d.
  apply for_each_ext. intros i Hi. apply in_range in Hi.
  unfold dimension_grid. now rewrite !getitem_or_tuple_truncated.
Qed.

Lemma bandwidths_of_truncated_factors (X : ndarray2 T)
  (bandwidths factors : option (list T)) :
  bandwidths_of X bandwidths (truncated (n_col X) factors)
  = bandwidths_of X bandwidths factors.
Proof.
  unfold bandwidths_of, resolved_bandwidths.
  destruct (match bandwidths with
            | Some b => Ok b
            | None => _
            end) as [bw|e]; [|reflexivity].
  destruct factors as [fs|]; [|reflexivity]. simpl.
  apply for_each_ext. intros i Hi. apply in_range in Hi.
  now rewrite getitem_firstn.
Qed.

Lemma bandwidths_of_truncated (X : ndarray2 T)
  (bandwidths : option (list T)) (fs : list T) :
  bandwidths_of X (truncated (n_col X) bandwidths) (Some fs)
  = bandwidths_of X bandwidths (Some fs).
Proof.
  unfold bandwidths_of, resolved_bandwidths.
  destruct bandwidths as [bw|]; [|reflexivity]. simpl.
  apply for_each_ext. intros i Hi. apply in_range in Hi.
  now rewrite getitem_firstn.
Qed.

(** A sequence that is too short stops its loop. *)
Lemma grids_of_short (X : ndarray2 T)
  (mins maxs : option (list (option T))) (fractions : option (list T))
  (n_grids : option (list Z)) :
  let d := n_col X in
  shorter d mins \/ shorter d maxs \/ shorter d fractions \/ shorter d n_grids ->
  raises (grids_of X mins maxs fractions n_grids).
Proof.
  intros d Hshort. unfold grids_of, resolved_grids. fold d.
  assert (P : exists i, (i < d)%nat /\
    raises (dimension_grid X (or_tuple_of mins None d) (or_tuple_of maxs None d)
              (or_tuple_of fractions DIMENSION_FRACTION_GRID_EXTENSION d)
              (or_tuple_of n_grids DIMENSION_N_GRID d) i)).
  { unfold dimension_grid.
    destruct Hshort as [Hs|[Hs|[Hs|Hs]]].
    - destruct (@getitem_or_tuple_short _ mins None d Hs) as (i & Hi & R).
      exists i. split; [exact Hi|]. now apply bind_raises_l.
    - destruct (@getitem_or_tuple_short _ maxs None d Hs) as (i & Hi & R).
      exists i. split; [exact Hi|].
      apply bind_raises_r; intros ? _. now apply bind_raises_l.
    - destruct (@getitem_or_tuple_short _ fractions
                  DIMENSION_FRACTION_GRID_EXTENSION d Hs) as (i & Hi & R).
      exists i. split; [exact Hi|].
      do 2 (apply bind_raises_r; intros ? _). now apply bind_raises_l.
    - destruct (@getitem_or_tuple_short _ n_grids DIMENSION_N_GRID d Hs)
        as (i & Hi & R).
      exists i. split; [exact Hi|].
      do 3 (apply bind_raises_r; intros ? _). now apply bind_raises_l. }
  destruct P as (i & Hi & R).
  apply for_each_raises with (i := i); [now apply in_range | exact R].
Qed.

Lemma bandwidths_of_short (X : ndarray2 T)
  (bandwidths factors : option (list T)) :
  let d := n_col X in
  shorter d factors \/ (factors <> None /\ shorter d bandwidths) ->
  raises (bandwidths_of X bandwidths factors).
Proof.
  intros d Hshort. unfold bandwidths_of, resolved_bandwidths. fold d.
  apply bind_raises_r. intros bw Ebw.
  destruct Hshort as [Hs|[N Hs]].
  - destruct factors as [fs|]; [|contradiction]. simpl in Hs.
    apply for_each_raises with (i := length fs); [now apply in_range|].
    apply bind_raises_r. intros b _. apply bind_raises_l.
    now apply getitem_raises.
  - destruct factors as [fs|]; [|congruence].
    destruct bandwidths as [l|]; [|contradiction]. simpl in Hs.
    inversion Ebw; subst bw.
    apply for_each_raises with (i := length l); [now apply in_range|].
    apply bind_raises_l. now apply getitem_raises.
Qed.

(** A matrix without rows has empty columns, whose minimum numpy refuses. *)
Lemma grids_of_no_row (X : ndarray2 T)
  (mins maxs : option (list (option T))) (fractions : option (list T))
  (n_grids : option (list Z)) :
  rows X = [] -> (0 < n_col X)%nat -> mins = None ->
  raises (grids_of X mins maxs fractions n_grids).
Proof.
  intros Hrows Hd ->. unfold grids_of, resolved_grids.
  apply for_each_raises with (i := 0%nat); [now apply in_range|].
  unfold dimension_grid. simpl or_tuple_of at 1.
  rewrite getitem_repeat by assumption. simpl.
  do 3 (apply bind_raises_r; intros ? _).
  unfold make_vector_grid, column. rewrite Hrows. simpl.
  now exists ValueError.
Qed.

(** C7.  When the Bandwidth Estimator yields [bandwidths] for the columns
    of the matrix, passing exactly these as [dimension_bandwidths] gives
    the same outcome (the same pair, or the same exception) as leaving
    [dimension_bandwidths] out, all other arguments being the same. *)
Theorem explicit_bandwidths_reproduce_estimated
  (element_x_dimension : ndarray2 T) (bandwidths : list T)
  (factors : option (list T)) (mins maxs : option (list (option T)))
  (fractions : option (list T)) (n_grids : option (list Z)) (plot : bool) :
  for_each (fun i => compute_vector_bandwidth (column i element_x_dimension))
           (range (n_col element_x_dimension))
  = Ok bandwidths ->
  estimate element_x_dimension (Some bandwidths) factors mins maxs
           fractions n_grids plot
  = estimate element_x_dimension None factors mins maxs fractions n_grids plot.
Proof.
  intro E. unfold estimate, estimate_element_x_dimension_kernel_density.
  rewrite E. reflexivity.
Qed.

Lemma getitem_raise_kind {A : Type} (l : list A) (i : nat) (e : exn) :
  getitem l i = Raise e -> e = IndexError.
Proof.
  unfold getitem. destruct (nth_error l i); intro E; now inversion E.
Qed.

Lemma raises_with {A : Type} (m : result A) (P : exn -> Prop) :
  raises m -> (forall e, m = Raise e -> P e) -> exists e, m = Raise e /\ P e.
Proof. intros [e E] Hp. exists e. split; [exact E | now apply Hp]. Qed.

(** What fails in the loop over the grids is a [seq[i]] or the Grid
    Builder. *)
Lemma grids_of_raise_kind (X : ndarray2 T)
  (mins maxs : option (list (option T))) (fractions : option (list T))
  (n_grids : option (list Z)) (e : exn) :
  grids_of X mins maxs fractions n_grids = Raise e ->
  e = IndexError \/ e = ValueError.
Proof.
  unfold grids_of, resolved_grids. intro E.
  apply for_each_raise_source in E. destruct E as (i & _ & E).
  unfold dimension_grid in E.
  repeat match type of E with
  | bind (getitem ?l ?k) _ = Raise _ =>
      let G := fresh "G" in
      destruct (getitem l k) eqn:G; cbn [bind] in E;
      [|inversion E; subst; left; now apply getitem_raise_kind in G]
  end.
  right. now apply make_vector_grid_raises in E.
Qed.

(** What fails in the loop over the factors is a [seq[i]]. *)
Lemma scaled_bandwidths_raise_kind (X : ndarray2 T) (supplied : list T)
  (factors : option (list T)) (e : exn) :
  bandwidths_of X (Some supplied) factors = Raise e -> e = IndexError.
Proof.
  unfold bandwidths_of, resolved_bandwidths. cbn [bind].
  destruct factors as [fs|]; [|discriminate]. intro E.
  apply for_each_raise_source in E. destruct E as (i & _ & E).
  destruct (getitem supplied i) eqn:G1; cbn [bind] in E;
    [|inversion E; subst; now apply getitem_raise_kind in G1].
  destruct (getitem fs i) eqn:G2; cbn [bind] in E;
    [discriminate | inversion E; subst; now apply getitem_raise_kind in G2].
Qed.

(** On a matrix without rows the first grid already fails, in the Grid
    Builder. *)
Lemma grids_of_no_row_kind (X : ndarray2 T)
  (maxs : option (list (option T))) (fractions : option (list T))
  (n_grids : option (list Z)) :
  rows X = [] -> (0 < n_col X)%nat ->
  ~ shorter 1 maxs -> ~ shorter 1 fractions -> ~ shorter 1 n_grids ->
  grids_of X None maxs fractions n_grids = Raise ValueError.
Proof.
  intros Hrows Hd Hmaxs Hfr Hng. unfold grids_of, resolved_grids, range.
  destruct (n_col X) as [|d] eqn:Ed; [lia|]. cbn [seq for_each].
  assert (R : forall (A : Type) (supplied : option (list A)) (default : A),
                ~ shorter 1 supplied ->
                exists a, getitem (or_tuple_of supplied default (S d)) 0
                          = Ok a).
  { intros A [l|] default Hs; cbn [or_tuple_of repeat]; [|now eexists].
    destruct l as [|a l]; [exfalso; apply Hs; simpl; lia | now exists a]. }
  destruct (R _ maxs None Hmaxs) as (gmax & Emax).
  destruct (R _ fractions DIMENSION_FRACTION_GRID_EXTENSION Hfr)
    as (fr & Efr).
  destruct (R _ n_grids DIMENSION_N_GRID Hng) as (ng & Eng).
  unfold dimension_grid at 1. rewrite Emax, Efr, Eng.
  cbn [or_tuple_of repeat getitem nth_error bind].
  unfold make_vector_grid, column. rewrite Hrows. reflexivity.
Qed.

(** C2 (as amended).  The estimator checks no length and no row count.
    With [d] the column count: (1) a supplied sequence of factors, grid
    minima, grid maxima, extension fractions or resolutions with fewer
    than [d] entries makes the call raise, and so does a short sequence of
    bandwidths when factors are supplied; (2) with supplied bandwidths, a
    failure of the factor loop is an [IndexError]; (3) when the bandwidths
    are resolved, a short sequence for the grids makes the call raise an
    [IndexError] or a [ValueError]; (4) entries past the first [d] of the
    factors and of the sequences for the grids are never read: cutting
    them after [d] entries changes nothing, (5) and the same holds for the
    bandwidths when factors are supplied; (6) without factors, supplied
    bandwidths are handed to the kernel evaluator as they are, whatever
    their length: the call is the loop over the grids followed by the
    evaluator on these bandwidths; (7) a matrix with columns but no row makes the call
    raise when the grid minima are not supplied, (8) with a [ValueError]
    when the bandwidths are resolved and no other sequence is empty. *)
Theorem configuration_lengths_are_not_checked
  (X : ndarray2 T) (bandwidths factors : option (list T))
  (mins maxs : option (list (option T))) (fractions : option (list T))
  (n_grids : option (list Z)) (plot : bool) :
  let d := n_col X in
  (shorter d factors \/ shorter d mins \/ shorter d maxs
   \/ shorter d fractions \/ shorter d n_grids
   \/ (factors <> None /\ shorter d bandwidths) ->
   raises (estimate X bandwidths factors mins maxs fractions n_grids plot))
  /\ (bandwidths <> None ->
      shorter d factors \/ (factors <> None /\ shorter d bandwidths) ->
      estimate X bandwidths factors mins maxs fractions n_grids plot
      = Raise IndexError)
  /\ (forall bw,
        bandwidths_of X bandwidths factors = Ok bw ->
        shorter d mins \/ shorter d maxs \/ shorter d fractions
        \/ shorter d n_grids ->
        exists e,
          estimate X bandwidths factors mins maxs fractions n_grids plot
          = Raise e
          /\ (e = IndexError \/ e = ValueError))
  /\ estimate X bandwidths (truncated d factors) (truncated d mins)
              (truncated d maxs) (truncated d fractions)
              (truncated d n_grids) plot
     = estimate X bandwidths factors mins maxs fractions n_grids plot
  /\ (factors <> None ->
      estimate X (truncated d bandwidths) factors mins maxs fractions
               n_grids plot
      = estimate X bandwidths factors mins maxs fractions n_grids plot)
  /\ (forall supplied,
        bandwidths = Some supplied -> factors = None ->
        estimate X bandwidths factors mins maxs fractions n_grids plot
        = (grids <- grids_of X mins maxs fractions n_grids ;;
           let mesh := make_mesh_grid_point_x_dimension grids in
           raw <- FFTKDE supplied X mesh ;;
           _ <- (if plot
                 then plot_mesh_grid mesh (clip ALMOST_ZERO raw)
                 else Ok tt) ;;
           Ok (mesh, clip ALMOST_ZERO raw)))
  /\ (rows X = [] -> (0 < d)%nat -> mins = None ->
      raises (estimate X bandwidths factors mins maxs fractions n_grids plot))
  /\ (forall bw,
        bandwidths_of X bandwidths factors = Ok bw ->
        rows X = [] -> (0 < d)%nat -> mins = None ->
        ~ shorter 1 maxs -> ~ shorter 1 fractions -> ~ shorter 1 n_grids ->
        estimate X bandwidths factors mins maxs fractions n_grids plot
        = Raise ValueError).
Proof.
  intro d. repeat split.
  - intro Hshort. rewrite estimate_stages.
    destruct Hshort as [Hs|[Hs|[Hs|[Hs|[Hs|Hs]]]]].
    1, 6: apply bind_raises_l; apply bandwidths_of_short; fold d; tauto.
    all: apply bind_raises_r; intros bw _; apply bind_raises_l;
      apply grids_of_short; fold d; tauto.
  - intros Hb Hshort. destruct bandwidths as [supplied|]; [|congruence].
    rewrite estimate_stages.
    destruct (@raises_with _ (bandwidths_of X (Some supplied) factors)
                (fun e => e = IndexError)) as (e & -> & ->).
    + apply bandwidths_of_short. fold d. tauto.
    + intros e. apply scaled_bandwidths_raise_kind.
    + reflexivity.
  - intros bw Ebw Hshort. rewrite estimate_stages, Ebw. cbn [bind].
    destruct (@raises_with _ (grids_of X mins maxs fractions n_grids)
                (fun e => e = IndexError \/ e = ValueError))
      as (e & -> & He).
    + apply grids_of_short. fold d. tauto.
    + intros e. apply grids_of_raise_kind.
    + exists e. split; [reflexivity | exact He].
  - rewrite !estimate_stages. unfold d.
    now rewrite bandwidths_of_truncated_factors, grids_of_truncated.
  - intro N. destruct factors as [fs|]; [|congruence].
    rewrite !estimate_stages. unfold d.
    now rewrite bandwidths_of_truncated.
  - intros supplied -> ->. now rewrite estimate_stages.
  - intros Hrows Hd Hmins. rewrite estimate_stages.
    apply bind_raises_r; intros bw _. apply bind_raises_l.
    now apply grids_of_no_row.
  - intros bw Ebw Hrows Hd -> Hmaxs Hfr Hng.
    rewrite estimate_stages, Ebw. cbn [bind].
    now rewrite grids_of_no_row_kind.
Qed.

End EstimateFacts.

(** On a matrix of two rows and two columns, a sequence of one resolution
    is too short: the call raises. *)
Lemma configuration_lengths_are_not_checked_witness :
  raises
    (estimate_element_x_dimension_kernel_density (T:=float)
       float_eps float_tenth 100 (constant_bandwidth 1%float)
       (constant_kernel 0%float) no_plot
       {| n_col := 2; rows := [[0; 1]; [10; 3]]%float |}
       None None None None None (Some [3%Z]) false).
Proof.
  apply (proj1 (@configuration_lengths_are_not_checked float Binary64
                  float_eps float_tenth 100 (constant_bandwidth 1%float)
                  (constant_kernel 0%float) no_plot
                  {| n_col := 2; rows := [[0; 1]; [10; 3]]%float |}
                  None None None None None (Some [3%Z]) false)).
  simpl. do 4 right. left. lia.
Defined.

(** C2, the claim as stated fails (runs on binary64): on a matrix with one
    column, a sequence of two resolutions is accepted and the second entry
    is ignored (the outcome is that of the one-entry sequence); a sequence
    of three bandwidths is accepted as well and, no factors being given,
    reaches the kernel evaluator whole; and a matrix of a single row is
    accepted. *)
Lemma mismatched_configuration_is_accepted :
  (exists mesh density,
     estimate_element_x_dimension_kernel_density (T:=float)
       float_eps float_tenth 100 (constant_bandwidth 1%float)
       (constant_kernel 0%float) no_plot
       {| n_col := 1; rows := [[0]; [10]]%float |}
       None None None None None (Some [3; 7]%Z) false
     = Ok (mesh, density)
     /\ length mesh = 3%nat
     /\ estimate_element_x_dimension_kernel_density (T:=float)
          float_eps float_tenth 100 (constant_bandwidth 1%float)
          (constant_kernel 0%float) no_plot
          {| n_col := 1; rows := [[0]; [10]]%float |}
          None None None None None (Some [3]%Z) false
        = Ok (mesh, density))
  /\ estimate_element_x_dimension_kernel_density (T:=float)
       float_eps float_tenth 100 (constant_bandwidth 1%float)
       echo_kernel no_plot
       {| n_col := 1; rows := [[0]; [10]]%float |}
       (Some [1; 2; 3]%float) None None None None (Some [3]%Z) false
     = Ok ([[-1]; [5]; [11]]%float, [1; 2; 3]%float)
  /\ (exists mesh density,
        estimate_element_x_dimension_kernel_density (T:=float)
          float_eps float_tenth 100 (constant_bandwidth 1%float)
          (constant_kernel 0%float) no_plot
          {| n_col := 1; rows := [[4]]%float |}
          None None None None None (Some [3]%Z) false
        = Ok (mesh, density)).
Proof.
  split; [|split].
  - do 2 eexists. split; [vm_compute; reflexivity|].
    split; reflexivity.
  - vm_compute. reflexivity.
  - do 2 eexists. vm_compute. reflexivity.
Qed.

Lemma explicit_bandwidths_reproduce_estimated_witness :
  estimate_element_x_dimension_kernel_density (T:=Q)
    (1 # 100) (1 # 10) 100 (constant_bandwidth (3 # 2)) (constant_kernel 0)
    no_plot {| n_col := 2; rows := [[0; 1]; [10; 3]] |}
    (Some [3 # 2; 3 # 2]) None None None None (Some [3; 2]%Z) false
  = estimate_element_x_dimension_kernel_density (T:=Q)
      (1 # 100) (1 # 10) 100 (constant_bandwidth (3 # 2)) (constant_kernel 0)
      no_plot {| n_col := 2; rows := [[0; 1]; [10; 3]] |}
      None None None None None (Some [3; 2]%Z) false.
Proof.
  apply explicit_bandwidths_reproduce_estimated. reflexivity.
Defined.

(* ================================================================== *)
(** ** The floor clamp on binary64                                      *)
(* ================================================================== *)

Section Binary64Clamp.

Lemma SFcompare_refl (s : spec_float) :
  s <> S754_nan -> SFcompare s s = Some Eq.
Proof.
  destruct s as [sg|sg| |sg m e]; intro N; simpl.
  - reflexivity.
  - now destruct sg.
  - congruence.
  - rewrite Z.compare_refl.
    change (Pos.compare_cont Eq m m) with (Pos.compare m m).
    rewrite Pos.compare_refl. now destruct sg.
Qed.

Lemma is_nan_Prim2SF (x : float) :
  PrimFloat.is_nan x = true <-> Prim2SF x = S754_nan.
Proof.
  unfold PrimFloat.is_nan. rewrite FloatAxioms.eqb_spec. unfold SFeqb. split.
  - intro E. destruct (Prim2SF x) eqn:P; try reflexivity;
      rewrite SFcompare_refl in E by discriminate; discriminate.
  - intros ->. reflexivity.
Qed.

Lemma not_nan_Prim2SF (x : float) :
  PrimFloat.is_nan x = false <-> Prim2SF x <> S754_nan.
Proof.
  rewrite <- is_nan_Prim2SF. destruct (PrimFloat.is_nan x); split; congruence.
Qed.

Lemma leb_refl (x : float) :
  PrimFloat.is_nan x = false -> PrimFloat.leb x x = true.
Proof.
  intro N. apply not_nan_Prim2SF in N.
  rewrite FloatAxioms.leb_spec. unfold SFleb. now rewrite SFcompare_refl.
Qed.

Lemma positive_not_nan (m : float) :
  PrimFloat.ltb 0 m = true -> PrimFloat.is_nan m = false.
Proof.
  intro P. apply not_nan_Prim2SF. intro E.
  rewrite FloatAxioms.ltb_spec, E in P. discriminate.
Qed.

(** [0 < m <= x] gives [0 < x]. *)
Lemma positive_above (m x : float) :
  PrimFloat.ltb 0 m = true -> PrimFloat.leb m x = true ->
  PrimFloat.ltb 0 x = true.
Proof.
  rewrite !FloatAxioms.ltb_spec, FloatAxioms.leb_spec.
  change (Prim2SF 0) with (S754_zero false).
  unfold SFltb, SFleb.
  destruct (Prim2SF m) as [sm|sm| |sm mm em], (Prim2SF x) as [sx|sx| |sx mx ex];
    simpl; try discriminate;
    try (destruct sm; discriminate);
    try (destruct sm, sx; simpl; congruence).
Qed.

(** A positive floor is above minus infinity. *)
Lemma positive_not_below_neg_infinity (m : float) :
  PrimFloat.ltb 0 m = true -> PrimFloat.leb m neg_infinity = false.
Proof.
  rewrite FloatAxioms.ltb_spec, FloatAxioms.leb_spec.
  change (Prim2SF 0) with (S754_zero false).
  change (Prim2SF neg_infinity) with (S754_infinity true).
  unfold SFltb, SFleb.
  destruct (Prim2SF m) as [sm|sm| |sm mm em]; simpl; try discriminate;
    destruct sm; simpl; congruence.
Qed.

Lemma below_infinity (m : float) :
  PrimFloat.is_nan m = false -> PrimFloat.leb m infinity = true.
Proof.
  intro N. apply not_nan_Prim2SF in N. rewrite FloatAxioms.leb_spec.
  change (Prim2SF infinity) with (S754_infinity false).
  unfold SFleb.
  destruct (Prim2SF m) as [sm|sm| |sm mm em]; simpl; try congruence;
    now destruct sm.
Qed.

(** One entry of [clip(min=floor)] on binary64. *)
Lemma clamp_entry (floor r : float) :
  PrimFloat.ltb 0 floor = true ->
  let v := maximum r floor in
  (PrimFloat.is_nan r = true -> v = r)
  /\ (r = infinity -> v = infinity)
  /\ (r = neg_infinity -> v = floor)
  /\ (PrimFloat.leb floor r = true -> v = r)
  /\ (PrimFloat.is_nan r = false ->
      PrimFloat.leb floor v = true /\ PrimFloat.ltb 0 v = true
      /\ (v = r \/ v = floor)).
Proof.
  intros P v. subst v. unfold maximum. cbn [leb isnan Binary64].
  pose proof (positive_not_nan P) as Nf.
  split; [|split; [|split; [|split]]].
  - intros ->. now rewrite orb_true_r.
  - intros ->. now rewrite below_infinity.
  - intros ->. now rewrite positive_not_below_neg_infinity.
  - intros ->. reflexivity.
  - intros ->. rewrite orb_false_r.
    destruct (PrimFloat.leb floor r) eqn:L.
    + split; [exact L|]. split; [now apply positive_above with floor | now left].
    + split; [now apply leb_refl|]. split; [exact P | now right].
Qed.


Variable ALMOST_ZERO : float.
Variable DIMENSION_FRACTION_GRID_EXTENSION : float.
Variable DIMENSION_N_GRID : Z.
Variable compute_vector_bandwidth : list float -> result float.
Variable FFTKDE :
  list float -> ndarray2 float -> list (list float) -> result (list float).
Variable plot_mesh_grid : list (list float) -> list float -> result unit.

(** The floor constant is a positive number. *)
Hypothesis floor_positive : PrimFloat.ltb 0 ALMOST_ZERO = true.

(** C1 (as amended).  When the call returns [(mesh, density)], [density]
    is the kernel evaluator's output on [mesh], clamped from below entry by
    entry, in the same order: as many entries as the evaluator gave (one
    per Mesh Grid point when it gave one per point).  An entry whose raw
    value is not NaN is [>= ALMOST_ZERO], positive, and is either the raw
    value or the floor; raw values at or above the floor are kept; a raw
    minus infinity becomes the floor.  Nothing guards against the other
    non-finite values: a raw NaN stays NaN and a raw plus infinity stays
    plus infinity. *)
Theorem density_surface_is_clamped_kernel_output
  (X : ndarray2 float) (bandwidths factors : option (list float))
  (mins maxs : option (list (option float))) (fractions : option (list float))
  (n_grids : option (list Z)) (plot : bool)
  (mesh : list (list float)) (density : list float) :
  estimate_element_x_dimension_kernel_density
    ALMOST_ZERO DIMENSION_FRACTION_GRID_EXTENSION DIMENSION_N_GRID
    compute_vector_bandwidth FFTKDE plot_mesh_grid
    X bandwidths factors mins maxs fractions n_grids plot
  = Ok (mesh, density) ->
  exists bw raw,
    FFTKDE bw X mesh = Ok raw
    /\ density = clip ALMOST_ZERO raw
    /\ length density = length raw
    /\ (length raw = length mesh -> length density = length mesh)
    /\ forall i r,
         nth_error raw i = Some r ->
         exists v,
           nth_error density i = Some v
           /\ (PrimFloat.is_nan r = true -> v = r)
           /\ (r = infinity -> v = infinity)
           /\ (r = neg_infinity -> v = ALMOST_ZERO)
           /\ (PrimFloat.leb ALMOST_ZERO r = true -> v = r)
           /\ (PrimFloat.is_nan r = false ->
               PrimFloat.leb ALMOST_ZERO v = true
               /\ PrimFloat.ltb 0 v = true
               /\ (v = r \/ v = ALMOST_ZERO)).
Proof.
  intro E. apply estimate_returns in E.
  destruct E as (bw & grids & raw & _ & _ & _ & Eraw & ->).
  exists bw, raw. split; [exact Eraw|]. split; [reflexivity|].
  assert (L : length (clip ALMOST_ZERO raw) = length raw)
    by apply length_map.
  split; [exact L|]. split; [congruence|].
  intros i r Hr. exists (maximum r ALMOST_ZERO). split.
  - unfold clip. rewrite nth_error_map, Hr. reflexivity.
  - exact (clamp_entry r floor_positive).
Qed.

End Binary64Clamp.

(** A call that returns: the evaluator gave 1, 0 and minus infinity. *)
Lemma density_surface_is_clamped_kernel_output_witness :
  exists bw raw,
    fixed_kernel [1; 0; neg_infinity]%float bw
      {| n_col := 1; rows := [[0]; [10]]%float |}
      [[-1]; [5]; [11]]%float = Ok raw
    /\ [1; float_eps; float_eps]%float = clip float_eps raw.
Proof.
  destruct (@density_surface_is_clamped_kernel_output
              float_eps float_tenth 100 (constant_bandwidth 1%float)
              (fixed_kernel [1; 0; neg_infinity]%float) no_plot
              eq_refl
              {| n_col := 1; rows := [[0]; [10]]%float |}
              None None None None None (Some [3%Z]) false
              [[-1]; [5]; [11]]%float [1; float_eps; float_eps]%float
              ltac:(vm_compute; reflexivity))
    as (bw & raw & E & D & _).
  exists bw, raw. split; assumption.
Defined.

(** C1, the claim as stated fails: when the kernel evaluator hands back
    NaN, plus infinity and 1 for the three points of the mesh, the Density
    Surface returned is NaN, plus infinity and 1: the first entry is not a
    number (and not [>=] the floor), the second is not finite. *)
Lemma non_finite_density_is_returned :
  estimate_element_x_dimension_kernel_density (T:=float)
    float_eps float_tenth 100 (constant_bandwidth 1%float)
    (fixed_kernel [nan; infinity; 1]%float) no_plot
    {| n_col := 1; rows := [[0]; [10]]%float |}
    None None None None None (Some [3%Z]) false
  = Ok ([[-1]; [5]; [11]]%float, [nan; infinity; 1]%float)
  /\ PrimFloat.is_nan nan = true
  /\ PrimFloat.leb float_eps nan = false
  /\ PrimFloat.is_finite infinity = false.
Proof. repeat split; vm_compute; reflexivity. Qed.

(* ================================================================== *)
(** ** Binary64: rounding, conversion of integers, division             *)
(* ================================================================== *)

(** The grids of the code are float64 arrays.  The operations on
    binary64 numbers are specified by [SpecFloat]; what follows is the part
    of that specification the grids need: rounding a mantissa that is not
    too large gives a number, [float(n)] is a positive finite number for
    [0 < n < 2^63], and so is not zero, and the quotient of two such
    numbers is a number. *)

Section Binary64Rounding.

Local Open Scope Z_scope.

(** A positive mantissa lies between two powers of two given by its
    number of digits. *)
Lemma digits2_bounds (p : positive) :
  2 ^ (Zpos (digits2_pos p) - 1) <= Zpos p < 2 ^ Zpos (digits2_pos p).
Proof.
  induction p as [p IH|p IH|]; cbn [digits2_pos].
  - rewrite Pos2Z.inj_succ.
    replace (Z.succ (Zpos (digits2_pos p)) - 1)
      with (Z.succ (Zpos (digits2_pos p) - 1)) by lia.
    rewrite !Z.pow_succ_r by lia. lia.
  - rewrite Pos2Z.inj_succ.
    replace (Z.succ (Zpos (digits2_pos p)) - 1)
      with (Z.succ (Zpos (digits2_pos p) - 1)) by lia.
    rewrite !Z.pow_succ_r by lia. lia.
  - simpl. lia.
Qed.

Lemma Zdigits2_upper (m K : Z) :
  0 <= m < 2 ^ K -> 0 <= K -> 0 <= Zdigits2 m <= K.
Proof.
  intros [H0 HK] K0. destruct m as [|p|p]; simpl; [lia| |lia].
  pose proof (digits2_bounds p) as [L _].
  split; [lia|].
  assert (Zpos (digits2_pos p) - 1 < K); [|lia].
  apply (Z.pow_lt_mono_r_iff 2); lia.
Qed.

(** Shifting right by one digit halves the mantissa, shifting by [k]
    digits divides it by [2^k]. *)
Lemma shr_1_m (r : shr_record) :
  0 <= shr_m r -> shr_m (shr_1 r) = shr_m r / 2.
Proof.
  destruct r as [m r s]. cbn [shr_m]. intro Hm.
  rewrite <- Z.div2_div.
  destruct m as [|[p|p|]|p]; try reflexivity. lia.
Qed.

Lemma iter_shr_1_m (k : positive) (r : shr_record) :
  0 <= shr_m r -> shr_m (iter_pos shr_1 k r) = shr_m r / 2 ^ Zpos k.
Proof.
  revert r. induction k as [k IH|k IH|]; intros r Hr; cbn [iter_pos].
  - assert (H1 : 0 <= shr_m (shr_1 r)).
    { rewrite shr_1_m by assumption. apply Z.div_pos; lia. }
    assert (H2 : 0 <= shr_m (iter_pos shr_1 k (shr_1 r))).
    { rewrite IH by assumption. apply Z.div_pos; lia. }
    rewrite IH, IH, shr_1_m by assumption.
    rewrite !Z.div_div by lia. f_equal.
    replace (Zpos k~1) with (1 + Zpos k + Zpos k) by lia.
    rewrite !Z.pow_add_r by lia. change (2 ^ 1) with 2. ring.
  - assert (H2 : 0 <= shr_m (iter_pos shr_1 k r)).
    { rewrite IH by assumption. apply Z.div_pos; lia. }
    rewrite IH, IH by assumption.
    rewrite !Z.div_div by lia. f_equal.
    replace (Zpos k~0) with (Zpos k + Zpos k) by lia.
    rewrite !Z.pow_add_r by lia. ring.
  - now rewrite shr_1_m.
Qed.

Lemma Zdigits2_lower (m : Z) :
  0 < m -> 1 <= Zdigits2 m /\ 2 ^ (Zdigits2 m - 1) <= m.
Proof.
  destruct m as [|p|p]; try lia. intros _. cbn [Zdigits2].
  pose proof (digits2_bounds p). lia.
Qed.

Lemma shr_record_of_loc_m (m : Z) (l : location) :
  shr_m (shr_record_of_loc m l) = m.
Proof. destruct l as [|[]]; reflexivity. Qed.

(** The shift that brings a mantissa to the format: how many digits, and
    what it leaves. *)
Lemma shr_fexp_spec (m e : Z) (l : location) :
  0 <= m ->
  let n := Z.max 0 (fexp prec emax (Zdigits2 m + e) - e) in
  shr_m (fst (shr_fexp prec emax m e l)) = m / 2 ^ n
  /\ snd (shr_fexp prec emax m e l) = e + n.
Proof.
  intros Hm n. subst n. unfold shr_fexp, shr.
  destruct (fexp prec emax (Zdigits2 m + e) - e) as [|k|k]; cbn [fst snd].
  - rewrite shr_record_of_loc_m. simpl (Z.max 0 0).
    rewrite Z.pow_0_r, Z.div_1_r. lia.
  - rewrite iter_shr_1_m by (rewrite shr_record_of_loc_m; assumption).
    rewrite shr_record_of_loc_m, Z.max_r by lia. lia.
  - rewrite shr_record_of_loc_m, Z.max_l by lia.
    rewrite Z.pow_0_r, Z.div_1_r. lia.
Qed.

Lemma round_nearest_even_bounds (m : Z) (l : location) :
  m <= round_nearest_even m l <= m + 1.
Proof.
  destruct l as [|[]]; simpl; try lia. destruct (Z.even m); lia.
Qed.

(** Rounding is a shift, a rounding of the last digit and a second
    shift. *)
Lemma binary_round_aux_spec (s : bool) (m e : Z) (l : location) :
  0 <= m ->
  exists l',
    let n1 := Z.max 0 (fexp prec emax (Zdigits2 m + e) - e) in
    let m1 := round_nearest_even (m / 2 ^ n1) l' in
    let e1 := e + n1 in
    let n2 := Z.max 0 (fexp prec emax (Zdigits2 m1 + e1) - e1) in
    binary_round_aux prec emax s m e l
    = match m1 / 2 ^ n2 with
      | Z0 => S754_zero s
      | Zpos p =>
          if e1 + n2 <=? emax - prec then S754_finite s p (e1 + n2)
          else S754_infinity s
      | Zneg _ => S754_nan
      end.
Proof.
  intro Hm. unfold binary_round_aux.
  destruct (shr_fexp_spec e l Hm) as [M1 E1].
  destruct (shr_fexp prec emax m e l) as [mrs' e']. cbn [fst snd] in M1, E1.
  exists (loc_of_shr_record mrs'). cbv zeta. rewrite <- M1, <- E1.
  set (m1 := round_nearest_even (shr_m mrs') (loc_of_shr_record mrs')).
  assert (H1 : 0 <= m1).
  { pose proof (round_nearest_even_bounds (shr_m mrs') (loc_of_shr_record mrs')).
    assert (0 <= shr_m mrs') by (rewrite M1; apply Z.div_pos; lia).
    subst m1. lia. }
  destruct (shr_fexp_spec e' loc_Exact H1) as [M2 E2].
  destruct (shr_fexp prec emax m1 e' loc_Exact) as [mrs'' e''].
  cbn [fst snd] in M2, E2. rewrite <- M2, <- E2. reflexivity.
Qed.

(** Rounding a non-negative mantissa that is not too large gives zero or
    a finite number. *)
Lemma binary_round_aux_finite (s : bool) (m e : Z) (l : location) (K : Z) :
  0 <= m < 2 ^ K -> 0 <= K <= 2000 -> e + 2 * K + 2 <= 971 ->
  SF_is_finite (binary_round_aux prec emax s m e l) = true.
Proof.
  intros [Hm HK] [K0 K1] He.
  destruct (binary_round_aux_spec s e l Hm) as (l' & ->). cbv zeta.
  set (n1 := Z.max 0 (fexp prec emax (Zdigits2 m + e) - e)).
  set (m1 := round_nearest_even (m / 2 ^ n1) l').
  set (e1 := e + n1).
  set (n2 := Z.max 0 (fexp prec emax (Zdigits2 m1 + e1) - e1)).
  assert (Hn1 : 0 <= n1) by (subst n1; lia).
  assert (Hn2 : 0 <= n2) by (subst n2; lia).
  assert (P1 : 0 < 2 ^ n1) by (apply Z.pow_pos_nonneg; lia).
  assert (P2 : 0 < 2 ^ n2) by (apply Z.pow_pos_nonneg; lia).
  assert (Hq : 0 <= m / 2 ^ n1 <= m).
  { split; [apply Z.div_pos; lia|]. apply Z.div_le_upper_bound; [lia|]. nia. }
  pose proof (round_nearest_even_bounds (m / 2 ^ n1) l') as Hr. fold m1 in Hr.
  assert (Hm1 : 0 <= m1 < 2 ^ (K + 1)).
  { rewrite Z.pow_add_r by lia. change (2 ^ 1) with 2. lia. }
  pose proof (Zdigits2_upper (conj Hm HK) K0) as D.
  pose proof (@Zdigits2_upper m1 (K + 1) Hm1 ltac:(lia)) as D1.
  assert (B1 : e1 <= Z.max (e + K) (-1074)).
  { subst e1 n1. unfold fexp, emin, prec, emax. lia. }
  assert (B2 : e1 + n2 <= 971).
  { subst n2. unfold fexp, emin, prec, emax. lia. }
  assert (Hm2 : 0 <= m1 / 2 ^ n2) by (apply Z.div_pos; lia).
  destruct (m1 / 2 ^ n2) as [|p|p]; [reflexivity| |lia].
  change (emax - prec) with 971.
  destruct (Z.leb_spec (e1 + n2) 971); [reflexivity | lia].
Qed.

(** Rounding a positive mantissa that is not too large, at an exponent
    that is not below the least one, gives a finite number that is not
    zero. *)
Lemma binary_round_aux_positive (s : bool) (m e : Z) (l : location) (K : Z) :
  0 < m < 2 ^ K -> 0 <= K -> -1074 <= e -> e + 2 * K + 2 <= 971 ->
  exists p e2,
    binary_round_aux prec emax s m e l = S754_finite s p e2
    /\ e <= e2 <= e + 2 * K + 2.
Proof.
  intros [Hm HK] K0 Hlo He.
  destruct (@binary_round_aux_spec s m e l ltac:(lia)) as (l' & ->). cbv zeta.
  set (n1 := Z.max 0 (fexp prec emax (Zdigits2 m + e) - e)).
  set (m1 := round_nearest_even (m / 2 ^ n1) l').
  set (e1 := e + n1).
  set (n2 := Z.max 0 (fexp prec emax (Zdigits2 m1 + e1) - e1)).
  assert (Hn1 : 0 <= n1) by (subst n1; lia).
  assert (Hn2 : 0 <= n2) by (subst n2; lia).
  assert (P1 : 0 < 2 ^ n1) by (apply Z.pow_pos_nonneg; lia).
  assert (P2 : 0 < 2 ^ n2) by (apply Z.pow_pos_nonneg; lia).
  pose proof (@Zdigits2_upper m K ltac:(lia) K0) as D.
  destruct (Zdigits2_lower Hm) as [Dl Dm].
  assert (N1 : n1 <= Zdigits2 m - 1).
  { subst n1. unfold fexp, emin, prec, emax. lia. }
  assert (Hq : 1 <= m / 2 ^ n1 <= m).
  { split.
    - apply Z.div_le_lower_bound; [lia|].
      assert (2 ^ n1 <= 2 ^ (Zdigits2 m - 1))
        by (apply Z.pow_le_mono_r; lia). lia.
    - apply Z.div_le_upper_bound; [lia|]. nia. }
  pose proof (round_nearest_even_bounds (m / 2 ^ n1) l') as Hr. fold m1 in Hr.
  assert (Hm1 : 0 <= m1 < 2 ^ (K + 1)).
  { rewrite Z.pow_add_r by lia. change (2 ^ 1) with 2. lia. }
  pose proof (@Zdigits2_upper m1 (K + 1) Hm1 ltac:(lia)) as D1.
  destruct (@Zdigits2_lower m1 ltac:(lia)) as [D1l D1m].
  assert (N2 : n2 <= Zdigits2 m1 - 1).
  { subst n2 e1. unfold fexp, emin, prec, emax. lia. }
  assert (Hq2 : 1 <= m1 / 2 ^ n2).
  { apply Z.div_le_lower_bound; [lia|].
    assert (2 ^ n2 <= 2 ^ (Zdigits2 m1 - 1))
      by (apply Z.pow_le_mono_r; lia). lia. }
  assert (B : e <= e1 + n2 <= e + 2 * K + 2).
  { subst e1. lia. }
  destruct (m1 / 2 ^ n2) as [|p|p]; [lia| |lia].
  change (emax - prec) with 971.
  destruct (Z.leb_spec (e1 + n2) 971); [|lia].
  exists p, (e1 + n2). split; [reflexivity | exact B].
Qed.

Lemma iter_xO_value (p k : positive) :
  Zpos (Pos.iter xO p k) = Zpos p * 2 ^ Zpos k.
Proof.
  induction k as [|k IH] using Pos.peano_ind.
  - simpl. lia.
  - rewrite Pos.iter_succ, Pos2Z.inj_succ, Z.pow_succ_r by lia.
    change (Zpos (Pos.iter xO p k)~0) with (2 * Zpos (Pos.iter xO p k)).
    rewrite IH. ring.
Qed.

(** [float(n)] for a positive [n] below [2^63]. *)
Lemma binary_round_positive (p : positive) :
  Zpos p < 2 ^ 63 ->
  exists m e,
    binary_round prec emax false p 0 = S754_finite false m e
    /\ -52 <= e <= 130.
Proof.
  intro Hp. unfold binary_round, shl_align.
  pose proof (digits2_bounds p) as [Dl Du].
  assert (D : fexp prec emax (Zpos (digits2_pos p) + 0)
              = Zpos (digits2_pos p) - 53).
  { unfold fexp, emin, prec, emax. lia. }
  rewrite D.
  destruct (Zpos (digits2_pos p) - 53 - 0) as [|k|k] eqn:E.
  - destruct (@binary_round_aux_positive false (Zpos p) 0 loc_Exact 63)
      as (m & e & R & B); try lia.
    exists m, e. split; [exact R | lia].
  - destruct (@binary_round_aux_positive false (Zpos p) 0 loc_Exact 63)
      as (m & e & R & B); try lia.
    exists m, e. split; [exact R | lia].
  - assert (V : Zpos (Pos.iter xO p k) < 2 ^ 53).
    { rewrite iter_xO_value.
      replace 53 with (Zpos (digits2_pos p) + Zpos k) by lia.
      rewrite Z.pow_add_r by lia.
      apply Z.mul_lt_mono_pos_r; [apply Z.pow_pos_nonneg; lia | exact Du]. }
    destruct (@binary_round_aux_positive false (Zpos (Pos.iter xO p k))
                (Zpos (digits2_pos p) - 53) loc_Exact 53)
      as (m & e & R & B); try lia.
    exists m, e. split; [exact R | lia].
Qed.

Lemma float_of_int_positive (z : Z) :
  0 < z < 2 ^ 63 ->
  exists m e,
    Prim2SF (float_of_int z) = S754_finite false m e /\ -52 <= e <= 130.
Proof.
  intros [H0 H1]. destruct z as [|p|p]; try lia.
  unfold float_of_int. rewrite of_uint63_spec, Uint63.of_Z_spec.
  rewrite Z.mod_small by (change Uint63.wB with (2 ^ 63); lia).
  cbn [binary_normalize]. now apply binary_round_positive.
Qed.

(** The mantissa of a binary64 number has at most 53 digits. *)
Lemma finite_digits (x : float) (s : bool) (m : positive) (e : Z) :
  Prim2SF x = S754_finite s m e -> Zpos (digits2_pos m) <= 53.
Proof.
  intro E. pose proof (Prim2SF_valid x) as V. rewrite E in V.
  cbn [valid_binary] in V. unfold bounded, canonical_mantissa in V.
  apply andb_prop in V. destruct V as [V _]. apply Z.eqb_eq in V.
  unfold fexp, emin, prec, emax in V. lia.
Qed.

(** The quotient of two finite numbers whose exponents are moderate is
    neither NaN nor an infinity. *)
Lemma SFdiv_finite (sx sy : bool) (mx my : positive) (ex ey : Z) :
  Zpos (digits2_pos mx) <= 53 -> Zpos (digits2_pos my) <= 53 ->
  -52 <= ex <= 130 -> -52 <= ey <= 130 ->
  SF_is_finite (SFdiv prec emax (S754_finite sx mx ex) (S754_finite sy my ey))
  = true.
Proof.
  intros Dx Dy Hx Hy. cbn [SFdiv]. unfold SFdiv_core_binary. cbv zeta.
  cbn [Zdigits2].
  set (e' := Z.min (fexp prec emax (Zpos (digits2_pos mx) + ex
                                    - (Zpos (digits2_pos my) + ey)))
                   (ex - ey)).
  set (m' := match ex - ey - e' with
             | Z0 => Zpos mx
             | Zpos _ => Z.shiftl (Zpos mx) (ex - ey - e')
             | Zneg _ => 0
             end).
  pose proof (digits2_bounds mx) as [_ Ux].
  assert (S : ex - ey - e' <= 105).
  { subst e'. unfold fexp, emin, prec, emax. lia. }
  assert (M : 0 <= m' < 2 ^ 158).
  { assert (B : Zpos mx < 2 ^ 53).
    { apply Z.lt_le_trans with (2 ^ Zpos (digits2_pos mx)); [exact Ux|].
      apply Z.pow_le_mono_r; lia. }
    subst m'. destruct (ex - ey - e') as [|k|k] eqn:E.
    - split; [lia|]. apply Z.lt_trans with (2 ^ 53); [exact B | reflexivity].
    - rewrite Z.shiftl_mul_pow2 by lia. split; [apply Z.mul_nonneg_nonneg; lia|].
      replace 158 with (53 + 105) by reflexivity. rewrite Z.pow_add_r by lia.
      assert (2 ^ Zpos k <= 2 ^ 105) by (apply Z.pow_le_mono_r; lia).
      assert (0 < 2 ^ Zpos k) by (apply Z.pow_pos_nonneg; lia).
      nia.
    - split; [lia | reflexivity]. }
  assert (Q : Z.div_eucl m' (Zpos my) = (m' / Zpos my, m' mod Zpos my)).
  { unfold Z.div, Z.modulo. now destruct (Z.div_eucl m' (Zpos my)). }
  rewrite Q.
  apply binary_round_aux_finite with (K := 158).
  - split; [apply Z.div_pos; lia|].
    apply Z.le_lt_trans with m'; [|lia].
    apply Z.div_le_upper_bound; [lia|]. nia.
  - lia.
  - subst e'. lia.
Qed.

End Binary64Rounding.

(* ================================================================== *)
(** ** Binary64: zeros, finite numbers and numbers that compare equal   *)
(* ================================================================== *)

Section Binary64Numbers.

Local Open Scope float_scope.

Lemma is_finite_Prim2SF (x : float) :
  PrimFloat.is_finite x = SF_is_finite (Prim2SF x).
Proof.
  unfold PrimFloat.is_finite, PrimFloat.is_nan, PrimFloat.is_infinity.
  rewrite !FloatAxioms.eqb_spec, abs_spec.
  change (Prim2SF infinity) with (S754_infinity false).
  unfold SFeqb.
  destruct (Prim2SF x) as [s|s| |s m e] eqn:E; cbn [SFabs SF_is_finite].
  - reflexivity.
  - now destruct s.
  - reflexivity.
  - rewrite SFcompare_refl by discriminate. reflexivity.
Qed.

Lemma finite_not_nan (x : float) :
  SF_is_finite (Prim2SF x) = true -> Prim2SF x <> S754_nan.
Proof. intros F E. rewrite E in F. discriminate. Qed.

Lemma zero_is_finite (x : float) (s : bool) :
  Prim2SF x = S754_zero s -> SF_is_finite (Prim2SF x) = true.
Proof. now intros ->. Qed.

Lemma same_number_refl (x : float) : same_number x x.
Proof. now left. Qed.

Lemma same_number_sym (x y : float) : same_number x y -> same_number y x.
Proof.
  intros [E|(s & s' & E1 & E2)]; [now left | right; eauto].
Qed.

Lemma same_number_trans (x y z : float) :
  same_number x y -> same_number y z -> same_number x z.
Proof.
  intros [E|(s & s' & E1 & E2)] [F|(t & t' & F1 & F2)].
  - left. congruence.
  - right. exists t, t'. split; congruence.
  - right. exists s, s'. split; congruence.
  - right. eauto.
Qed.

Lemma same_number_finite (x c : float) :
  same_number x c -> SF_is_finite (Prim2SF x) = SF_is_finite (Prim2SF c).
Proof.
  intros [E|(s & s' & E1 & E2)]; [now rewrite E | now rewrite E1, E2].
Qed.

(** Numbers that are the same compare the same with every number. *)
Lemma same_number_compare (x c y : float) :
  same_number x c ->
  SFcompare (Prim2SF x) (Prim2SF y) = SFcompare (Prim2SF c) (Prim2SF y)
  /\ SFcompare (Prim2SF y) (Prim2SF x) = SFcompare (Prim2SF y) (Prim2SF c).
Proof.
  intros [E|(s & s' & E1 & E2)]; [now rewrite E|].
  rewrite E1, E2. now destruct (Prim2SF y).
Qed.

Lemma same_number_eqb (x c : float) :
  same_number x c -> Prim2SF c <> S754_nan -> PrimFloat.eqb x c = true.
Proof.
  intros S N. rewrite FloatAxioms.eqb_spec. unfold SFeqb.
  rewrite (proj1 (same_number_compare c S)).
  now rewrite SFcompare_refl.
Qed.

Lemma same_number_eqb_l (x c y : float) :
  same_number x c -> PrimFloat.eqb x y = PrimFloat.eqb c y.
Proof.
  intro S. rewrite !FloatAxioms.eqb_spec. unfold SFeqb.
  now rewrite (proj1 (same_number_compare y S)).
Qed.

Lemma same_number_ltb_r (x c y : float) :
  same_number x c -> PrimFloat.ltb y x = PrimFloat.ltb y c.
Proof.
  intro S. rewrite !FloatAxioms.ltb_spec. unfold SFltb.
  now rewrite (proj2 (same_number_compare y S)).
Qed.

(** Away from zero, being the same number is being equal. *)
Lemma same_number_eq (x c : float) :
  same_number x c -> PrimFloat.eqb c 0 = false -> x = c.
Proof.
  intros [E|(s & s' & E1 & E2)] Z; [now apply Prim2SF_inj|].
  rewrite FloatAxioms.eqb_spec, E2 in Z. discriminate.
Qed.

(** Numbers that compare equal are the same number. *)
Lemma eqb_same_number (x c : float) :
  PrimFloat.eqb x c = true -> same_number x c.
Proof.
  rewrite FloatAxioms.eqb_spec. unfold SFeqb, same_number.
  destruct (Prim2SF x) as [s|s| |s m e], (Prim2SF c) as [t|t| |t n f];
    cbn [SFcompare]; try discriminate;
    try (destruct s; discriminate); try (destruct t; discriminate).
  - intros _. right. eauto.
  - destruct s, t; try discriminate; intros _; now left.
  - destruct s, t; try discriminate;
      destruct (Z.compare_spec e f) as [->| |]; try discriminate;
      change (Pos.compare_cont Eq m n) with (Pos.compare m n);
      destruct (Pos.compare_spec m n) as [->| |]; try discriminate;
      intros _; now left.
Qed.

Lemma zero_mul_finite (z y : float) (s : bool) :
  Prim2SF z = S754_zero s -> SF_is_finite (Prim2SF y) = true ->
  exists s', Prim2SF (z * y) = S754_zero s'.
Proof.
  intros Z F. rewrite mul_spec, Z. unfold SF64mul, SFmul.
  destruct (Prim2SF y); try discriminate; eauto.
Qed.

Lemma finite_mul_zero (y z : float) (s : bool) :
  SF_is_finite (Prim2SF y) = true -> Prim2SF z = S754_zero s ->
  exists s', Prim2SF (y * z) = S754_zero s'.
Proof.
  intros F Z. rewrite mul_spec, Z. unfold SF64mul, SFmul.
  destruct (Prim2SF y); try discriminate; eauto.
Qed.

Lemma zero_mul_not_finite (z y : float) (s : bool) :
  Prim2SF z = S754_zero s -> SF_is_finite (Prim2SF y) = false ->
  Prim2SF (z * y) = S754_nan.
Proof.
  intros Z F. rewrite mul_spec, Z. unfold SF64mul, SFmul.
  destruct (Prim2SF y); try discriminate; reflexivity.
Qed.

Lemma zero_add (z y : float) (s : bool) :
  Prim2SF z = S754_zero s -> same_number (z + y) y.
Proof.
  intro Z. unfold same_number. rewrite add_spec, Z. unfold SF64add, SFadd.
  destruct (Prim2SF y) as [t|t| |t m e]; try (now left).
  right. destruct s, t; eauto.
Qed.

Lemma add_zero (y z : float) (s : bool) :
  Prim2SF z = S754_zero s -> same_number (y + z) y.
Proof.
  intro Z. unfold same_number. rewrite add_spec, Z. unfold SF64add, SFadd.
  destruct (Prim2SF y) as [t|t| |t m e]; try (now left).
  right. destruct s, t; eauto.
Qed.

Lemma sub_zero (y z : float) (s : bool) :
  Prim2SF z = S754_zero s -> same_number (y - z) y.
Proof.
  intro Z. unfold same_number. rewrite sub_spec, Z. unfold SF64sub, SFsub.
  destruct (Prim2SF y) as [t|t| |t m e]; try (now left).
  right. destruct s, t; eauto.
Qed.

Lemma nan_add_l (x y : float) :
  Prim2SF x = S754_nan -> Prim2SF (x + y) = S754_nan.
Proof. intro N. now rewrite add_spec, N. Qed.

(** The difference of a finite number with itself is a zero. *)
Lemma sub_same (a b : float) :
  same_number a b -> SF_is_finite (Prim2SF a) = true ->
  exists s, Prim2SF (a - b) = S754_zero s.
Proof.
  intros S F. rewrite sub_spec. unfold SF64sub, SFsub.
  destruct S as [E|(s & s' & E1 & E2)].
  - rewrite <- E. destruct (Prim2SF a) as [t|t| |t m e]; try discriminate.
    + destruct t; eauto.
    + rewrite Z.sub_diag. cbn [binary_normalize]. eauto.
  - rewrite E1, E2. destruct s, s'; eauto.
Qed.

Lemma sub_finite_operands (a b : float) :
  SF_is_finite (Prim2SF (b - a)) = true ->
  SF_is_finite (Prim2SF a) = true /\ SF_is_finite (Prim2SF b) = true.
Proof.
  rewrite sub_spec. unfold SF64sub, SFsub.
  destruct (Prim2SF b) as [s|s| |s m e], (Prim2SF a) as [t|t| |t n f];
    cbn [SF_is_finite]; try (intro; now split); try discriminate;
    destruct s, t; discriminate.
Qed.

Lemma zero_div (z d : float) (s sd : bool) (m : positive) (e : Z) :
  Prim2SF z = S754_zero s -> Prim2SF d = S754_finite sd m e ->
  Prim2SF (z / d) = S754_zero (xorb s sd).
Proof. intros Z D. now rewrite div_spec, Z, D. Qed.

Lemma div_finite_numerator (x d : float) (sd : bool) (m : positive) (e : Z) :
  Prim2SF d = S754_finite sd m e ->
  SF_is_finite (Prim2SF (x / d)) = true -> SF_is_finite (Prim2SF x) = true.
Proof.
  intro D. rewrite div_spec, D. unfold SF64div, SFdiv.
  destruct (Prim2SF x); cbn [SF_is_finite]; congruence.
Qed.

Lemma of_int_zero : Prim2SF (of_int (T:=float) 0) = S754_zero false.
Proof. reflexivity. Qed.

Lemma of_int_positive (z : Z) :
  (0 < z < 2 ^ 63)%Z ->
  exists m e,
    Prim2SF (of_int (T:=float) z) = S754_finite false m e
    /\ (-52 <= e <= 130)%Z.
Proof. apply float_of_int_positive. Qed.

(** The quotient of two integers that numpy forms is a number. *)
Lemma of_int_quotient_finite (i d : Z) :
  (0 <= i < 2 ^ 63)%Z -> (0 < d < 2 ^ 63)%Z ->
  SF_is_finite (Prim2SF (of_int (T:=float) i / of_int d)) = true.
Proof.
  intros Hi Hd. destruct (of_int_positive Hd) as (md & ed & D & Bd).
  destruct (Z.eq_dec i 0) as [->|Ni].
  - now rewrite (@zero_div _ _ _ _ _ _ of_int_zero D).
  - destruct (@of_int_positive i ltac:(lia)) as (mi & ei & I & Bi).
    rewrite div_spec, I, D.
    apply SFdiv_finite; try assumption.
    + exact (@finite_digits _ _ _ _ I).
    + exact (@finite_digits _ _ _ _ D).
Qed.

End Binary64Numbers.

(* ================================================================== *)
(** ** kraft.make_vector_grid on binary64                               *)
(* ================================================================== *)

Lemma all_nth {A : Type} (P : A -> Prop) (y : list A) (d : A) :
  (forall i, (i < length y)%nat -> P (nth i y d)) -> Forall P y.
Proof.
  intro Hn. apply Forall_forall. intros x Hx.
  destruct (In_nth _ _ d Hx) as (i & Hi & <-). now apply Hn.
Qed.

(** On every carrier, [vector.min()] and [vector.max()] of a non-empty
    vector return one of its elements. *)
Lemma reductions_in {T : Type} `{Number T} (vector : list T) :
  vector <> [] ->
  exists lo hi,
    ndarray_min vector = Ok lo /\ ndarray_max vector = Ok hi
    /\ In lo vector /\ In hi vector.
Proof.
  intro Hne. destruct vector as [|x rest]; [congruence|].
  assert (F : forall op : T -> T -> T,
                (forall a b, op a b = a \/ op a b = b) ->
                forall l a, In (fold_left op l a) (a :: l)).
  { intros op Hop. induction l as [|y l IH]; intro a; [now left|].
    cbn [fold_left]. destruct (IH (op a y)) as [E|Hin].
    - rewrite <- E. destruct (Hop a y) as [->| ->]; [now left | right; now left].
    - right. now right. }
  do 2 eexists. split; [reflexivity|]. split; [reflexivity|]. split; apply F.
  - intros a b. unfold min_step. destruct (_ || _); auto.
  - intros a b. unfold max_step. destruct (_ || _); auto.
Qed.

Section Binary64Grid.

Local Open Scope float_scope.

(** With two points or more and a step that is a number, the first point
    [linspace] computes is the start. *)
Lemma linspace_first_point (start stop : float) (num : Z) :
  (2 <= num <= 2 ^ 63)%Z ->
  PrimFloat.is_finite ((stop - start) / of_int (num - 1)) = true ->
  same_number (linspace_point start stop num 0) start.
Proof.
  intros Hn F. rewrite is_finite_Prim2SF in F.
  destruct (@of_int_positive (num - 1)) as (m & e & D & _); [lia|].
  pose proof (@div_finite_numerator _ _ _ _ _ D F) as Fd.
  unfold linspace_point.
  destruct (Z.ltb_spec 0 (num - 1)); [|lia].
  change (Z.of_nat 0) with 0%Z. cbv zeta.
  destruct (eqb _ _).
  - pose proof (@zero_div _ _ _ _ _ _ of_int_zero D) as Q.
    destruct (@zero_mul_finite _ (stop - start) _ Q Fd) as (s' & M).
    exact (@zero_add _ start _ M).
  - destruct (@zero_mul_finite _ _ _ of_int_zero F) as (s' & M).
    exact (@zero_add _ start _ M).
Qed.

(** The one point [linspace] returns for [num = 1]. *)
Lemma linspace_single_point (start stop : float) :
  linspace start stop 1 = Ok [0 * (stop - start) + start]
  /\ (PrimFloat.is_finite (stop - start) = true ->
      same_number (0 * (stop - start) + start) start)
  /\ (PrimFloat.is_finite (stop - start) = false ->
      PrimFloat.is_nan (0 * (stop - start) + start) = true).
Proof.
  split; [reflexivity|]. rewrite is_finite_Prim2SF. split; intro F.
  - destruct (@zero_mul_finite _ _ _ of_int_zero F) as (s' & M).
    exact (@zero_add _ start _ M).
  - apply is_nan_Prim2SF. apply nan_add_l.
    exact (@zero_mul_not_finite _ _ _ of_int_zero F).
Qed.

(** Between two ends that are the same finite number, every point is
    that number. *)
Lemma linspace_degenerate (start stop c : float) (num : Z) :
  same_number start c -> same_number stop c ->
  SF_is_finite (Prim2SF c) = true -> (0 <= num <= 2 ^ 63)%Z ->
  exists y,
    linspace start stop num = Ok y
    /\ length y = Z.to_nat num
    /\ Forall (fun p => same_number p c) y.
Proof.
  intros Ss St Fc Hn.
  assert (Fstop : SF_is_finite (Prim2SF stop) = true)
    by now rewrite (same_number_finite St).
  destruct (@sub_same stop start
              (same_number_trans St (same_number_sym Ss)) Fstop)
    as (sd & Dz).
  destruct (Z.eq_dec num 0) as [->|N0];
    [exists []; repeat split; constructor|].
  destruct (Z.eq_dec num 1) as [->|N1].
  - eexists. split; [reflexivity|]. split; [reflexivity|].
    constructor; [|constructor].
    destruct (@zero_mul_finite _ _ _ of_int_zero (zero_is_finite _ Dz))
      as (s' & M).
    exact (same_number_trans (@zero_add _ start _ M) Ss).
  - assert (H2 : (2 <= num)%Z) by lia.
    destruct (linspace_two_or_more start stop H2) as (y & E & L & Hp & Hlast).
    exists y. split; [exact E|]. split; [exact L|].
    apply all_nth with (d := c). intros i Hi.
    destruct (Nat.eq_dec i (Z.to_nat num - 1)) as [->|Ni];
      [now rewrite Hlast|].
    rewrite Hp by lia.
    destruct (@of_int_positive (num - 1)) as (m & e & D & _); [lia|].
    unfold linspace_point. destruct (Z.ltb_spec 0 (num - 1)); [|lia].
    cbv zeta.
    match goal with
    | |- context [if ?b then _ else _] => assert (Es : b = true)
    end.
    { cbn [eqb Binary64]. rewrite FloatAxioms.eqb_spec.
      cbn [div sub Binary64].
      now rewrite (@zero_div _ _ _ _ _ _ Dz D), of_int_zero. }
    rewrite Es.
    assert (Q : SF_is_finite
                  (Prim2SF (of_int (T:=float) (Z.of_nat i) / of_int (num - 1)))
                = true)
      by (apply of_int_quotient_finite; lia).
    destruct (@finite_mul_zero _ _ _ Q Dz) as (s' & M).
    exact (same_number_trans (@zero_add _ start _ M) Ss).
Qed.

(** The Grid Builder over a column whose entries all equal one finite
    value. *)
Lemma make_vector_grid_constant (vector : list float) (c fraction : float)
  (n_grid : Z) :
  vector <> [] -> Forall (fun x => PrimFloat.eqb x c = true) vector ->
  PrimFloat.is_finite c = true -> PrimFloat.is_finite fraction = true ->
  (0 <= n_grid <= 2 ^ 63)%Z ->
  exists lo hi grid,
    ndarray_min vector = Ok lo /\ ndarray_max vector = Ok hi
    /\ PrimFloat.eqb lo c = true /\ PrimFloat.eqb hi c = true
    /\ PrimFloat.eqb (hi - lo) 0 = true
    /\ PrimFloat.eqb ((hi - lo) * fraction) 0 = true
    /\ make_vector_grid vector None None fraction n_grid = Ok grid
    /\ length grid = Z.to_nat n_grid
    /\ Forall (fun p => same_number p c) grid.
Proof.
  intros Hne Hc Fc Ff Hn. rewrite is_finite_Prim2SF in Fc, Ff.
  destruct (reductions_in Hne) as (lo & hi & Emin & Emax & Ilo & Ihi).
  rewrite Forall_forall in Hc.
  pose proof (Hc lo Ilo) as Elo. pose proof (Hc hi Ihi) as Ehi.
  pose proof (eqb_same_number Elo) as Slo.
  pose proof (eqb_same_number Ehi) as Shi.
  assert (Fhi : SF_is_finite (Prim2SF hi) = true)
    by now rewrite (same_number_finite Shi).
  destruct (@sub_same hi lo
              (same_number_trans Shi (same_number_sym Slo)) Fhi)
    as (sr & R).
  destruct (@zero_mul_finite _ _ _ R Ff) as (se & X).
  pose proof (same_number_trans (@sub_zero lo _ _ X) Slo) as Ss.
  pose proof (same_number_trans (@add_zero hi _ _ X) Shi) as St.
  destruct (linspace_degenerate Ss St Fc Hn) as (grid & E & L & F).
  exists lo, hi, grid. repeat (split; [assumption|]).
  split; [now rewrite FloatAxioms.eqb_spec, R|].
  split; [now rewrite FloatAxioms.eqb_spec, X|].
  split; [|split; assumption].
  unfold make_vector_grid, or_else. rewrite Emin, Emax. exact E.
Qed.

End Binary64Grid.

Section Binary64GridClaims.

Local Open Scope float_scope.

Lemma same_number_ltb_l (x c y : float) :
  same_number x c -> PrimFloat.ltb x y = PrimFloat.ltb c y.
Proof.
  intro S. rewrite !FloatAxioms.ltb_spec. unfold SFltb.
  now rewrite (proj1 (same_number_compare y S)).
Qed.

(** A step that is a number comes from two ends that are numbers. *)
Lemma finite_step_finite_ends (start stop : float) (num : Z) :
  (2 <= num <= 2 ^ 63)%Z ->
  PrimFloat.is_finite ((stop - start) / of_int (num - 1)) = true ->
  SF_is_finite (Prim2SF start) = true /\ SF_is_finite (Prim2SF stop) = true.
Proof.
  intros Hn F. rewrite is_finite_Prim2SF in F.
  destruct (@of_int_positive (num - 1)) as (m & e & D & _); [lia|].
  apply sub_finite_operands. exact (@div_finite_numerator _ _ _ _ _ D F).
Qed.

(** What [linspace] returns on binary64, with two points or more and a
    step that is a number. *)
Lemma linspace_binary64 (start stop : float) (num : Z) (y : list float) :
  linspace start stop num = Ok y ->
  (2 <= num <= 2 ^ 63)%Z ->
  let step := (stop - start) / of_int (num - 1) in
  PrimFloat.is_finite step = true ->
  PrimFloat.eqb (nth 0 y nan) start = true
  /\ (PrimFloat.eqb start 0 = false -> nth 0 y nan = start)
  /\ nth (Z.to_nat num - 1) y nan = stop
  /\ PrimFloat.ltb (nth 0 y nan) (nth (Z.to_nat num - 1) y nan)
     = PrimFloat.ltb start stop
  /\ PrimFloat.ltb (nth (Z.to_nat num - 1) y nan) (nth 0 y nan)
     = PrimFloat.ltb stop start
  /\ (PrimFloat.eqb step 0 = false ->
      forall i, (i < Z.to_nat num - 1)%nat ->
        nth i y nan = of_int (Z.of_nat i) * step + start).
Proof.
  intros E Hn step F.
  destruct (@linspace_two_or_more _ _ start stop num ltac:(lia))
    as (y' & E' & _ & Hp & Hlast).
  assert (y' = y) by congruence. subst y'.
  pose proof (linspace_first_point start stop Hn F) as S0.
  destruct (finite_step_finite_ends start stop Hn F) as [Fs _].
  rewrite <- (Hp 0%nat nan) in S0 by lia.
  split; [exact (same_number_eqb S0 (finite_not_nan _ Fs))|].
  split; [exact (same_number_eq S0)|].
  split; [apply Hlast|].
  rewrite Hlast.
  split; [exact (same_number_ltb_l stop S0)|].
  split; [exact (same_number_ltb_r stop S0)|].
  intros Hs i Hi. rewrite (Hp i nan Hi). unfold linspace_point.
  destruct (Z.ltb_spec 0 (num - 1)); [|lia]. cbv zeta.
  match goal with
  | |- context [if ?b then _ else _] => change b with (PrimFloat.eqb step 0)
  end.
  rewrite Hs. reflexivity.
Qed.

(** C4 (as amended).  On binary64, with a resolved lower bound [lo] and
    upper bound [hi] (the caller's override, else what [vector.min()] and
    [vector.max()] return), a resolution of two points or more and a step
    that is a finite number, [make_vector_grid] computes
    [range = hi - lo], [extension = range * fraction],
    [start = lo - extension], [stop = hi + extension] and returns exactly
    [n_grid] points: the first one equals [start] (it is [start] itself
    unless [start] is a zero), the last one is [stop] itself, so the grid
    begins below where it ends exactly when [start < stop]; and every
    point before the last is [i * step + start] as binary64 computes it
    (two roundings), with the one [step = (stop - start) / (n_grid - 1)],
    when that step is not zero. *)
Theorem make_vector_grid_spans_the_extended_range
  (vector : list float) (grid_min grid_max : option float) (fraction : float)
  (n_grid : Z) (lo hi : float) :
  or_else grid_min ndarray_min vector = Ok lo ->
  or_else grid_max ndarray_max vector = Ok hi ->
  (2 <= n_grid <= 2 ^ 63)%Z ->
  let range := hi - lo in
  let extension := range * fraction in
  let start := lo - extension in
  let stop := hi + extension in
  let step := (stop - start) / of_int (n_grid - 1) in
  PrimFloat.is_finite step = true ->
  exists grid,
    make_vector_grid vector grid_min grid_max fraction n_grid = Ok grid
    /\ length grid = Z.to_nat n_grid
    /\ PrimFloat.eqb (nth 0 grid nan) start = true
    /\ (PrimFloat.eqb start 0 = false -> nth 0 grid nan = start)
    /\ nth (Z.to_nat n_grid - 1) grid nan = stop
    /\ PrimFloat.ltb (nth 0 grid nan) (nth (Z.to_nat n_grid - 1) grid nan)
       = PrimFloat.ltb start stop
    /\ (PrimFloat.eqb step 0 = false ->
        forall i, (i < Z.to_nat n_grid - 1)%nat ->
          nth i grid nan = of_int (Z.of_nat i) * step + start).
Proof.
  intros Elo Ehi Hn range extension start stop step F.
  rewrite (@make_vector_grid_resolved _ _ vector grid_min grid_max fraction
             n_grid lo hi Elo Ehi).
  destruct (proj2 (linspace_returns start stop n_grid) ltac:(lia)) as (grid & E).
  exists grid. split; [exact E|].
  destruct (linspace_shape _ _ _ nan E) as (_ & L & _).
  split; [exact L|].
  destruct (linspace_binary64 _ _ E Hn F) as (H0 & H0' & Hl & Hlt & _ & Hi).
  repeat (split; [assumption|]). exact Hi.
Qed.

(** C8 (as amended).  On binary64, with both overrides supplied, in
    whatever order: the vector is not read and nothing is checked; the
    call raises exactly when [n_grid] is negative (a [ValueError]) and
    returns [n_grid] points otherwise.  With
    [extension = (grid_max - grid_min) * fraction],
    [start = grid_min - extension], [stop = grid_max + extension], two
    points or more and a step that is a finite number, the first point
    equals [start], the last one is [stop], so the grid ends below where it
    begins exactly when [stop < start]; the points before the last are
    [i * step + start] as binary64 computes them, when the step is not
    zero. *)
Theorem make_vector_grid_accepts_reversed_overrides
  (vector : list float) (grid_min grid_max fraction : float) (n_grid : Z) :
  let range := grid_max - grid_min in
  let extension := range * fraction in
  let start := grid_min - extension in
  let stop := grid_max + extension in
  let step := (stop - start) / of_int (n_grid - 1) in
  make_vector_grid vector (Some grid_min) (Some grid_max) fraction n_grid
  = make_vector_grid [] (Some grid_min) (Some grid_max) fraction n_grid
  /\ ((n_grid < 0)%Z ->
      make_vector_grid vector (Some grid_min) (Some grid_max) fraction n_grid
      = Raise ValueError)
  /\ ((0 <= n_grid)%Z ->
      exists grid,
        make_vector_grid vector (Some grid_min) (Some grid_max) fraction n_grid
        = Ok grid
        /\ length grid = Z.to_nat n_grid
        /\ ((2 <= n_grid <= 2 ^ 63)%Z ->
            PrimFloat.is_finite step = true ->
            PrimFloat.eqb (nth 0 grid nan) start = true
            /\ nth (Z.to_nat n_grid - 1) grid nan = stop
            /\ PrimFloat.ltb (nth (Z.to_nat n_grid - 1) grid nan)
                             (nth 0 grid nan)
               = PrimFloat.ltb stop start
            /\ (PrimFloat.eqb step 0 = false ->
                forall i, (i < Z.to_nat n_grid - 1)%nat ->
                  nth i grid nan = of_int (Z.of_nat i) * step + start))).
Proof.
  intros range extension start stop step.
  split; [reflexivity|]. split.
  - intro Hn. unfold make_vector_grid, linspace. cbn [or_else bind].
    destruct (Z.ltb_spec n_grid 0); [reflexivity | lia].
  - intro Hn.
    destruct (proj2 (linspace_returns start stop n_grid) Hn) as (grid & E).
    exists grid. split; [exact E|].
    destruct (linspace_shape _ _ _ nan E) as (_ & L & _).
    split; [exact L|]. intros H2 F.
    destruct (linspace_binary64 _ _ E H2 F) as (H0 & _ & Hl & _ & Hgt & Hi).
    repeat (split; [assumption|]). exact Hi.
Qed.

(** C9 (as amended).  On binary64, with [n_grid = 1] the grid is the one
    point [0 * (stop - start) + start], where [start = lo - extension] and
    [stop = hi + extension].  When [stop - start] is a finite number that
    point equals the lower end [start] (it is [start] itself unless [start]
    is a zero), and it equals the upper end [stop] exactly when the two
    ends are equal; when [stop - start] is not a finite number the point is
    NaN. *)
Theorem make_vector_grid_single_point
  (vector : list float) (grid_min grid_max : option float)
  (fraction lo hi : float) :
  or_else grid_min ndarray_min vector = Ok lo ->
  or_else grid_max ndarray_max vector = Ok hi ->
  let extension := (hi - lo) * fraction in
  let start := lo - extension in
  let stop := hi + extension in
  exists p,
    make_vector_grid vector grid_min grid_max fraction 1 = Ok [p]
    /\ p = 0 * (stop - start) + start
    /\ (PrimFloat.is_finite (stop - start) = true ->
        PrimFloat.eqb p start = true
        /\ (PrimFloat.eqb start 0 = false -> p = start)
        /\ PrimFloat.eqb p stop = PrimFloat.eqb start stop)
    /\ (PrimFloat.is_finite (stop - start) = false ->
        PrimFloat.is_nan p = true).
Proof.
  intros Elo Ehi extension start stop.
  rewrite (@make_vector_grid_resolved _ _ vector grid_min grid_max fraction
             1 lo hi Elo Ehi).
  destruct (linspace_single_point start stop) as (E & Hf & Hn).
  eexists. split; [exact E|]. split; [reflexivity|]. split; [|exact Hn].
  intro F. specialize (Hf F).
  rewrite is_finite_Prim2SF in F.
  destruct (sub_finite_operands _ _ F) as [Fs _].
  split; [exact (same_number_eqb Hf (finite_not_nan _ Fs))|].
  split; [exact (same_number_eq Hf)|].
  exact (same_number_eqb_l stop Hf).
Qed.

End Binary64GridClaims.

(** The spec's run: minimum 0, maximum 10, fraction 0.1 and five points
    give exactly -1, 2, 5, 8 and 11. *)
Lemma make_vector_grid_spans_the_extended_range_witness :
  make_vector_grid [0; 3; 10]%float None None float_tenth 5
  = Ok [-1; 2; 5; 8; 11]%float
  /\ (forall i, (i < 4)%nat ->
        nth i [-1; 2; 5; 8; 11]%float nan
        = (of_int (Z.of_nat i) * 3 + -1)%float).
Proof.
  destruct (@make_vector_grid_spans_the_extended_range
              [0; 3; 10]%float None None float_tenth 5 0%float 10%float
              eq_refl eq_refl ltac:(lia) ltac:(vm_compute; reflexivity))
    as (grid & E & _ & _ & _ & _ & _ & Hi).
  assert (R : make_vector_grid [0; 3; 10]%float None None float_tenth 5
              = Ok [-1; 2; 5; 8; 11]%float) by (vm_compute; reflexivity).
  split; [exact R|].
  assert (grid = [-1; 2; 5; 8; 11]%float) by congruence. subst grid.
  intros i Hlt. apply (Hi ltac:(vm_compute; reflexivity)). simpl. lia.
Defined.

(** Overrides 10 and 0 with fraction 0.1: the grid runs from 11 down
    to -1. *)
Lemma make_vector_grid_accepts_reversed_overrides_witness :
  exists grid,
    make_vector_grid [5]%float (Some 10%float) (Some 0%float) float_tenth 5
    = Ok grid
    /\ length grid = 5%nat
    /\ PrimFloat.eqb (nth 0 grid nan) 11 = true
    /\ nth 4 grid nan = (-1)%float.
Proof.
  destruct (@make_vector_grid_accepts_reversed_overrides
              [5]%float 10%float 0%float float_tenth 5)
    as (_ & _ & R).
  destruct (R ltac:(lia)) as (grid & E & L & H).
  destruct (H ltac:(lia) ltac:(vm_compute; reflexivity)) as (H0 & H4 & _).
  exists grid. repeat split; assumption.
Defined.

Lemma make_vector_grid_single_point_witness :
  exists p,
    make_vector_grid [0; 3; 10]%float None None float_tenth 1 = Ok [p]
    /\ PrimFloat.eqb p (-1) = true
    /\ PrimFloat.eqb p 11 = false.
Proof.
  destruct (@make_vector_grid_single_point
              [0; 3; 10]%float None None float_tenth 0%float 10%float
              eq_refl eq_refl)
    as (p & E & _ & F & _).
  destruct (F ltac:(vm_compute; reflexivity)) as (H0 & _ & H1).
  exists p. split; [exact E|]. split; [exact H0|].
  exact (eq_trans H1 eq_refl).
Defined.

(** C4, the claim as stated fails.  With [n_grid = 1] the grid over a
    vector with minimum 0 and maximum 10 is the single point -1, and the
    upper end 11 is not in it.  Over a vector whose range overflows, the
    four points are NaN three times and plus infinity: neither end of the
    interval is reached and nothing is spaced.  And between 0 and 1 with
    eleven points, the gap between the first two points is not the gap
    between the next two: the spacing is even up to rounding only. *)
Lemma grid_can_miss_an_end_or_even_spacing :
  make_vector_grid (T:=float) [0; 10]%float None None float_tenth 1
  = Ok [(-1)%float]
  /\ PrimFloat.eqb (-1) (10 + (10 - 0) * float_tenth) = false
  /\ make_vector_grid (T:=float) [-0x1p1023; 0x1p1023]%float None None
       float_tenth 4
     = Ok [nan; nan; nan; infinity]
  /\ exists g0 g1 g2 g3 rest,
       make_vector_grid (T:=float) [0; 1]%float None None 0%float 11
       = Ok (g0 :: g1 :: g2 :: g3 :: rest)
       /\ PrimFloat.eqb (g1 - g0) (g3 - g2) = false.
Proof.
  split; [vm_compute; reflexivity|]. split; [vm_compute; reflexivity|].
  split; [vm_compute; reflexivity|].
  do 5 eexists. split; vm_compute; reflexivity.
Qed.

(** C5, the claim as stated fails.  Over a constant column the grid
    repeats one value.  Over the column 1, 1 + 2^-52, whose minimum is
    below its maximum, the five points are 1, 1, 1, 1 + 2^-52 and
    1 + 2^-52: neighbours coincide, the grid is not strictly increasing and
    its spacing is not constant. *)
Lemma grid_can_repeat_a_point :
  make_vector_grid (T:=float) [3; 3]%float None None float_tenth 3
  = Ok [3; 3; 3]%float
  /\ PrimFloat.ltb 1 float_above_one = true
  /\ make_vector_grid (T:=float) [1; float_above_one]%float None None
       float_tenth 5
     = Ok [1; 1; 1; float_above_one; float_above_one]%float
  /\ PrimFloat.ltb 1 1 = false
  /\ PrimFloat.eqb (1 - 1) (float_above_one - 1) = false.
Proof. repeat split; vm_compute; reflexivity. Qed.

(** C8, the claim as stated fails.  With overrides 10 and 0 and the
    fraction -1 the three points are 0, 5 and 10, an increasing grid; with
    [n_grid = -1] the call raises; with overrides 1 + 2^-52 and 1 the five
    points are 1 + 2^-52 twice and 1 three times, so neighbours coincide
    and the grid is not strictly decreasing. *)
Lemma reversed_overrides_can_fail_to_decrease :
  PrimFloat.ltb 0 10 = true
  /\ make_vector_grid (T:=float) [] (Some 10%float) (Some 0%float)
       (-1)%float 3
     = Ok [0; 5; 10]%float
  /\ make_vector_grid (T:=float) [] (Some 10%float) (Some 0%float)
       float_tenth (-1)
     = Raise ValueError
  /\ PrimFloat.ltb 1 float_above_one = true
  /\ make_vector_grid (T:=float) [] (Some float_above_one) (Some 1%float)
       float_tenth 5
     = Ok [float_above_one; float_above_one; 1; 1; 1]%float
  /\ PrimFloat.ltb float_above_one float_above_one = false.
Proof. repeat split; vm_compute; reflexivity. Qed.

(** C9, the claim as stated fails.  Over a vector with minimum 0 and
    maximum 10, whose range is not zero, and with the fraction -1/2, the
    single point is 5, which is the upper end [10 + (10 - 0) * (-1/2)]
    as well as the lower one. *)
Lemma one_point_grid_can_be_the_upper_end :
  PrimFloat.eqb (10 - 0) 0 = false
  /\ make_vector_grid (T:=float) [0; 10]%float None None (-0.5)%float 1
     = Ok [5%float]
  /\ (10 + (10 - 0) * (-0.5))%float = 5%float
  /\ (0 - (10 - 0) * (-0.5))%float = 5%float.
Proof. repeat split; vm_compute; reflexivity. Qed.

(* ================================================================== *)
(** ** Constant columns, on binary64                                    *)
(* ================================================================== *)

Section Binary64ConstantColumn.

Local Open Scope float_scope.

Variable ALMOST_ZERO : float.
Variable DIMENSION_FRACTION_GRID_EXTENSION : float.
Variable DIMENSION_N_GRID : Z.
Variable compute_vector_bandwidth : list float -> result float.
Variable FFTKDE :
  list float -> ndarray2 float -> list (list float) -> result (list float).
Variable plot_mesh_grid : list (list float) -> list float -> result unit.

(** The floor constant is a positive number. *)
Hypothesis floor_positive : PrimFloat.ltb 0 ALMOST_ZERO = true.

Let estimate :=
  estimate_element_x_dimension_kernel_density
    ALMOST_ZERO DIMENSION_FRACTION_GRID_EXTENSION DIMENSION_N_GRID
    compute_vector_bandwidth FFTKDE plot_mesh_grid.

Let bandwidths_of := resolved_bandwidths compute_vector_bandwidth.

Let grids_of :=
  resolved_grids DIMENSION_FRACTION_GRID_EXTENSION DIMENSION_N_GRID.

(** C6 (as amended).  On binary64, let column [j] of the matrix be
    non-empty with every entry equal to one finite value [c], with no
    override of its bounds, a finite extension fraction and a resolution
    between 0 and 2^63.  Then the Grid Builder raises nothing for that
    column: minimum and maximum both equal [c], the range and the
    extension are zero, and the Dimension Grid is [n_grid] points that all
    equal [c] ([n_grid] copies of [c] itself unless [c] is a zero).  The
    Density Evaluator has no
    check of its own on the column, and whether the call returns is up to
    its collaborators: when the bandwidths and the grids are resolved, the
    grid of column [j] is that degenerate grid and the mesh built on it is
    handed to the kernel evaluator; if the evaluator raises, the call
    raises the same exception; if it returns (and so does the plot, when
    asked for), the call returns the mesh with the evaluator's output
    clamped at [ALMOST_ZERO], an entry being at or above the floor when the
    raw value is a number, and NaN when the raw value is NaN. *)
Theorem constant_column_degenerates_the_grid
  (X : ndarray2 float) (j : nat) (c fraction_j : float) (n_grid_j : Z)
  (bandwidths factors : option (list float))
  (mins maxs : option (list (option float)))
  (fractions : option (list float)) (n_grids : option (list Z))
  (plot : bool) :
  let d := n_col X in
  let settings_mins := or_tuple_of mins None d in
  let settings_maxs := or_tuple_of maxs None d in
  let settings_fractions :=
    or_tuple_of fractions DIMENSION_FRACTION_GRID_EXTENSION d in
  let settings_n_grids := or_tuple_of n_grids DIMENSION_N_GRID d in
  (j < d)%nat ->
  column j X <> [] ->
  Forall (fun x => PrimFloat.eqb x c = true) (column j X) ->
  PrimFloat.is_finite c = true ->
  nth_error settings_mins j = Some None ->
  nth_error settings_maxs j = Some None ->
  nth_error settings_fractions j = Some fraction_j ->
  nth_error settings_n_grids j = Some n_grid_j ->
  PrimFloat.is_finite fraction_j = true ->
  (0 <= n_grid_j <= 2 ^ 63)%Z ->
  exists lo hi grid_j,
    ndarray_min (column j X) = Ok lo
    /\ ndarray_max (column j X) = Ok hi
    /\ PrimFloat.eqb lo c = true
    /\ PrimFloat.eqb hi c = true
    /\ PrimFloat.eqb (hi - lo) 0 = true
    /\ PrimFloat.eqb ((hi - lo) * fraction_j) 0 = true
    /\ dimension_grid X settings_mins settings_maxs settings_fractions
                      settings_n_grids j
       = Ok grid_j
    /\ length grid_j = Z.to_nat n_grid_j
    /\ Forall (fun p => PrimFloat.eqb p c = true) grid_j
    /\ (PrimFloat.eqb c 0 = false -> grid_j = repeat c (Z.to_nat n_grid_j))
    /\ forall bw grids,
         bandwidths_of X bandwidths factors = Ok bw ->
         grids_of X mins maxs fractions n_grids = Ok grids ->
         let mesh := make_mesh_grid_point_x_dimension grids in
         nth_error grids j = Some grid_j
         /\ (forall e,
               FFTKDE bw X mesh = Raise e ->
               estimate X bandwidths factors mins maxs fractions n_grids plot
               = Raise e)
         /\ (forall raw,
               FFTKDE bw X mesh = Ok raw ->
               (plot = true ->
                plot_mesh_grid mesh (clip ALMOST_ZERO raw) = Ok tt) ->
               estimate X bandwidths factors mins maxs fractions n_grids plot
               = Ok (mesh, clip ALMOST_ZERO raw)
               /\ forall i r,
                    nth_error raw i = Some r ->
                    exists v,
                      nth_error (clip ALMOST_ZERO raw) i = Some v
                      /\ (PrimFloat.is_nan r = false ->
                          PrimFloat.leb ALMOST_ZERO v = true)
                      /\ (PrimFloat.is_nan r = true ->
                          PrimFloat.is_nan v = true)).
Proof.
  intros d settings_mins settings_maxs settings_fractions settings_n_grids
    Hj Hne Hc Fc Omin Omax Ofr Ong Ff Hn.
  destruct (make_vector_grid_constant fraction_j Hne Hc Fc Ff Hn)
    as (lo & hi & grid_j & Emin & Emax & Elo & Ehi & Hr & He & Eg & Lg & Fg).
  assert (Ed : dimension_grid X settings_mins settings_maxs settings_fractions
                 settings_n_grids j = Ok grid_j).
  { unfold dimension_grid, getitem.
    rewrite Omin, Omax, Ofr, Ong. exact Eg. }
  assert (Nc : Prim2SF c <> S754_nan).
  { apply finite_not_nan. now rewrite <- is_finite_Prim2SF. }
  exists lo, hi, grid_j. repeat (split; [assumption|]).
  split.
  { apply Forall_forall. intros p Hp. rewrite Forall_forall in Fg.
    exact (same_number_eqb (Fg p Hp) Nc). }
  split.
  { intro Hz. rewrite <- Lg. apply Forall_eq_repeat.
    apply Forall_forall. intros p Hp. rewrite Forall_forall in Fg.
    symmetry. exact (same_number_eq (Fg p Hp) Hz). }
  intros bw grids Ebw Egrids mesh. split; [|split].
  - unfold grids_of, resolved_grids in Egrids.
    destruct (@for_each_nth _ _ _ _ _ j j Egrids) as (g & Ej & Nj).
    + unfold range. rewrite nth_error_seq.
      fold d. destruct (Nat.ltb_spec j d); [reflexivity | lia].
    + fold d in Ej. fold settings_mins settings_maxs settings_fractions
        settings_n_grids in Ej. congruence.
  - intros e Ee. unfold estimate. rewrite estimate_stages.
    fold bandwidths_of grids_of. rewrite Ebw, Egrids. cbn [bind].
    fold mesh. now rewrite Ee.
  - intros raw Eraw Hplot. split.
    + unfold estimate. rewrite estimate_stages.
      fold bandwidths_of grids_of. rewrite Ebw, Egrids. cbn [bind].
      fold mesh. rewrite Eraw. cbn [bind].
      destruct plot; [rewrite (Hplot eq_refl)|]; reflexivity.
    + intros i r Hr'. exists (maximum r ALMOST_ZERO). split.
      * unfold clip. rewrite nth_error_map, Hr'. reflexivity.
      * destruct (clamp_entry r floor_positive) as (Hnan & _ & _ & _ & Hnum).
        split.
        -- intro N. now destruct (Hnum N).
        -- intro N. now rewrite (Hnan N).
Qed.

End Binary64ConstantColumn.

(** Two rows, the second column constant at 7. *)
Lemma constant_column_degenerates_the_grid_witness :
  exists grid_j,
    make_vector_grid
      (column 1 {| n_col := 2; rows := [[0; 7]; [10; 7]]%float |})
      None None float_tenth 2
    = Ok grid_j
    /\ grid_j = [7; 7]%float.
Proof.
  destruct (@constant_column_degenerates_the_grid
              float_eps float_tenth 100 (constant_bandwidth 1%float)
              (constant_kernel 0%float) no_plot eq_refl
              {| n_col := 2; rows := [[0; 7]; [10; 7]]%float |} 1%nat
              7%float float_tenth 2
              None None None None None (Some [3; 2]%Z) false
              ltac:(simpl; lia) ltac:(discriminate)
              ltac:(repeat constructor) eq_refl
              eq_refl eq_refl eq_refl eq_refl
              ltac:(vm_compute; reflexivity) ltac:(lia))
    as (lo & hi & grid_j & _ & _ & _ & _ & _ & _ & Ed & _ & _ & Hrep & _).
  exists grid_j. split; [exact Ed|].
  exact (Hrep ltac:(vm_compute; reflexivity)).
Defined.

(** C6, the claim as stated fails: over a constant column the call hands
    the degenerate mesh to the kernel evaluator, and what comes back is
    what the caller gets.  When the evaluator answers NaN at each of the
    three points of the mesh, the Density Surface returned is NaN three
    times, which is not at or above the floor; when the evaluator raises,
    the call raises. *)
Lemma constant_column_outcome_is_up_to_the_kernel :
  estimate_element_x_dimension_kernel_density (T:=float)
    float_eps float_tenth 100 (constant_bandwidth 1%float)
    (constant_kernel nan) no_plot
    {| n_col := 1; rows := [[7]; [7]]%float |}
    None None None None None (Some [3%Z]) false
  = Ok ([[7]; [7]; [7]]%float, [nan; nan; nan]%float)
  /\ PrimFloat.leb float_eps nan = false
  /\ estimate_element_x_dimension_kernel_density (T:=float)
       float_eps float_tenth 100 (constant_bandwidth 1%float)
       (failing_kernel LibraryError) no_plot
       {| n_col := 1; rows := [[7]; [7]]%float |}
       None None None None None (Some [3%Z]) false
     = Raise LibraryError.
Proof. repeat split; vm_compute; reflexivity. Qed.

Example constant_column_run_binary64 :
  make_vector_grid (T:=float) [3.5; 3.5; 3.5]%float None None float_tenth 4
  = Ok [3.5; 3.5; 3.5; 3.5]%float.
Proof. vm_compute. reflexivity. Qed.

(* ################################################################## *)
(** * Further properties                                                *)
(* ################################################################## *)

(* ================================================================== *)
(** ** ccal.support.get_unique_in_order                                 *)
(* ================================================================== *)

Section GetUniqueInOrderFacts.

Context {A : Type}.
Variable eq_dec : forall x y : A, {x = y} + {x <> y}.

Let step := append_if_new eq_dec.

Lemma append_if_new_in (acc : list A) (x y : A) :
  In y (step acc x) <-> In y acc \/ y = x.
Proof.
  unfold step, append_if_new. destruct (in_dec eq_dec x acc) as [Hin|Hout].
  - split; [now left | intros [Hy| ->]; assumption].
  - rewrite in_app_iff. simpl. intuition congruence.
Qed.

Lemma append_if_new_nodup (acc : list A) (x : A) :
  NoDup acc -> NoDup (step acc x).
Proof.
  intro N. unfold step, append_if_new.
  destruct (in_dec eq_dec x acc) as [Hin|Hout]; [exact N|].
  apply NoDup_app; [exact N | repeat constructor; intros [] | ].
  intros y Hy [<-|[]]. contradiction.
Qed.

Lemma loop_in (iterable acc : list A) (y : A) :
  In y (fold_left step iterable acc) <-> In y acc \/ In y iterable.
Proof.
  revert acc. induction iterable as [|x rest IH]; intro acc; simpl.
  - tauto.
  - rewrite IH, append_if_new_in. intuition congruence.
Qed.

Lemma loop_nodup (iterable acc : list A) :
  NoDup acc -> NoDup (fold_left step iterable acc).
Proof.
  revert acc. induction iterable as [|x rest IH]; intros acc N; simpl.
  - exact N.
  - apply IH. now apply append_if_new_nodup.
Qed.

Lemma loop_length (iterable acc : list A) :
  (length (fold_left step iterable acc) <= length acc + length iterable)%nat.
Proof.
  revert acc. induction iterable as [|x rest IH]; intro acc; simpl; [lia|].
  specialize (IH (step acc x)).
  assert ((length (step acc x) <= S (length acc))%nat).
  { unfold step, append_if_new. destruct (in_dec eq_dec x acc); [lia|].
    rewrite length_app. simpl. lia. }
  lia.
Qed.

(** With [x] at the head of the accumulator, later copies of [x] are
    skipped and everything else is treated as without [x]. *)
Lemma loop_head (iterable acc : list A) (x : A) :
  fold_left step iterable (x :: acc)
  = x :: fold_left step (remove eq_dec x iterable) acc.
Proof.
  revert acc. induction iterable as [|y rest IH]; intro acc; [reflexivity|].
  cbn [fold_left remove]. destruct (eq_dec x y) as [<-|Nxy].
  - replace (step (x :: acc) x) with (x :: acc); [apply IH|].
    unfold step, append_if_new.
    destruct (in_dec eq_dec x (x :: acc)) as [_|Hout]; [reflexivity|].
    exfalso. apply Hout. now left.
  - cbn [fold_left]. rewrite <- IH. f_equal.
    unfold step, append_if_new.
    destruct (in_dec eq_dec y (x :: acc)) as [Hin|Hout],
             (in_dec eq_dec y acc) as [Hin'|Hout']; try reflexivity.
    + destruct Hin as [E|Hin]; [congruence | contradiction].
    + exfalso. apply Hout. now right.
Qed.

Lemma loop_fresh (iterable acc : list A) :
  NoDup (acc ++ iterable) -> fold_left step iterable acc = acc ++ iterable.
Proof.
  revert acc. induction iterable as [|x rest IH]; intros acc N; simpl.
  - now rewrite app_nil_r.
  - assert (Hout : ~ In x acc).
    { apply NoDup_remove_2 in N. intro Hin. apply N.
      apply in_or_app. now left. }
    replace (step acc x) with (acc ++ [x]).
    + rewrite IH; rewrite <- app_assoc; [reflexivity | exact N].
    + unfold step, append_if_new.
      destruct (in_dec eq_dec x acc); [contradiction | reflexivity].
Qed.

(** X1.  [get_unique_in_order] returns a list without duplicates that has
    exactly the elements of its input, and is never longer than it. *)
Theorem get_unique_in_order_is_duplicate_free (iterable : list A) :
  NoDup (get_unique_in_order eq_dec iterable)
  /\ (forall x, In x (get_unique_in_order eq_dec iterable) <-> In x iterable)
  /\ (length (get_unique_in_order eq_dec iterable) <= length iterable)%nat.
Proof.
  unfold get_unique_in_order. fold step. split; [|split].
  - apply loop_nodup. constructor.
  - intro x. rewrite loop_in. simpl. tauto.
  - apply (loop_length iterable []).
Qed.

(** X2.  Elements come out in the order of their first occurrence: the
    head of the input heads the output, and the rest of the output is what
    the function returns for the tail with every copy of the head
    removed. *)
Theorem get_unique_in_order_keeps_first_occurrences (x : A) (rest : list A) :
  get_unique_in_order eq_dec (x :: rest)
  = x :: get_unique_in_order eq_dec (remove eq_dec x rest).
Proof.
  unfold get_unique_in_order. fold step. cbn [fold_left].
  replace (step [] x) with [x] by reflexivity.
  apply loop_head.
Qed.

(** X3.  A list without duplicates is returned as it is; hence applying
    the function twice is the same as applying it once. *)
Theorem get_unique_in_order_fixes_duplicate_free_lists (iterable : list A) :
  (NoDup iterable -> get_unique_in_order eq_dec iterable = iterable)
  /\ get_unique_in_order eq_dec (get_unique_in_order eq_dec iterable)
     = get_unique_in_order eq_dec iterable.
Proof.
  assert (F : forall l, NoDup l -> get_unique_in_order eq_dec l = l).
  { intros l N. unfold get_unique_in_order. fold step.
    now rewrite loop_fresh. }
  split; [apply F|]. apply F.
  unfold get_unique_in_order. fold step. apply loop_nodup. constructor.
Qed.

End GetUniqueInOrderFacts.

Example get_unique_in_order_run :
  get_unique_in_order Nat.eq_dec [3; 1; 3; 2; 1; 5]%nat = [3; 1; 2; 5]%nat.
Proof. reflexivity. Qed.

(* ================================================================== *)
(** ** ccal.support.drop_nan_columns                                    *)
(* ================================================================== *)

Lemma for_each_map {A B : Type} (f : A -> result B) (g : A -> B)
  (items : list A) :
  (forall i, In i items -> f i = Ok (g i)) ->
  for_each f items = Ok (map g items).
Proof.
  induction items as [|i rest IH]; simpl; intro E; [reflexivity|].
  rewrite (E i) by now left. simpl.
  rewrite IH by (intros; apply E; now right). reflexivity.
Qed.

Section DropNanColumnsFacts.

Context {T : Type} `{Number T}.

Local Open Scope nat_scope.

(** The entries of [v] at the positions where [keep] is true. *)
Let select (v : list T) (keep : list bool) : list T :=
  map fst (filter snd (combine v keep)).

Let kept (keep : list bool) : nat := length (filter (fun b => b) keep).

Lemma iand_length (f m f' : list bool) :
  iand f m = Ok f' -> length f' = length f.
Proof.
  unfold iand. destruct (Nat.eqb_spec (length m) (length f)) as [E|N].
  - intro R. inversion R; subst.
    rewrite length_map, length_combine. lia.
  - destruct m as [|b [|c m]]; intro R; inversion R; subst.
    apply length_map.
Qed.

Lemma iand_raises (f m : list bool) (e : exn) :
  iand f m = Raise e -> e = ValueError /\ length m <> length f.
Proof.
  unfold iand. destruct (Nat.eqb_spec (length m) (length f)) as [E|N];
    [discriminate|].
  destruct m as [|b [|c m]]; intro R; inversion R; now split.
Qed.

Lemma filter_all_length (vectors : list (list T)) (f f' : list bool) :
  filter_all vectors f = Ok f' -> length f' = length f.
Proof.
  revert f. induction vectors as [|v rest IH]; simpl; intros f R.
  - now inversion R.
  - apply bind_ok in R. destruct R as (f1 & E1 & R).
    rewrite (IH _ R). now apply iand_length in E1.
Qed.

Lemma filter_all_raises (vectors : list (list T)) (f : list bool) (e : exn) :
  filter_all vectors f = Raise e -> e = ValueError.
Proof.
  revert f. induction vectors as [|v rest IH]; simpl; intros f R;
    [discriminate|].
  destruct (iand f (not_nan v)) as [f1|e1] eqn:E1; simpl in R.
  - now apply IH in R.
  - inversion R; subst. now apply iand_raises in E1.
Qed.

Lemma and_mask_nth (f m : list bool) (i : nat) :
  length m = length f ->
  nth i (map (fun p => fst p && snd p) (combine f m)) false
  = nth i f false && nth i m false.
Proof.
  revert m i. induction f as [|b f IH]; intros [|c m] [|i] L;
    simpl in *; try reflexivity; try discriminate.
  apply IH. lia.
Qed.

Lemma not_nan_nth (v : list T) (i : nat) :
  nth i (not_nan v) false = true
  <-> exists x, nth_error v i = Some x /\ isnan x = false.
Proof.
  revert i. induction v as [|y v IH]; intros [|i]; simpl.
  - split; [discriminate | intros (x & E & _); discriminate].
  - split; [discriminate | intros (x & E & _); discriminate].
  - rewrite negb_true_iff. split.
    + intro E. now exists y.
    + intros (x & E & N). now inversion E; subst.
  - apply IH.
Qed.

(** Over vectors of the filter's length the loop returns, and a position
    stays true exactly when it was true and no vector has a NaN there. *)
Lemma filter_all_same_length (vectors : list (list T)) (f : list bool) :
  (forall v, In v vectors -> length v = length f) ->
  exists f',
    filter_all vectors f = Ok f'
    /\ forall i,
         nth i f' false = true
         <-> nth i f false = true
             /\ forall v, In v vectors ->
                  exists x, nth_error v i = Some x /\ isnan x = false.
Proof.
  revert f. induction vectors as [|v rest IH]; intros f L; simpl.
  - exists f. split; [reflexivity|]. intro i. split; [|tauto].
    intro E. split; [exact E | intros v []].
  - assert (Lv : length (not_nan v) = length f).
    { unfold not_nan. rewrite length_map. apply L. now left. }
    unfold iand. rewrite (proj2 (Nat.eqb_eq _ _) Lv). simpl.
    set (f1 := map (fun p => fst p && snd p) (combine f (not_nan v))).
    assert (L1 : length f1 = length f).
    { unfold f1. rewrite length_map, length_combine. lia. }
    destruct (IH f1) as (f' & E & Hf').
    { intros w Hw. rewrite L1. apply L. now right. }
    exists f'. split; [exact E|]. intro i. rewrite Hf'.
    unfold f1. rewrite and_mask_nth by exact Lv.
    rewrite andb_true_iff, not_nan_nth. split.
    + intros [[Hf Hv] Hrest]. split; [exact Hf|].
      intros w [<-|Hw]; [exact Hv | now apply Hrest].
    + intros [Hf Hall]. split; [split; [exact Hf|]|].
      * apply Hall. now left.
      * intros w Hw. apply Hall. now right.
Qed.

Lemma select_in (v : list T) (keep : list bool) (x : T) :
  In x (select v keep) ->
  exists i, nth_error v i = Some x /\ nth i keep false = true.
Proof.
  unfold select. revert keep.
  induction v as [|y v IH]; intros [|b keep]; simpl; try contradiction.
  destruct b; simpl.
  - intros [<-|Hin].
    + now exists 0.
    + destruct (IH keep Hin) as (i & E & K). now exists (S i).
  - intro Hin. destruct (IH keep Hin) as (i & E & K). now exists (S i).
Qed.

Lemma select_length (v : list T) (keep : list bool) :
  length v = length keep -> length (select v keep) = kept keep.
Proof.
  unfold select, kept. revert keep.
  induction v as [|y v IH]; intros [|b keep] L; simpl in *;
    try reflexivity; try discriminate.
  destruct b; simpl; [f_equal|]; apply IH; lia.
Qed.

Lemma select_all (v : list T) :
  select v (repeat true (length v)) = v.
Proof.
  unfold select. induction v as [|y v IH]; simpl; [reflexivity|].
  now rewrite IH.
Qed.

Lemma select_nothing (v : list T) : select v [] = [].
Proof. unfold select. now destruct v. Qed.

Lemma boolean_index_same_length (v : list T) (keep : list bool) :
  length v = length keep -> boolean_index v keep = Ok (select v keep).
Proof.
  intro L. unfold boolean_index. destruct keep as [|b keep].
  - now rewrite select_nothing.
  - now rewrite (proj2 (Nat.eqb_eq _ _) L).
Qed.

Lemma boolean_index_empty_mask (v : list T) :
  boolean_index v [] = Ok (select v []).
Proof. now rewrite select_nothing. Qed.

Lemma boolean_index_ok (v : list T) (keep : list bool) (out : list T) :
  boolean_index v keep = Ok out ->
  out = select v keep /\ (keep = [] \/ length v = length keep).
Proof.
  unfold boolean_index. destruct keep as [|b keep].
  - intro R. inversion R. rewrite select_nothing. split; [reflexivity | now left].
  - destruct (Nat.eqb_spec (length v) (length (b :: keep))) as [L|L];
      [|discriminate].
    intro R. inversion R. split; [reflexivity | now right].
Qed.

Lemma boolean_index_raises (v : list T) (keep : list bool) (e : exn) :
  boolean_index v keep = Raise e -> e = IndexError.
Proof.
  unfold boolean_index. destruct keep as [|b keep]; [discriminate|].
  destruct (Nat.eqb (length v) (length (b :: keep))); intro R; now inversion R.
Qed.

(** Against an empty filter, the in-place [&=] accepts the masks of length
    zero and one and no other. *)
Lemma filter_all_empty (vectors : list (list T)) :
  (exists keep, filter_all vectors [] = Ok keep)
  <-> forall v, In v vectors -> length v <= 1.
Proof.
  induction vectors as [|v rest IH]; cbn [filter_all].
  - split; [intros _ v [] | intros _; now exists []].
  - assert (I : iand [] (not_nan v)
                = if Nat.leb (length v) 1 then Ok [] else Raise ValueError).
    { unfold iand, not_nan. destruct v as [|x [|y v]]; reflexivity. }
    rewrite I. destruct (Nat.leb_spec (length v) 1) as [L|L]; cbn [bind].
    + rewrite IH. split.
      * intros Hr w [<-|Hw]; [exact L | now apply Hr].
      * intros Hr w Hw. apply Hr. now right.
    + split.
      * intros (keep & E). discriminate.
      * intro Hr. specialize (Hr v (or_introl eq_refl)). lia.
Qed.

Lemma not_nan_clean (v : list T) :
  Forall (fun x => isnan x = false) v -> not_nan v = repeat true (length v).
Proof.
  unfold not_nan. induction 1 as [|x v Hx _ IH]; simpl; [reflexivity|].
  now rewrite Hx, IH.
Qed.

Lemma and_all_true (f : list bool) :
  map (fun p => fst p && snd p) (combine f (repeat true (length f))) = f.
Proof.
  induction f as [|b f IH]; simpl; [reflexivity|].
  now rewrite andb_true_r, IH.
Qed.

Lemma filter_all_clean (vectors : list (list T)) (f : list bool) :
  (forall v, In v vectors ->
     length v = length f /\ Forall (fun x => isnan x = false) v) ->
  filter_all vectors f = Ok f.
Proof.
  induction vectors as [|v rest IH]; intro Hv; simpl; [reflexivity|].
  destruct (Hv v (or_introl eq_refl)) as [L C].
  rewrite (not_nan_clean C), L. unfold iand.
  rewrite repeat_length, Nat.eqb_refl, and_all_true. simpl.
  apply IH. intros w Hw. apply Hv. now right.
Qed.

Lemma repeat_true_nth (n i : nat) :
  nth i (repeat true n) false = true <-> i < n.
Proof.
  revert i. induction n as [|n IH]; intros [|i]; simpl;
    try (split; [discriminate | lia]); [split; [lia | reflexivity]|].
  rewrite IH. lia.
Qed.

Lemma for_each_ok_each {A B : Type} (f : A -> result B) (items : list A)
  (out : list B) (i : A) :
  for_each f items = Ok out -> In i items -> exists b, f i = Ok b.
Proof.
  intros E Hin. apply In_nth_error in Hin. destruct Hin as (k & Hk).
  destruct (for_each_nth _ _ _ E Hk) as (b & Eb & _). now exists b.
Qed.

Lemma drop_nan_columns_cons (first : list T) (rest : list (list T)) :
  drop_nan_columns (first :: rest)
  = bind (filter_all (first :: rest) (repeat true (length first)))
         (fun keep =>
            for_each (fun v => boolean_index v keep) (first :: rest)).
Proof. reflexivity. Qed.

(** What a successful call went through. *)
Lemma drop_nan_columns_returns (vectors out : list (list T)) :
  drop_nan_columns vectors = Ok out ->
  exists first rest keep,
    vectors = first :: rest
    /\ filter_all vectors (repeat true (length first)) = Ok keep
    /\ length keep = length first
    /\ (first = [] \/ forall v, In v vectors -> length v = length first)
    /\ out = map (fun v => select v keep) vectors.
Proof.
  unfold drop_nan_columns. intro E.
  apply bind_ok in E. destruct E as (first & Ef & E).
  apply bind_ok in E. destruct E as (keep & Ek & E).
  destruct vectors as [|v rest]; [discriminate|].
  unfold getitem in Ef. simpl in Ef. inversion Ef; subst v.
  assert (Lk : length keep = length first).
  { rewrite (filter_all_length _ _ Ek). apply repeat_length. }
  assert (Ev : forall v, In v (first :: rest) ->
                 boolean_index v keep = Ok (select v keep)
                 /\ (keep = [] \/ length v = length keep)).
  { intros v Hv. destruct (for_each_ok_each _ _ v E Hv) as (o & Eo).
    destruct (boolean_index_ok _ _ Eo) as [-> D]. now split. }
  exists first, rest, keep. repeat split; try assumption.
  - destruct first as [|x first]; [now left | right].
    intros v Hv. destruct (Ev v Hv) as [_ [->|L]]; [discriminate | congruence].
  - rewrite (@for_each_map _ _ _ (fun v => select v keep)) in E.
    + now inversion E.
    + intros v Hv. now apply Ev.
Qed.

(** X4.  [drop_nan_columns] returns exactly when it is given at least one
    vector and either all vectors have the length of the first one, or the
    first one is empty and no vector has more than one entry (the masks of
    length one are broadcast against the empty filter, and the empty filter
    selects nothing from any vector).  An empty list raises [IndexError];
    any other failure is a [ValueError] (from the in-place [&=]) or an
    [IndexError] (from the boolean index). *)
Theorem drop_nan_columns_needs_equal_lengths (vectors : list (list T)) :
  ((exists out, drop_nan_columns vectors = Ok out)
   <-> vectors <> []
       /\ ((forall v, In v vectors -> length v = length (hd [] vectors))
           \/ (hd [] vectors = []
               /\ forall v, In v vectors -> length v <= 1)))
  /\ (vectors = [] -> drop_nan_columns vectors = Raise IndexError)
  /\ (forall e, drop_nan_columns vectors = Raise e ->
                e = IndexError \/ e = ValueError).
Proof.
  split; [split|split].
  - intros (out & E).
    destruct (drop_nan_columns_returns _ E)
      as (first & rest & keep & -> & Ek & _ & L & _).
    split; [discriminate|]. destruct L as [->|L]; [right | now left].
    split; [reflexivity|]. apply filter_all_empty. now exists keep.
  - intros (Hne & L). destruct vectors as [|first rest]; [congruence|].
    cbn [hd] in L. rewrite drop_nan_columns_cons. destruct L as [L|[-> L]].
    + destruct (@filter_all_same_length (first :: rest)
                  (repeat true (length first))) as (keep & Ek & _).
      { intros v Hv. rewrite repeat_length. now apply L. }
      rewrite Ek. cbn [bind].
      assert (Lk : length keep = length first).
      { rewrite (filter_all_length _ _ Ek). apply repeat_length. }
      apply for_each_ok. intros v Hv. eexists.
      apply boolean_index_same_length. rewrite Lk. now apply L.
    + cbn [length repeat].
      destruct (proj2 (filter_all_empty ([] :: rest)) L) as (keep & Ek).
      rewrite Ek. cbn [bind].
      assert (keep = []) as ->.
      { apply filter_all_length in Ek. now destruct keep. }
      apply for_each_ok. intros v Hv. eexists. apply boolean_index_empty_mask.
  - intros ->. reflexivity.
  - intros e E. unfold drop_nan_columns in E.
    destruct (getitem vectors 0) as [first|e0] eqn:Ef; simpl in E.
    + destruct (filter_all vectors (repeat true (length first)))
        as [keep|e1] eqn:Ek; simpl in E.
      * apply for_each_raise_source in E. destruct E as (v & _ & Ev).
        left. now apply boolean_index_raises in Ev.
      * inversion E; subst. right. now apply filter_all_raises in Ek.
    + inversion E; subst. left. unfold getitem in Ef.
      destruct (nth_error vectors 0); now inversion Ef.
Qed.

(** X5.  When [drop_nan_columns] returns, it returns one vector per input
    vector, in the same order.  There is one mask of positions for all of
    them, as long as the first vector: unless that length is zero, every
    vector has it; a position is kept exactly when it is a position of the
    first vector and no input vector has a NaN there, and every output is
    its input restricted to the kept positions.  So the outputs all have
    the same length and none of them contains a NaN. *)
Theorem drop_nan_columns_keeps_clean_positions
  (vectors out : list (list T)) :
  drop_nan_columns vectors = Ok out ->
  length out = length vectors
  /\ exists keep n,
       length keep = n
       /\ n = length (hd [] vectors)
       /\ (n = 0 \/ forall v, In v vectors -> length v = n)
       /\ (forall i,
             nth i keep false = true
             <-> i < n
                 /\ forall v, In v vectors ->
                      exists x, nth_error v i = Some x /\ isnan x = false)
       /\ out = map (fun v => map fst (filter snd (combine v keep))) vectors
       /\ Forall (fun o => length o = length (filter (fun b => b) keep)) out
       /\ Forall (Forall (fun x => isnan x = false)) out.
Proof.
  intro E.
  destruct (drop_nan_columns_returns _ E)
    as (first & rest & keep & Ev & Ek & Lk & L & Eo).
  split; [rewrite Eo; apply length_map|].
  exists keep, (length first).
  assert (Hk : forall i,
    nth i keep false = true
    <-> i < length first
        /\ forall v, In v vectors ->
             exists x, nth_error v i = Some x /\ isnan x = false).
  { destruct L as [->|L].
    - destruct keep; [|discriminate]. intro i. simpl.
      split; [destruct i; discriminate | lia].
    - destruct (@filter_all_same_length vectors (repeat true (length first)))
        as (keep' & Ek' & Hkeep).
      { intros v Hv. rewrite repeat_length. now apply L. }
      assert (keep' = keep) by congruence. subst keep'.
      intro i. rewrite Hkeep, repeat_true_nth. tauto. }
  split; [exact Lk|]. split; [now rewrite Ev|].
  split; [destruct L as [->|L]; [now left | now right]|].
  split; [exact Hk|]. split; [exact Eo|].
  split; rewrite Eo, Forall_forall; intros o Ho;
    apply in_map_iff in Ho; destruct Ho as (v & <- & Hv).
  - destruct L as [->|L].
    + destruct keep; [|discriminate]. now rewrite select_nothing.
    + apply select_length. rewrite Lk. now apply L.
  - apply Forall_forall. intros x Hx.
    destruct (select_in _ _ _ Hx) as (i & Ei & Ki).
    apply Hk in Ki. destruct Ki as (_ & Hall).
    destruct (Hall v Hv) as (x' & Ex' & Nx').
    congruence.
Qed.

(** X6.  Vectors of one length that hold no NaN are returned as they
    are. *)
Theorem drop_nan_columns_keeps_clean_vectors (vectors : list (list T)) :
  vectors <> [] ->
  (forall v, In v vectors -> length v = length (hd [] vectors)) ->
  Forall (Forall (fun x => isnan x = false)) vectors ->
  drop_nan_columns vectors = Ok vectors.
Proof.
  intros Hne L C. destruct vectors as [|first rest]; [congruence|].
  simpl in L. rewrite drop_nan_columns_cons.
  rewrite filter_all_clean.
  - cbn [bind].
    rewrite (@for_each_map _ _ _ (fun v => v)); [now rewrite map_id|].
    intros v Hv. rewrite boolean_index_same_length.
    + rewrite <- (L v Hv). f_equal. apply select_all.
    + rewrite repeat_length. now apply L.
  - intros v Hv. rewrite repeat_length. split; [now apply L|].
    rewrite Forall_forall in C. now apply C.
Qed.

End DropNanColumnsFacts.

Lemma drop_nan_columns_keeps_clean_positions_witness :
  length [[3; 4]; [3; 4]]%float = 2%nat
  /\ Forall (Forall (fun x => PrimFloat.is_nan x = false))
            [[3; 4]; [3; 4]]%float.
Proof.
  destruct (@drop_nan_columns_keeps_clean_positions float Binary64
              [[1; nan; 3; 4]; [nan; 2; 3; 4]]%float
              [[3; 4]; [3; 4]]%float ltac:(vm_compute; reflexivity))
    as (L & keep & n & _ & _ & _ & _ & _ & _ & C).
  split; [exact L | exact C].
Defined.

Lemma drop_nan_columns_keeps_clean_vectors_witness :
  drop_nan_columns (T:=Q) [[1; 2]; [3; 4]; [5; 6]]
  = Ok [[1; 2]; [3; 4]; [5; 6]].
Proof.
  apply drop_nan_columns_keeps_clean_vectors.
  - discriminate.
  - intros v [<-|[<-|[<-|[]]]]; reflexivity.
  - repeat constructor.
Defined.

Example drop_nan_columns_run :
  drop_nan_columns (T:=float) [[1; nan; 3; 4]; [nan; 2; 3; 4]]%float
  = Ok [[3; 4]; [3; 4]]%float
  /\ drop_nan_columns (T:=float) [[1; nan; 3; 4]; [7]]%float
     = Raise IndexError
  /\ drop_nan_columns (T:=float) [[1]; [7; 8]]%float = Raise ValueError
  /\ drop_nan_columns (T:=float) [[]; [7]]%float = Ok [[]; []].
Proof. repeat split; vm_compute; reflexivity. Qed.

(* ================================================================== *)
(** ** kraft.make_vector_grid: errors and shape on any carrier          *)
(* ================================================================== *)

Section GridOnAnyCarrier.

Context {T : Type} `{Number T}.

Lemma or_else_min_returns (grid_min : option T) (vector : list T) :
  (exists lo, or_else grid_min ndarray_min vector = Ok lo)
  <-> grid_min <> None \/ vector <> [].
Proof.
  destruct grid_min as [v|]; simpl.
  - split; [intros _; left; discriminate | intros _; eauto].
  - destruct vector as [|x rest]; simpl.
    + split; [intros (lo & E); discriminate | intros [N|N]; congruence].
    + split; [intros _; right; discriminate | intros _; eauto].
Qed.

Lemma or_else_max_returns (grid_max : option T) (vector : list T) :
  (exists hi, or_else grid_max ndarray_max vector = Ok hi)
  <-> grid_max <> None \/ vector <> [].
Proof.
  destruct grid_max as [v|]; simpl.
  - split; [intros _; left; discriminate | intros _; eauto].
  - destruct vector as [|x rest]; simpl.
    + split; [intros (hi & E); discriminate | intros [N|N]; congruence].
    + split; [intros _; right; discriminate | intros _; eauto].
Qed.

Lemma or_else_raises (bound : option T) (vector : list T) (e : exn) :
  (or_else bound ndarray_min vector = Raise e -> e = ValueError)
  /\ (or_else bound ndarray_max vector = Raise e -> e = ValueError).
Proof.
  destruct bound as [v|], vector as [|x rest]; simpl; split; intro E;
    now inversion E.
Qed.

(** X7.  On every carrier, [make_vector_grid] returns exactly when
    [n_grid] is not negative and each bound is either overridden or can be
    read from a non-empty vector; whenever it fails, the exception is a
    [ValueError]. *)
Theorem make_vector_grid_fails_only_with_value_error
  (vector : list T) (grid_min grid_max : option T) (fraction : T)
  (n_grid : Z) :
  ((exists grid,
      make_vector_grid vector grid_min grid_max fraction n_grid = Ok grid)
   <-> (grid_min <> None \/ vector <> [])
       /\ (grid_max <> None \/ vector <> [])
       /\ (0 <= n_grid)%Z)
  /\ (forall e,
        make_vector_grid vector grid_min grid_max fraction n_grid = Raise e ->
        e = ValueError).
Proof.
  unfold make_vector_grid. split; [split|].
  - intros (grid & E).
    apply bind_ok in E. destruct E as (lo & Elo & E).
    apply bind_ok in E. destruct E as (hi & Ehi & E).
    split; [apply or_else_min_returns; eauto|].
    split; [apply or_else_max_returns; eauto|].
    apply (linspace_returns (sub lo (mul (sub hi lo) fraction))
             (add hi (mul (sub hi lo) fraction))). eauto.
  - intros (Hlo & Hhi & Hn).
    apply or_else_min_returns in Hlo. destruct Hlo as (lo & ->).
    apply or_else_max_returns in Hhi. destruct Hhi as (hi & ->).
    simpl. now apply linspace_returns.
  - intros e E.
    destruct (or_else grid_min ndarray_min vector) as [lo|e1] eqn:Elo;
      simpl in E.
    + destruct (or_else grid_max ndarray_max vector) as [hi|e2] eqn:Ehi;
        simpl in E.
      * now apply linspace_raises in E.
      * inversion E; subst.
        exact (proj2 (@or_else_raises grid_max vector e) Ehi).
    + inversion E; subst.
      exact (proj1 (@or_else_raises grid_min vector e) Elo).
Qed.

(** X8.  On every carrier, rounding or not, a returned grid has exactly
    [n_grid] points, and with two points or more its last point is the
    upper end [grid_max + extension] itself, as the carrier computes it
    (numpy overwrites the last sample with [stop]). *)
Theorem make_vector_grid_ends_at_upper_end
  (vector : list T) (grid_min grid_max : option T) (fraction : T)
  (n_grid : Z) (lo hi : T) (grid : list T) (default : T) :
  or_else grid_min ndarray_min vector = Ok lo ->
  or_else grid_max ndarray_max vector = Ok hi ->
  make_vector_grid vector grid_min grid_max fraction n_grid = Ok grid ->
  length grid = Z.to_nat n_grid
  /\ ((2 <= n_grid)%Z ->
      last grid default = add hi (mul (sub hi lo) fraction)).
Proof.
  intros Elo Ehi E. unfold make_vector_grid in E. rewrite Elo, Ehi in E.
  simpl in E. destruct (linspace_shape _ _ _ default E) as (_ & L & Hlast).
  split; [exact L|]. intro Hn. apply Hlast. lia.
Qed.

End GridOnAnyCarrier.

Lemma make_vector_grid_ends_at_upper_end_witness :
  length [-1; 2; 5; 8; 11]%float = 5%nat
  /\ last [-1; 2; 5; 8; 11]%float 0%float
     = (10 + (10 - 0) * float_tenth)%float.
Proof.
  destruct (@make_vector_grid_ends_at_upper_end float Binary64
              [0; 3; 10]%float None None float_tenth 5 0%float 10%float
              [-1; 2; 5; 8; 11]%float 0%float
              eq_refl eq_refl ltac:(vm_compute; reflexivity))
    as (L & E).
  split; [exact L | apply E; lia].
Defined.

(* ================================================================== *)
(** ** kraft.make_vector_grid: a NaN in the column, on binary64         *)
(* ================================================================== *)

Section Binary64Nan.

Local Open Scope float_scope.

Lemma nan_add_r (x y : float) :
  PrimFloat.is_nan y = true -> PrimFloat.is_nan (x + y) = true.
Proof.
  rewrite !is_nan_Prim2SF, add_spec. intros ->.
  unfold SF64add, SFadd. now destruct (Prim2SF x).
Qed.

Lemma nan_sub_l (x y : float) :
  PrimFloat.is_nan x = true -> PrimFloat.is_nan (x - y) = true.
Proof.
  rewrite !is_nan_Prim2SF, sub_spec. now intros ->.
Qed.

Lemma nan_sub_r (x y : float) :
  PrimFloat.is_nan y = true -> PrimFloat.is_nan (x - y) = true.
Proof.
  rewrite !is_nan_Prim2SF, sub_spec. intros ->.
  unfold SF64sub, SFsub. now destruct (Prim2SF x).
Qed.

Lemma nan_mul_l (x y : float) :
  PrimFloat.is_nan x = true -> PrimFloat.is_nan (x * y) = true.
Proof.
  rewrite !is_nan_Prim2SF, mul_spec. now intros ->.
Qed.

Lemma leb_nan_r (x y : float) :
  PrimFloat.is_nan y = true -> PrimFloat.leb x y = false.
Proof.
  rewrite is_nan_Prim2SF, FloatAxioms.leb_spec. intros ->.
  unfold SFleb, SFcompare. now destruct (Prim2SF x).
Qed.

(** A NaN met by the reduction is kept to the end. *)
Lemma min_step_nan (a b : float) :
  PrimFloat.is_nan a = true \/ PrimFloat.is_nan b = true ->
  PrimFloat.is_nan (min_step a b) = true.
Proof.
  unfold min_step, strictly_below. cbn [leb eqb isnan Binary64].
  destruct (PrimFloat.is_nan a) eqn:Na.
  - intros _. now rewrite orb_true_r.
  - intros [F|Nb]; [discriminate|]. now rewrite leb_nan_r.
Qed.

Lemma max_step_nan (a b : float) :
  PrimFloat.is_nan a = true \/ PrimFloat.is_nan b = true ->
  PrimFloat.is_nan (max_step a b) = true.
Proof.
  unfold max_step, strictly_below. cbn [leb eqb isnan Binary64].
  destruct (PrimFloat.is_nan a) eqn:Na.
  - intros _. now rewrite orb_true_r.
  - intros [F|Nb]; [discriminate|].
    assert (L : PrimFloat.leb b a = false).
    { rewrite FloatAxioms.leb_spec. apply is_nan_Prim2SF in Nb. now rewrite Nb. }
    now rewrite L.
Qed.

Lemma fold_nan (op : float -> float -> float) (rest : list float) (x : float) :
  (forall a b, PrimFloat.is_nan a = true \/ PrimFloat.is_nan b = true ->
               PrimFloat.is_nan (op a b) = true) ->
  PrimFloat.is_nan x = true
  \/ Exists (fun y => PrimFloat.is_nan y = true) rest ->
  PrimFloat.is_nan (fold_left op rest x) = true.
Proof.
  intro Hop. revert x. induction rest as [|r rest IH]; intros x Hn; simpl.
  - destruct Hn as [Hx|Hr]; [exact Hx | inversion Hr].
  - apply IH. destruct Hn as [Hx|Hr].
    + left. apply Hop. now left.
    + inversion Hr; subst; [left; apply Hop; now right | now right].
Qed.

(** [vector.min()] and [vector.max()] of a vector that holds a NaN. *)
Lemma reductions_nan (vector : list float) :
  Exists (fun y => PrimFloat.is_nan y = true) vector ->
  exists lo hi,
    ndarray_min vector = Ok lo /\ ndarray_max vector = Ok hi
    /\ PrimFloat.is_nan lo = true /\ PrimFloat.is_nan hi = true.
Proof.
  intro Hn. destruct vector as [|x rest]; [inversion Hn|].
  do 2 eexists. split; [reflexivity|]. split; [reflexivity|].
  assert (Hx : PrimFloat.is_nan x = true
               \/ Exists (fun y => PrimFloat.is_nan y = true) rest)
    by (inversion Hn; subst; tauto).
  split; apply fold_nan; auto using min_step_nan, max_step_nan.
Qed.

Lemma removelast_all {A : Type} (P : A -> Prop) (l : list A) :
  Forall P l -> Forall P (removelast l).
Proof.
  induction 1 as [|x l Hx Hl IH]; simpl; [constructor|].
  destruct l; [constructor | constructor; assumption].
Qed.

Lemma linspace_nan (start stop : float) (num : Z) :
  PrimFloat.is_nan start = true -> PrimFloat.is_nan stop = true ->
  (0 <= num)%Z ->
  exists y, linspace start stop num = Ok y
    /\ Forall (fun p => PrimFloat.is_nan p = true) y.
Proof.
  intros Ns Nt Hn. unfold linspace.
  destruct (Z.ltb_spec num 0) as [|_]; [lia|].
  eexists. split; [reflexivity|].
  set (body := map (fun v => add v start) _).
  assert (Hbody : Forall (fun p => PrimFloat.is_nan p = true) body).
  { unfold body. apply Forall_forall. intros p Hp.
    apply in_map_iff in Hp. destruct Hp as (v & <- & _).
    cbn [add Binary64]. now apply nan_add_r. }
  destruct (1 <? num)%Z; [|exact Hbody].
  unfold set_last. apply Forall_app. split.
  - now apply removelast_all.
  - now repeat constructor.
Qed.

(** X9.  On binary64, when the column holds a NaN and at least one bound
    is left to be read from the column, the call still returns [n_grid]
    points, and every one of them is NaN: [vector.min()] and
    [vector.max()] propagate the NaN, and with it the range, the
    extension and both ends. *)
Theorem make_vector_grid_nan_poisons_the_grid
  (vector : list float) (grid_min grid_max : option float) (fraction : float)
  (n_grid : Z) :
  Exists (fun x => PrimFloat.is_nan x = true) vector ->
  grid_min = None \/ grid_max = None ->
  (0 <= n_grid)%Z ->
  exists grid,
    make_vector_grid vector grid_min grid_max fraction n_grid = Ok grid
    /\ length grid = Z.to_nat n_grid
    /\ Forall (fun p => PrimFloat.is_nan p = true) grid.
Proof.
  intros Hnan Hnone Hn.
  destruct (reductions_nan Hnan) as (vlo & vhi & Emin & Emax & Nlo & Nhi).
  assert (Elo : exists lo, or_else grid_min ndarray_min vector = Ok lo
                  /\ (grid_min = None -> PrimFloat.is_nan lo = true)).
  { destruct grid_min as [v|]; simpl; [exists v; split; congruence|].
    exists vlo. now split. }
  assert (Ehi : exists hi, or_else grid_max ndarray_max vector = Ok hi
                  /\ (grid_max = None -> PrimFloat.is_nan hi = true)).
  { destruct grid_max as [v|]; simpl; [exists v; split; congruence|].
    exists vhi. now split. }
  destruct Elo as (lo & Elo & Hlo), Ehi as (hi & Ehi & Hhi).
  assert (Nrange : PrimFloat.is_nan (hi - lo) = true).
  { destruct Hnone as [E|E]; [apply nan_sub_r | apply nan_sub_l]; auto. }
  pose proof (@nan_mul_l (hi - lo) fraction Nrange) as Next.
  destruct (@linspace_nan (lo - (hi - lo) * fraction)
              (hi + (hi - lo) * fraction) n_grid
              (@nan_sub_r lo _ Next) (@nan_add_r hi _ Next) Hn)
    as (grid & E & Hgrid).
  assert (R : make_vector_grid vector grid_min grid_max fraction n_grid
              = Ok grid).
  { unfold make_vector_grid. rewrite Elo, Ehi. exact E. }
  exists grid. split; [exact R|]. split; [|exact Hgrid].
  now apply make_vector_grid_shape in R.
Qed.

End Binary64Nan.

Lemma make_vector_grid_nan_poisons_the_grid_witness :
  exists grid,
    make_vector_grid [0; nan; 10]%float None (Some 12%float) float_tenth 3
    = Ok grid
    /\ length grid = 3%nat
    /\ Forall (fun p => PrimFloat.is_nan p = true) grid.
Proof.
  apply make_vector_grid_nan_poisons_the_grid.
  - right. now left.
  - now left.
  - lia.
Defined.

(* ================================================================== *)
(** ** The Density Evaluator: grids, plot and failures of the estimator *)
(* ================================================================== *)

Lemma getitem_returns {A : Type} (l : list A) (i : nat) (a : A) :
  getitem l i = Ok a -> nth_error l i = Some a.
Proof.
  unfold getitem. destruct (nth_error l i); intro E; now inversion E.
Qed.

(** The first item on which the body raises decides the loop. *)
Lemma for_each_first_failure {B : Type} (f : nat -> result B) (e : exn)
  (i : nat) :
  forall n a,
    (a <= i < a + n)%nat ->
    (forall j, (a <= j < i)%nat -> exists b, f j = Ok b) ->
    f i = Raise e ->
    for_each f (seq a n) = Raise e.
Proof.
  induction n as [|n IH]; intros a Hi Hbefore Ei; [lia|].
  cbn [seq for_each]. destruct (Nat.eq_dec a i) as [->|Hne].
  - now rewrite Ei.
  - destruct (Hbefore a) as (b & Eb); [lia|]. rewrite Eb. cbn [bind].
    rewrite (IH (S a)); [reflexivity | lia | | exact Ei].
    intros j Hj. apply Hbefore. lia.
Qed.

Section EstimateMore.

Context {T : Type} `{Number T}.

Variable ALMOST_ZERO : T.
Variable DIMENSION_FRACTION_GRID_EXTENSION : T.
Variable DIMENSION_N_GRID : Z.
Variable compute_vector_bandwidth : list T -> result T.
Variable FFTKDE : list T -> ndarray2 T -> list (list T) -> result (list T).
Variable plot_mesh_grid : list (list T) -> list T -> result unit.

Let estimate :=
  estimate_element_x_dimension_kernel_density
    ALMOST_ZERO DIMENSION_FRACTION_GRID_EXTENSION DIMENSION_N_GRID
    compute_vector_bandwidth FFTKDE plot_mesh_grid.

(** X11.  On every carrier, when the call returns, the mesh was assembled
    from exactly one Dimension Grid per column, and the grid of column [i]
    has as many points as the resolution read for that column (the [i]-th
    entry of [dimension_n_grids], else [DIMENSION_N_GRID]), which is not
    negative. *)
Theorem estimate_builds_one_grid_per_column
  (X : ndarray2 T) (bandwidths factors : option (list T))
  (mins maxs : option (list (option T))) (fractions : option (list T))
  (n_grids : option (list Z)) (plot : bool)
  (mesh : list (list T)) (density : list T) :
  estimate X bandwidths factors mins maxs fractions n_grids plot
  = Ok (mesh, density) ->
  exists grids,
    resolved_grids DIMENSION_FRACTION_GRID_EXTENSION DIMENSION_N_GRID
                   X mins maxs fractions n_grids = Ok grids
    /\ mesh = make_mesh_grid_point_x_dimension grids
    /\ length grids = n_col X
    /\ forall i grid,
         nth_error grids i = Some grid ->
         exists n,
           nth_error (or_tuple_of n_grids DIMENSION_N_GRID (n_col X)) i
           = Some n
           /\ (0 <= n)%Z
           /\ length grid = Z.to_nat n.
Proof.
  intro E. apply estimate_returns in E.
  destruct E as (bw & grids & raw & _ & Eg & Em & _ & _).
  exists grids. split; [exact Eg|]. split; [exact Em|].
  unfold resolved_grids in Eg.
  pose proof (for_each_length _ _ Eg) as L.
  unfold range in L. rewrite length_seq in L.
  split; [exact L|]. intros i grid Hi.
  assert (Hlt : (i < n_col X)%nat).
  { rewrite <- L. apply nth_error_Some. congruence. }
  assert (Hk : nth_error (range (n_col X)) i = Some i).
  { unfold range. rewrite nth_error_seq.
    destruct (Nat.ltb_spec i (n_col X)); [reflexivity | lia]. }
  destruct (for_each_nth _ _ _ Eg Hk) as (g & Ei & Hg).
  assert (g = grid) by congruence. subst g.
  unfold dimension_grid in Ei.
  apply bind_ok in Ei. destruct Ei as (gmin & _ & Ei).
  apply bind_ok in Ei. destruct Ei as (gmax & _ & Ei).
  apply bind_ok in Ei. destruct Ei as (fr & _ & Ei).
  apply bind_ok in Ei. destruct Ei as (n & En & Ei).
  exists n. split; [now apply getitem_returns|].
  now apply make_vector_grid_shape in Ei.
Qed.

(** X12.  On every carrier, the call with [plot=True] is the call with
    [plot=False] followed by [plot_mesh_grid] on the pair about to be
    returned: plotting never changes the returned pair, it can only add a
    failure of its own, and a call that fails without the plot fails the
    same way with it. *)
Theorem plot_only_adds_its_own_failure
  (X : ndarray2 T) (bandwidths factors : option (list T))
  (mins maxs : option (list (option T))) (fractions : option (list T))
  (n_grids : option (list Z)) :
  estimate X bandwidths factors mins maxs fractions n_grids true
  = bind (estimate X bandwidths factors mins maxs fractions n_grids false)
         (fun r => bind (plot_mesh_grid (fst r) (snd r)) (fun _ => Ok r))
  /\ (forall r,
        estimate X bandwidths factors mins maxs fractions n_grids true = Ok r ->
        estimate X bandwidths factors mins maxs fractions n_grids false = Ok r)
  /\ (forall e,
        estimate X bandwidths factors mins maxs fractions n_grids false
        = Raise e ->
        estimate X bandwidths factors mins maxs fractions n_grids true
        = Raise e).
Proof.
  assert (E : estimate X bandwidths factors mins maxs fractions n_grids true
    = bind (estimate X bandwidths factors mins maxs fractions n_grids false)
        (fun r => bind (plot_mesh_grid (fst r) (snd r)) (fun _ => Ok r))).
  { unfold estimate. rewrite !estimate_stages.
    destruct (resolved_bandwidths compute_vector_bandwidth X bandwidths
                factors) as [bw|e]; [|reflexivity]. cbn [bind].
    destruct (resolved_grids DIMENSION_FRACTION_GRID_EXTENSION
                DIMENSION_N_GRID X mins maxs fractions n_grids)
      as [grids|e]; [|reflexivity]. cbn [bind].
    destruct (FFTKDE bw X (make_mesh_grid_point_x_dimension grids))
      as [raw|e]; reflexivity. }
  split; [exact E|]. split.
  - intros r R. rewrite E in R.
    apply bind_ok in R. destruct R as (r' & R' & R).
    apply bind_ok in R. destruct R as (u & _ & R). now inversion R; subst.
  - intros e R. now rewrite E, R.
Qed.

(** X13.  On every carrier, with [dimension_bandwidths] left out, the
    first column on which the Bandwidth Estimator raises decides the
    call: its exception is the call's exception, whatever the other
    arguments are. *)
Theorem first_bandwidth_failure_is_the_outcome
  (X : ndarray2 T) (i : nat) (e : exn) (factors : option (list T))
  (mins maxs : option (list (option T))) (fractions : option (list T))
  (n_grids : option (list Z)) (plot : bool) :
  (i < n_col X)%nat ->
  (forall j, (j < i)%nat ->
     exists b, compute_vector_bandwidth (column j X) = Ok b) ->
  compute_vector_bandwidth (column i X) = Raise e ->
  estimate X None factors mins maxs fractions n_grids plot = Raise e.
Proof.
  intros Hi Hbefore Ei.
  unfold estimate, estimate_element_x_dimension_kernel_density, range.
  rewrite (@for_each_first_failure _
             (fun k => compute_vector_bandwidth (column k X)) e i
             (n_col X) 0%nat); [reflexivity | lia | | exact Ei].
  intros j Hj. apply Hbefore. lia.
Qed.

End EstimateMore.

Lemma estimate_builds_one_grid_per_column_witness :
  exists grids : list (list Q),
    length grids = 2%nat
    /\ forall i grid,
         nth_error grids i = Some grid ->
         exists n, nth_error [3; 2]%Z i = Some n /\ length grid = Z.to_nat n.
Proof.
  assert (R : exists mesh density,
    estimate_element_x_dimension_kernel_density (T:=Q)
      (1 # 100) (1 # 10) 100 (constant_bandwidth 1) (constant_kernel 0)
      no_plot {| n_col := 2; rows := [[0; 1]; [10; 3]] |}
      None None None None None (Some [3; 2]%Z) false
    = Ok (mesh, density))
    by (do 2 eexists; vm_compute; reflexivity).
  destruct R as (mesh & density & R).
  destruct (estimate_builds_one_grid_per_column _ _ _ _ _ _ _ _ _ _ _ _ _ _ R)
    as (grids & _ & _ & L & Hg).
  exists grids. split; [exact L|]. intros i grid Hi.
  destruct (Hg i grid Hi) as (n & En & _ & Ln). exists n. now split.
Defined.

(** The estimator fails on the second column only. *)
Lemma first_bandwidth_failure_is_the_outcome_witness :
  estimate_element_x_dimension_kernel_density (T:=Q)
    (1 # 100) (1 # 10) 100
    (fun v => if Qeq_bool (nth 0 v 0) 1 then Raise LibraryError else Ok 1)
    (constant_kernel 0) no_plot {| n_col := 2; rows := [[0; 1]; [10; 3]] |}
    None None None None None (Some [3%Z]) false
  = Raise LibraryError.
Proof.
  apply first_bandwidth_failure_is_the_outcome with (i := 1%nat).
  - simpl. lia.
  - intros [|j] Hj; [eexists; reflexivity | lia].
  - reflexivity.
Defined.

(* ================================================================== *)
(** ** kwat.dataframe.drop_until: more on the loop                      *)
(* ================================================================== *)

Section DropUntilMore.

Local Open Scope nat_scope.

Variable dataframe : Type.
Variable shape : dataframe -> nat * nat.
Variable drop : dataframe -> Z -> dataframe.

Lemma flip_axis_twice (ax : Z) : flip_axis (flip_axis ax) = ax.
Proof.
  unfold flip_axis.
  destruct (Z.eqb_spec ax 0) as [->|N0]; [reflexivity|].
  destruct (Z.eqb_spec ax 1) as [->|N1]; [reflexivity|].
  destruct (Z.eqb_spec ax 0); [contradiction|].
  destruct (Z.eqb_spec ax 1); [contradiction | reflexivity].
Qed.

Lemma after_drops_step (k : nat) (da : dataframe) (ax : Z) :
  after_drops drop (S k) da ax
  = (drop (fst (after_drops drop k da ax)) (snd (after_drops drop k da ax)),
     flip_axis (snd (after_drops drop k da ax))).
Proof.
  revert da ax. induction k as [|k IH]; intros da ax; [reflexivity|].
  change (after_drops drop (S (S k)) da ax)
    with (after_drops drop (S k) (drop da ax) (flip_axis ax)).
  rewrite IH. reflexivity.
Qed.

Lemma after_drops_axis (k : nat) (da : dataframe) (ax : Z) :
  snd (after_drops drop k da ax)
  = if Nat.even k then ax else flip_axis ax.
Proof.
  induction k as [|k IH]; [reflexivity|].
  rewrite after_drops_step. cbn [snd]. rewrite IH, Nat.even_succ.
  rewrite <- Nat.negb_even.
  destruct (Nat.even k); simpl; [reflexivity | apply flip_axis_twice].
Qed.

(** X14.  The calls of [drop] alternate between two axes: the
    [(k+1)]-th call is made on the dataframe left by the [k]-th, along the
    first axis when [k] is even and along its flip when [k] is odd.  Only
    0 and 1 are flipped into each other; any other axis is passed to every
    call unchanged. *)
Theorem drop_until_alternates_axes (da : dataframe) (ax : option Z) (k : nat) :
  let first := first_axis (shape da) ax in
  frame_after shape drop (S k) da ax
  = drop (frame_after shape drop k da ax)
         (if Nat.even k then first else flip_axis first)
  /\ (first = 0%Z -> flip_axis first = 1%Z)
  /\ (first = 1%Z -> flip_axis first = 0%Z)
  /\ (first <> 0%Z -> first <> 1%Z -> flip_axis first = first).
Proof.
  intro first. split; [|split; [|split]].
  - unfold frame_after. fold first.
    rewrite after_drops_step. cbn [fst]. now rewrite after_drops_axis.
  - now intros ->.
  - now intros ->.
  - intros N0 N1. unfold flip_axis.
    destruct (Z.eqb_spec first 0); [contradiction|].
    destruct (Z.eqb_spec first 1); [contradiction | reflexivity].
Qed.


Section Shrinking.

Hypothesis drop_shrinks :
  forall da ax,
    fst (shape (drop da ax)) <= fst (shape da)
    /\ snd (shape (drop da ax)) <= snd (shape da).

(** X16.  When [drop] never adds a row or a column, what [drop_until]
    returns has at most the rows and at most the columns of its input. *)
Theorem drop_until_never_grows (fuel : nat) (da : dataframe) (ax : option Z)
  (result : dataframe) :
  drop_until shape drop fuel da ax = Some result ->
  fst (shape result) <= fst (shape da)
  /\ snd (shape result) <= snd (shape da).
Proof.
  assert (L : forall n d sh a re r,
    drop_until_loop shape drop n d sh a re = Some r ->
    fst (shape r) <= fst (shape d) /\ snd (shape r) <= snd (shape d)).
  { induction n as [|n IH]; intros d sh a re r E; [discriminate|].
    cbn [drop_until_loop] in E.
    destruct (drop_shrinks d a) as [Hr Hc].
    destruct (re && shape_eqb sh (shape (drop d a))).
    - inversion E; subst. now split.
    - apply IH in E. lia. }
  apply L.
Qed.

End Shrinking.

End DropUntilMore.


Lemma drop_until_never_grows_witness :
  (fst (3, 2) <= fst (5, 4) /\ snd (3, 2) <= snd (5, 4))%nat.
Proof.
  apply (@drop_until_never_grows (nat * nat) (fun sh => sh) shave
           shave_shrinks 11 (5, 4)%nat None (3, 2)%nat).
  reflexivity.
Defined.

(* ================================================================== *)
(** ** The Density Evaluator: bandwidth factors                         *)
(* ================================================================== *)

Section BandwidthFactors.

Context {T : Type} `{Number T}.

Variable ALMOST_ZERO : T.
Variable DIMENSION_FRACTION_GRID_EXTENSION : T.
Variable DIMENSION_N_GRID : Z.
Variable compute_vector_bandwidth : list T -> result T.
Variable FFTKDE : list T -> ndarray2 T -> list (list T) -> result (list T).
Variable plot_mesh_grid : list (list T) -> list T -> result unit.

(** X17.  On every carrier, when factors are supplied and the call
    returns, the kernel evaluator was handed exactly one bandwidth per
    column: for column [i], the [i]-th base bandwidth (supplied, else
    estimated from that column) times the [i]-th factor.  The Density
    Surface is the clamp of what the evaluator returned for these
    bandwidths. *)
Theorem factors_scale_the_bandwidths
  (X : ndarray2 T) (bandwidths : option (list T)) (factors : list T)
  (mins maxs : option (list (option T))) (fractions : option (list T))
  (n_grids : option (list Z)) (plot : bool)
  (mesh : list (list T)) (density : list T) :
  estimate_element_x_dimension_kernel_density
    ALMOST_ZERO DIMENSION_FRACTION_GRID_EXTENSION DIMENSION_N_GRID
    compute_vector_bandwidth FFTKDE plot_mesh_grid
    X bandwidths (Some factors) mins maxs fractions n_grids plot
  = Ok (mesh, density) ->
  exists base bw raw,
    match bandwidths with
    | Some supplied => base = supplied
    | None =>
        length base = n_col X
        /\ forall i b, nth_error base i = Some b ->
                       compute_vector_bandwidth (column i X) = Ok b
    end
    /\ length bw = n_col X
    /\ (forall i, (i < n_col X)%nat ->
          exists b f,
            nth_error base i = Some b /\ nth_error factors i = Some f
            /\ nth_error bw i = Some (mul b f))
    /\ FFTKDE bw X mesh = Ok raw
    /\ density = clip ALMOST_ZERO raw.
Proof.
  intro E. apply estimate_returns in E.
  destruct E as (bw & grids & raw & Ebw & _ & _ & Eraw & Ed).
  unfold resolved_bandwidths in Ebw.
  apply bind_ok in Ebw. destruct Ebw as (base & Ebase & Ebw).
  exists base, bw, raw.
  pose proof (for_each_length _ _ Ebw) as L.
  unfold range in L. rewrite length_seq in L.
  split; [|split; [exact L | split; [|split; assumption]]].
  - destruct bandwidths as [supplied|].
    + now inversion Ebase.
    + pose proof (for_each_length _ _ Ebase) as Lb.
      unfold range in Lb. rewrite length_seq in Lb.
      split; [exact Lb|]. intros i b Hb.
      assert (Hi : (i < n_col X)%nat).
      { rewrite <- Lb. apply nth_error_Some. congruence. }
      assert (Hk : nth_error (range (n_col X)) i = Some i).
      { unfold range. rewrite nth_error_seq.
        destruct (Nat.ltb_spec i (n_col X)); [reflexivity | lia]. }
      destruct (for_each_nth _ _ _ Ebase Hk) as (b' & Eb' & Nb').
      congruence.
  - intros i Hi.
    assert (Hk : nth_error (range (n_col X)) i = Some i).
    { unfold range. rewrite nth_error_seq.
      destruct (Nat.ltb_spec i (n_col X)); [reflexivity | lia]. }
    destruct (for_each_nth _ _ _ Ebw Hk) as (v & Ev & Nv).
    apply bind_ok in Ev. destruct Ev as (b & Eb & Ev).
    apply bind_ok in Ev. destruct Ev as (f & Ef & Ev).
    inversion Ev; subst v.
    exists b, f. repeat split; [| |exact Nv]; now apply getitem_returns.
Qed.

End BandwidthFactors.

Lemma factors_scale_the_bandwidths_witness :
  exists bw : list Q,
    length bw = 2%nat
    /\ forall i, (i < 2)%nat ->
         exists b f,
           nth_error [3 # 2; 5] i = Some b /\ nth_error [2; 4] i = Some f
           /\ nth_error bw i = Some (b * f)%Q.
Proof.
  assert (R : exists mesh density,
    estimate_element_x_dimension_kernel_density (T:=Q)
      (1 # 100) (1 # 10) 100 (constant_bandwidth 1) (constant_kernel 0)
      no_plot {| n_col := 2; rows := [[0; 1]; [10; 3]] |}
      (Some [3 # 2; 5]) (Some [2; 4]) None None None (Some [3; 2]%Z) false
    = Ok (mesh, density))
    by (do 2 eexists; vm_compute; reflexivity).
  destruct R as (mesh & density & R).
  destruct (factors_scale_the_bandwidths _ _ _ _ _ _ _ _ _ _ _ _ _ _ R)
    as (base & bw & raw & -> & L & Hbw & _).
  exists bw. split; [exact L | exact Hbw].
Defined.
